(** * ccds [init]: the project scaffolder of cmd/init.go

    A shallow embedding of the [init] command (cmd/init.go) and of package
    [paths], over an explicit model of the process environment: the viper
    settings, the durable configuration store, the file system, standard
    input, and the external [git] process.  The Go standard library
    functions the command calls (strconv, path/filepath, os) are transcribed
    for the Unix build. *)

From Stdlib Require Import ZArith Ascii String List Lia DecimalString DecimalPos.
From stdpp Require Import base decidable option list strings.

Local Open Scope string_scope.
Local Open Scope list_scope.

(** ** Finite maps as association lists

    A Go map, the settings of viper and the file system are finite maps that
    the program also walks through, so they are kept as lists of bindings in
    which a key is bound once: [amInsert] replaces the binding of a key in
    place, or adds one at the end; of two bindings of one key the first
    would count. *)

Abbreviation amap K V := (list (K * V)).

Fixpoint amLookup {K V : Type} `{EqDecision K} (k : K) (m : amap K V) : option V :=
  match m with
  | [] => None
  | (k', v) :: m' => if decide (k' = k) then Some v else amLookup k m'
  end.

Fixpoint amInsert {K V : Type} `{EqDecision K} (k : K) (v : V) (m : amap K V)
  : amap K V :=
  match m with
  | [] => [(k, v)]
  | (k', v') :: m' =>
      if decide (k' = k) then (k', v) :: m' else (k', v') :: amInsert k v m'
  end.

Global Instance amap_lookup {K V : Type} `{EqDecision K} : Lookup K V (amap K V) :=
  amLookup.

Global Instance amap_insert {K V : Type} `{EqDecision K} : Insert K V (amap K V) :=
  amInsert.

(** [for k, v := range src { dst[k] = v }]: every key of [src] is assigned
    its value. *)
Definition amAssign {K V : Type} `{EqDecision K} (src dst : amap K V) : amap K V :=
  foldr (fun '(k, v) acc => <[k := v]> acc) dst src.

(** ** Go standard library: strconv *)

Module strconv.

Local Open Scope Z_scope.

(** [ch -= '0'; if ch > 9 { return 0, syntaxError }] *)
Definition digit (ch : ascii) : option Z :=
  let n := Z.of_N (N_of_ascii ch) in
  if (48 <=? n) && (n <=? 57) then Some (n - 48) else None.

(** The digit loop [n = n*10 + int(ch)] of Atoi / ParseUint in base 10. *)
Fixpoint digits (acc : Z) (s : string) : option Z :=
  match s with
  | EmptyString => Some acc
  | String ch s' =>
      match digit ch with
      | Some d => digits (acc * 10 + d) s'
      | None => None
      end
  end.

Definition maxInt : Z := 2 ^ 63 - 1.
Definition minInt : Z := - 2 ^ 63.

(** [strconv.Atoi]: an optional sign, at least one decimal digit, nothing
    else; a value outside the 64-bit [int] range is a range error.  [None]
    stands for a non-nil [err]. *)
Definition Atoi (s : string) : option Z :=
  match s with
  | EmptyString => None
  | String c rest =>
      let neg := Ascii.eqb c "-" in
      let body := if neg || Ascii.eqb c "+" then rest else s in
      match body with
      | EmptyString => None
      | _ =>
          match digits 0 body with
          | Some n =>
              let v := if neg then - n else n in
              if (minInt <=? v) && (v <=? maxInt) then Some v else None
          | None => None
          end
      end
  end.

(** [strconv.Itoa]: the decimal rendering of an [int]. *)
Definition Itoa (i : Z) : string := NilZero.string_of_int (Z.to_int i).

End strconv.

(** ** Go standard library: path/filepath (Unix) *)

Module filepath.

Definition Separator : ascii := "/"%char.

Definition IsPathSeparator (c : ascii) : bool := Ascii.eqb c Separator.

(** [filepath.IsAbs] on Unix: [strings.HasPrefix(path, "/")]. *)
Definition IsAbs (path : string) : bool :=
  match path with
  | String c _ => IsPathSeparator c
  | EmptyString => false
  end.

(** The state of the loop of [Clean].  [rest] is [path[r:]], the bytes not
    yet read; [out] is the lazybuf's content [buf[:w]], newest byte first,
    so that [out.append(c)] is a cons and [out.w--] drops the head;
    [dotdot] is the index in the buffer where [..] must stop. *)
Record cleanState := CleanState {
  rest : list ascii;
  out : list ascii;
  dotdot : nat
}.

(** [out.w--; for out.w > dotdot && !IsPathSeparator(out.index(out.w)) { out.w-- }]
    [dropped] is [out.index(out.w)], the byte the last decrement uncovered. *)
Fixpoint backtrack (dd : nat) (dropped : ascii) (o : list ascii) : list ascii :=
  match o with
  | [] => []
  | c :: o' =>
      if (dd <? length o)%nat && negb (IsPathSeparator dropped)
      then backtrack dd c o'
      else o
  end.

(** [for ; r < n && !IsPathSeparator(path[r]); r++ { out.append(path[r]) }] *)
Fixpoint copyElement (p : list ascii) (o : list ascii) : list ascii * list ascii :=
  match p with
  | [] => ([], o)
  | c :: p' => if IsPathSeparator c then (p, o) else copyElement p' (c :: o)
  end.

(** One iteration of [for r < n { switch {...} }]. *)
Definition cleanStep (rooted : bool) (st : cleanState) : cleanState :=
  match rest st with
  | [] => st
  | c :: p1 =>
      if IsPathSeparator c then
        (* empty path element *)
        CleanState p1 (out st) (dotdot st)
      else if Ascii.eqb c "." &&
              match p1 with [] => true | c1 :: _ => IsPathSeparator c1 end then
        (* . element *)
        CleanState p1 (out st) (dotdot st)
      else if Ascii.eqb c "." &&
              match p1 with
              | c1 :: p2 =>
                  Ascii.eqb c1 "." &&
                  match p2 with [] => true | c2 :: _ => IsPathSeparator c2 end
              | [] => false
              end then
        (* .. element: remove to last separator *)
        let p2 := tl p1 in
        if (dotdot st <? length (out st))%nat then
          (* can backtrack *)
          match out st with
          | d :: o' => CleanState p2 (backtrack (dotdot st) d o') (dotdot st)
          | [] => CleanState p2 [] (dotdot st)
          end
        else if negb rooted then
          (* cannot backtrack, but not rooted, so append .. element *)
          let o1 := match out st with [] => [] | _ => Separator :: out st end in
          let o2 := "."%char :: "."%char :: o1 in
          CleanState p2 o2 (length o2)
        else CleanState p2 (out st) (dotdot st)
      else
        (* real path element: add slash if needed, copy element *)
        let w := length (out st) in
        let o1 :=
          if (rooted && negb (w =? 1)%nat) || (negb rooted && negb (w =? 0)%nat)
          then Separator :: out st else out st in
        let '(p', o2) := copyElement (rest st) o1 in
        CleanState p' o2 (dotdot st)
  end.

(** The loop runs while [r < n]; every iteration reads at least one byte,
    so [length path] iterations are enough (lemma [cleanLoop_done]). *)
Fixpoint cleanLoop (fuel : nat) (rooted : bool) (st : cleanState) : cleanState :=
  match fuel with
  | O => st
  | S fuel' =>
      match rest st with
      | [] => st
      | _ => cleanLoop fuel' rooted (cleanStep rooted st)
      end
  end.

(** [filepath.Clean]. *)
Definition Clean (path : string) : string :=
  match list_ascii_of_string path with
  | [] => "."
  | (c :: p1) as p =>
      let rooted := IsPathSeparator c in
      let st0 := if rooted then CleanState p1 [Separator] 1
                 else CleanState p [] 0 in
      let st := cleanLoop (length p) rooted st0 in
      (* Turn empty string into "." *)
      let o := match out st with [] => ["."%char] | o => o end in
      string_of_list_ascii (rev o)
  end.

(** [filepath.Join]: the elements from the first non-empty one on, joined
    with the separator and cleaned; [""] when all are empty. *)
Fixpoint Join (elem : list string) : string :=
  match elem with
  | [] => ""
  | e :: elem' =>
      if String.eqb e "" then Join elem'
      else Clean (String.concat "/" elem)
  end.

End filepath.

(** ** The process environment *)

(** Go [error] values, as far as [init] builds and reports them. *)
Inductive error :=
| PathError (op path errno : string)      (* *os.PathError *)
| ExecError (name : string)               (* os/exec: lookup failure or non-zero exit *)
| RenderError (src : string)              (* reported by the template collaborator *)
| ErrorString (msg : string)              (* errors.New *)
| Wrapped (msg : string) (cause : error). (* errors.Wrap, errors.Wrapf *)

(** [err.Error()] *)
Fixpoint Error (e : error) : string :=
  match e with
  | PathError op path errno => op +:+ " " +:+ path +:+ ": " +:+ errno
  | ExecError name => "exec: " +:+ name
  | RenderError src => "template: " +:+ src
  | ErrorString msg => msg
  | Wrapped msg cause => msg +:+ ": " +:+ Error cause
  end.

(** What the process does to the outside, in order. *)
Inductive Event :=
| EvPrint (s : string)                    (* fmt.Print, Println, Printf *)
| EvLog (s : string)                      (* log.Println, and the line of log.Fatal *)
| EvRead                                  (* reader.ReadString *)
| EvViperSet (key value : string)
| EvMkdirAll (path : string)
| EvCreate (path : string)
| EvTemplate (src dest : string)          (* templates.Write *)
| EvWriteConfig                           (* utils.WriteConfig *)
| EvExec (name : string) (args : list string).

(** A file system entry, and an absolute path as its list of names from
    the root. *)
Inductive node := Dir | File (content : string).

Global Instance node_eq_dec : EqDecision node.
Proof. solve_decision. Defined.

Abbreviation path := (list string).

(** The file system: a finite map from absolute paths to nodes. *)
Abbreviation FS := (amap path node).

(** Every binding of [f] is one of [f']. *)
Definition fsSub (f f' : FS) : Prop :=
  forall (p : path) (n : node), f !! p = Some n -> f' !! p = Some n.

(** The record handed to the template collaborator: [struct{}{}] in
    createSkeleton, [struct{ Year, Author string }] in writeLicense. *)
Inductive Data := NoData | LicenseData (Year Author : string).

Record World := mkWorld {
  (* package-level variables of cmd: the flags *)
  author : string;
  license : string;
  language : string;
  force : bool;
  nonInteractive : bool;
  (* viper: the process-wide settings, in memory *)
  viper : amap string string;
  (* the durable configuration store, written by utils.WriteConfig *)
  store : amap string string;
  (* the file system and the working directory *)
  fs : FS;
  cwd : path;
  (* standard input: [stdin n] is what the n-th ReadString('\n') returns;
     an exhausted input returns the empty string from then on *)
  stdin : nat -> string;
  reads : nat;
  (* time.Now().Year() *)
  year : Z;
  (* exec.LookPath succeeds, and whether a command run after the given
     earlier ones exits with status 0 *)
  lookPath : string -> bool;
  execOk : list Event -> string -> list string -> bool;
  trace : list Event
}.

Definition set_author (v : string) (w : World) : World :=
  mkWorld v (license w) (language w) (force w) (nonInteractive w) (viper w)
    (store w) (fs w) (cwd w) (stdin w) (reads w) (year w) (lookPath w)
    (execOk w) (trace w).
Definition set_license (v : string) (w : World) : World :=
  mkWorld (author w) v (language w) (force w) (nonInteractive w) (viper w)
    (store w) (fs w) (cwd w) (stdin w) (reads w) (year w) (lookPath w)
    (execOk w) (trace w).
Definition set_language (v : string) (w : World) : World :=
  mkWorld (author w) (license w) v (force w) (nonInteractive w) (viper w)
    (store w) (fs w) (cwd w) (stdin w) (reads w) (year w) (lookPath w)
    (execOk w) (trace w).
Definition set_viper (v : amap string string) (w : World) : World :=
  mkWorld (author w) (license w) (language w) (force w) (nonInteractive w) v
    (store w) (fs w) (cwd w) (stdin w) (reads w) (year w) (lookPath w)
    (execOk w) (trace w).
Definition set_store (v : amap string string) (w : World) : World :=
  mkWorld (author w) (license w) (language w) (force w) (nonInteractive w)
    (viper w) v (fs w) (cwd w) (stdin w) (reads w) (year w) (lookPath w)
    (execOk w) (trace w).
Definition set_fs (v : FS) (w : World) : World :=
  mkWorld (author w) (license w) (language w) (force w) (nonInteractive w)
    (viper w) (store w) v (cwd w) (stdin w) (reads w) (year w) (lookPath w)
    (execOk w) (trace w).
Definition set_reads (v : nat) (w : World) : World :=
  mkWorld (author w) (license w) (language w) (force w) (nonInteractive w)
    (viper w) (store w) (fs w) (cwd w) (stdin w) v (year w) (lookPath w)
    (execOk w) (trace w).
Definition emit (e : Event) (w : World) : World :=
  mkWorld (author w) (license w) (language w) (force w) (nonInteractive w)
    (viper w) (store w) (fs w) (cwd w) (stdin w) (reads w) (year w)
    (lookPath w) (execOk w) (trace w ++ [e]).

(** A world after further events. *)
Definition emits (evs : list Event) (w : World) : World :=
  fold_left (fun w e => emit e w) evs w.

(** *** The monad of the process

    A computation runs on a world and returns, or ends the process
    ([os.Exit], also through [log.Fatal]), or panics, or is still looping
    when the fuel of the prompt loops is used up. *)
Inductive Res (A : Type) :=
| Ret (a : A) (w : World)
| Exit (code : Z) (w : World)
| Panic (w : World)
| Running (w : World).
Arguments Ret {A} a w.
Arguments Exit {A} code w.
Arguments Panic {A} w.
Arguments Running {A} w.

Definition M (A : Type) : Type := World -> Res A.

Definition ret {A} (a : A) : M A := fun w => Ret a w.

Definition bind {A B} (m : M A) (k : A -> M B) : M B :=
  fun w =>
    match m w with
    | Ret a w' => k a w'
    | Exit c w' => Exit c w'
    | Panic w' => Panic w'
    | Running w' => Running w'
    end.

Notation "x <- m ;; k" := (bind m (fun x => k))
  (at level 100, m at next level, right associativity).
Notation "m ;;; k" := (bind m (fun _ => k))
  (at level 100, right associativity).

(** The world a result ends in. *)
Definition final {A} (r : Res A) : World :=
  match r with Ret _ w | Exit _ w | Panic w | Running w => w end.

Definition modify (f : World -> World) : M unit := fun w => Ret tt (f w).
Definition gets {A} (f : World -> A) : M A := fun w => Ret (f w) w.

Definition os_Exit {A} (code : Z) : M A := fun w => Exit code w.
Definition panic {A} : M A := fun w => Panic w.

Definition fmt_Print (s : string) : M unit := modify (emit (EvPrint s)).
Definition log_Println (s : string) : M unit := modify (emit (EvLog s)).
(** [log.Fatal] is [Print] followed by [os.Exit(1)]. *)
Definition log_Fatal {A} (s : string) : M A := log_Println s ;;; os_Exit 1%Z.

(** [reader.ReadString('\n')]; the error is the caller's to drop. *)
Definition ReadString : M string :=
  fun w => Ret (stdin w (reads w)) (emit EvRead (set_reads (S (reads w)) w)).

(** *** viper *)
Definition viper_GetString (key : string) : M string :=
  gets (fun w => default "" (viper w !! key)).
Definition viper_Set (key value : string) : M unit :=
  modify (fun w => emit (EvViperSet key value) (set_viper (<[key := value]> (viper w)) w)).

(** *** The file system *)

(** The names between the separators of a path string. *)
Fixpoint components (cur : string) (s : string) : list string :=
  match s with
  | EmptyString => [cur]
  | String c s' =>
      if filepath.IsPathSeparator c then cur :: components "" s'
      else components (cur +:+ String c "") s'
  end.

(** Name resolution from a directory: empty names and [.] stay, [..] goes
    to the parent.  The resolution is by the names alone, as filepath.Clean
    does it: the tree has no symbolic links, so the parent of a directory is
    the path without its last name. *)
Fixpoint walk (base : path) (names : list string) : path :=
  match names with
  | [] => base
  | n :: names' =>
      if String.eqb n "" || String.eqb n "." then walk base names'
      else if String.eqb n ".." then walk (removelast base) names'
      else walk (base ++ [n]) names'
  end.

Definition resolve (cwd : path) (s : string) : path :=
  walk (if filepath.IsAbs s then [] else cwd) (components "" s).

Definition isDir (fs : FS) (p : path) : bool :=
  match p with
  | [] => true
  | _ => match fs !! p with Some Dir => true | _ => false end
  end.

(** [os.Getwd] *)
Definition pathString (p : path) : string :=
  match p with
  | [] => "/"
  | _ => String.concat "" (map (fun n => "/" +:+ n) p)
  end.

(** The directories [MkdirAll] goes through, parents first: [done] exists,
    each name of [todo] is entered, or made when missing.  A file on the way
    stops it; its path is the second component. *)
Fixpoint mkdirChain (done : path) (todo : list string) (fs : FS)
  : FS * option path :=
  match todo with
  | [] => (fs, None)
  | n :: todo' =>
      let p := done ++ [n] in
      match fs !! p with
      | Some (File _) => (fs, Some p)
      | Some Dir => mkdirChain p todo' fs
      | None => mkdirChain p todo' (<[p := Dir]> fs)
      end
  end.

Fixpoint skipWhile (f : ascii -> bool) (l : list ascii) : list ascii :=
  match l with
  | [] => []
  | c :: l' => if f c then skipWhile f l' else l
  end.

(** The argument of the call [os.MkdirAll] makes on itself: [s] without the
    separators that end it, its last element and the one separator before
    that element ([path[:j-1]]); no call when at most one character is left
    ([j > 1] fails). *)
Definition parentOf (s : string) : option string :=
  match skipWhile (fun c => negb (filepath.IsPathSeparator c))
          (skipWhile filepath.IsPathSeparator (rev (list_ascii_of_string s))) with
  | _ :: (_ :: _) as rest => Some (string_of_list_ascii (rev rest))
  | _ => None
  end.

(** [s] and the arguments of the calls below it, the longest first. *)
Fixpoint ancestors (fuel : nat) (s : string) : list string :=
  s :: match fuel with
       | 0 => []
       | S fuel' =>
           match parentOf s with
           | Some parent => ancestors fuel' parent
           | None => []
           end
       end.

Fixpoint isPrefix (p q : path) : bool :=
  match p, q with
  | [], _ => true
  | n :: p', m :: q' => String.eqb n m && isPrefix p' q'
  | _ :: _, [] => false
  end.

(** The path an error of [os.MkdirAll] carries: the call that fails is the
    innermost one that has to go through [p], and it reports its own
    argument. *)
Definition refusedAt (cwd : path) (s : string) (p : path) : string :=
  List.last (List.filter (fun a => isPrefix p (resolve cwd a))
                    (ancestors (String.length s) s)) s.

(** [os.MkdirAll(path, perm)]: the directory and all missing parents; an
    existing directory is no error.  The error is a [*PathError] of the
    operation [mkdir], on the argument of the call that met it: the whole of
    [s], or a leading part of it when a parent is in the way.  The tree holds
    no access rights: a directory is refused for the shape of the tree only
    (a file where a directory is needed, a working directory that is gone),
    never for a permission, a quota or a full device. *)
Definition mkdirAll (cwd : path) (s : string) (fs : FS)
  : FS * option error :=
  if negb (filepath.IsAbs s) && negb (isDir fs cwd)
  then (fs, Some (PathError "mkdir" (List.last (ancestors (String.length s) s) s)
                    "no such file or directory"))
  else
    match mkdirChain [] (resolve cwd s) fs with
    | (fs', None) => (fs', None)
    | (fs', Some p) => (fs', Some (PathError "mkdir" (refusedAt cwd s p) "not a directory"))
    end.

(** Opening [s] for writing with O_CREATE|O_TRUNC and storing [content]:
    the parent has to be a directory and [s] must not be one. *)
Definition writeFile (cwd : path) (s : string) (content : string)
  (fs : FS) : FS * option error :=
  let p := resolve cwd s in
  match p with
  | [] => (fs, Some (PathError "open" s "is a directory"))
  | _ =>
      if negb (isDir fs (removelast p))
      then (fs, Some (PathError "open" s "no such file or directory"))
      else
        match fs !! p with
        | Some Dir => (fs, Some (PathError "open" s "is a directory"))
        | _ => (<[p := File content]> fs, None)
        end
  end.

(** The entries of a directory, as (name, IsDir). *)
Definition entries (fs : FS) (p : path) : list (string * bool) :=
  omap (fun '(q, n) =>
          match q with
          | [] => None
          | _ => if decide (removelast q = p /\ fs !! q = Some n)
                 then Some (List.last q "", match n with Dir => true | File _ => false end)
                 else None
          end)
       fs.

Definition os_MkdirAll (s : string) : M (option error) :=
  fun w =>
    let '(fs', err) := mkdirAll (cwd w) s (fs w) in
    Ret err (emit (EvMkdirAll s) (set_fs fs' w)).

(** [os.Create] followed by [file.Close()]: an empty file. *)
Definition os_Create (s : string) : M (option error) :=
  fun w =>
    let '(fs', err) := writeFile (cwd w) s "" (fs w) in
    Ret err (emit (EvCreate s) (set_fs fs' w)).

(** [os.Getwd] *)
Definition os_Getwd : M string := gets (fun w => pathString (cwd w)).

(** [ioutil.ReadDir]: [inr] is the error. *)
Definition ioutil_ReadDir (s : string) : M (list (string * bool) + error) :=
  gets (fun w =>
          let p := resolve (cwd w) s in
          if isDir (fs w) p then inl (entries (fs w) p)
          else inr (PathError "open" s "no such file or directory")).

(** *** os/exec *)
Definition exec_LookPath (name : string) : M (option error) :=
  gets (fun w => if lookPath w name then None else Some (ExecError name)).

(** [exec.Command(name, args...).Run()] *)
Definition exec_Run (name : string) (args : list string) : M (option error) :=
  fun w =>
    Ret (if execOk w (trace w) name args then None else Some (ExecError name))
        (emit (EvExec name args) w).

(** ** Code of the repository that is not under src/ *)

(** What [init] takes from the packages [utils], [languages] and
    [templates] and the spec leaves open: the line trimmer, the two language
    tables and the template engine.  The embedding is parametric in them. *)
Class Externals := {
  (* utils.Chomp *)
  Chomp : string -> string;
  (* languages.Supported *)
  Supported : list string;
  (* languages.InitFiles: language, then template identifier to destination *)
  InitFiles : amap string (amap string string);
  (* the template engine: the rendering of a named template on a record,
     or a failure *)
  render : string -> Data -> option string;
  (* utils.WriteConfig: the error, if any, that persisting these settings
     ends with; it depends on the settings alone, so a store that has
     accepted them accepts them again *)
  WriteConfigError : amap string string -> option error;
  (* what a failed write leaves of the store, from the settings and the
     store as it was *)
  failedStore : amap string string -> amap string string -> amap string string
}.

Module utils.

(** Modelled from the spec: utils.Contains is not under src/.  A flag
    value "must exactly match one of the enum values (case-sensitive)". *)
Definition Contains (l : list string) (s : string) : bool :=
  existsb (String.eqb s) l.

(** Modelled from the spec: utils.WriteConfig is not under src/.  It is
    the step that "persist[s] ProjectConfig to the durable store", and one
    that can fail ("If this last step fails").  When it succeeds the
    settings held by viper have become the content of the store; when it
    fails it returns its error, and what is left of the store is the
    collaborator's affair.  The store is the key-value record of the spec,
    kept apart from [fs]: [fs] is the tree without the store's own file. *)
Definition WriteConfig `{Externals} : M (option error) :=
  fun w =>
    match WriteConfigError (viper w) with
    | None => Ret None (emit EvWriteConfig (set_store (viper w) w))
    | Some e =>
        Ret (Some e)
            (emit EvWriteConfig (set_store (failedStore (viper w) (store w)) w))
    end.

End utils.

Module templates.

(** Modelled from the spec: templates.Write is not under src/.  It
    "render[s] the named template against [the] data record and write[s]
    the result to the destination path, overwriting if present"; a
    rendering error is surfaced. *)
Definition Write `{Externals} (src dest : string) (data : Data) : M (option error) :=
  fun w =>
    match render src data with
    | None => Ret (Some (RenderError src)) (emit (EvTemplate src dest) w)
    | Some content =>
        let '(fs', err) := writeFile (cwd w) dest content (fs w) in
        Ret err (emit (EvTemplate src dest) (set_fs fs' w))
    end.

End templates.

(** ** package paths (src/unnamed/part_000) *)

Module paths.

Definition DockerCompose (rootPath : string) : string :=
  filepath.Join [rootPath; "docker-compose.yml"].

Definition Dockerfile (rootPath : string) : string :=
  filepath.Join [rootPath; "Dockerfile"].

Definition Scripts (rootPath : string) : string :=
  filepath.Join [rootPath; "src/scripts"].

(** Modelled from the spec: cmd/init.go calls [paths.Dockerfile()] and
    [paths.DockerCompose()] without an argument, a variant that is not
    under src/.  The spec names the generated files [Dockerfile] and
    [docker-compose.yml]; the call is taken to return that fixed relative
    name, which is also what the functions above give at an empty root. *)
Definition Dockerfile0 : string := "Dockerfile".
Definition DockerCompose0 : string := "docker-compose.yml".

End paths.

(** ** package cmd (src/cmd/init.go) *)

(** The order in which a [range] over a Go map visits its entries: any
    order, chosen anew by each loop. *)
Record rangeOrder := RangeOrder {
  order : forall A : Type, amap string A -> list (string * A);
  order_perm : forall (A : Type) (m : amap string A), order A m ≡ₚ m
}.
Arguments order _ {A} _.

Definition nl : string := String "010"%char "".

Definition licenses : list string := ["MIT"; "BSD-3-Clause"; "None"].

Definition inputRequired : string :=
  nl +:+ "error: input required in non-interactive mode".

Definition getInput `{Externals} : M string :=
  ni <- gets nonInteractive ;;
  (if ni : bool then log_Fatal inputRequired else ret tt) ;;;
  input <- ReadString ;;
  ret (Chomp input).

(** [for i := range l { choices += strconv.Itoa(i+1) + ", " }] *)
Definition choicesOf (l : list string) : string :=
  String.concat ""
    (map (fun i => strconv.Itoa (Z.of_nat (i + 1)) +:+ ", ") (seq 0 (length l))).

(** [choices = choices[:len(choices)-2]]; slicing below zero panics. *)
Definition trimChoices (choices : string) : M string :=
  if (String.length choices <? 2)%nat then panic
  else ret (substring 0 (String.length choices - 2) choices).

(** [for i, v := range l { fmt.Println(i+1, "-", v) }] *)
Fixpoint printMenu (i : nat) (l : list string) : M unit :=
  match l with
  | [] => ret tt
  | v :: l' =>
      fmt_Print (strconv.Itoa (Z.of_nat (i + 1)) +:+ " - " +:+ v +:+ nl) ;;;
      printMenu (S i) l'
  end.

(** lines 38-40 *)
Definition checkInitialized : M unit :=
  root <- viper_GetString "ProjectRoot" ;;
  if negb (String.eqb root "") then log_Fatal "Project has already been initialized"
  else ret tt.

(** lines 57-67 *)
Fixpoint confirmLoop `{Externals} (fuel : nat) : M unit :=
  match fuel with
  | O => fun w => Running w
  | S fuel' =>
      input <- getInput ;;
      if String.eqb input "y" then ret tt
      else if String.eqb input "n" || String.eqb input "" then os_Exit 0%Z
      else fmt_Print "Please answer [y/N]: " ;;; confirmLoop fuel'
  end.

(** lines 42-68; returns [projectRoot] *)
Definition confirmDirectory `{Externals} (fuel : nat) : M string :=
  projectRoot <- os_Getwd ;;
  files <- ioutil_ReadDir projectRoot ;;
  match files with
  | inr err => log_Fatal (Error err)
  | inl files =>
      f <- gets force ;;
      (if (0 <? length files)%nat && negb f then
         fmt_Print "This directory is not empty, initialize anyways? [y/N]: " ;;;
         confirmLoop fuel
       else ret tt) ;;;
      ret projectRoot
  end.

(** lines 72-75 *)
Definition resolveAuthor `{Externals} : M unit :=
  a <- gets author ;;
  if String.eqb a "" then
    fmt_Print "Author (Your name or organization/company/team): " ;;;
    input <- getInput ;;
    modify (set_author input)
  else ret tt.

(** lines 90-99 *)
Fixpoint licenseLoop `{Externals} (choices : string) (fuel : nat) : M unit :=
  match fuel with
  | O => fun w => Running w
  | S fuel' =>
      fmt_Print ("Choose " +:+ choices +:+ ": ") ;;;
      input <- getInput ;;
      match strconv.Atoi input with
      | Some choice =>
          if (0 <? choice)%Z && (choice <=? Z.of_nat (length licenses))%Z then
            match licenses !! Z.to_nat (choice - 1) with
            | Some l => modify (set_license l)
            | None => panic
            end
          else licenseLoop choices fuel'
      | None => licenseLoop choices fuel'
      end
  end.

(** lines 77-102 *)
Definition resolveLicense `{Externals} (fuel : nat) : M unit :=
  l <- gets license ;;
  if String.eqb l "" then
    choices <- trimChoices (choicesOf licenses) ;;
    fmt_Print ("Select your license: " +:+ nl) ;;;
    printMenu 0 licenses ;;;
    licenseLoop choices fuel
  else if negb (utils.Contains licenses l) then log_Fatal "unknown license"
  else ret tt.

(** lines 117-131 *)
Fixpoint languageLoop `{Externals} (choices : string) (fuel : nat) : M unit :=
  match fuel with
  | O => fun w => Running w
  | S fuel' =>
      fmt_Print ("Choose " +:+ choices +:+ " [1]: ") ;;;
      input <- getInput ;;
      if String.eqb input "" then
        match Supported !! 0%nat with
        | Some l => modify (set_language l)
        | None => panic
        end
      else
        match strconv.Atoi input with
        | Some choice =>
            if (0 <? choice)%Z && (choice <=? Z.of_nat (length Supported))%Z then
              match Supported !! Z.to_nat (choice - 1) with
              | Some l => modify (set_language l)
              | None => panic
              end
            else languageLoop choices fuel'
        | None => languageLoop choices fuel'
        end
  end.

(** lines 104-134 *)
Definition resolveLanguage `{Externals} (fuel : nat) : M unit :=
  l <- gets language ;;
  if String.eqb l "" then
    choices <- trimChoices (choicesOf Supported) ;;
    fmt_Print ("Select your primary language: " +:+ nl) ;;;
    printMenu 0 Supported ;;;
    languageLoop choices fuel
  else if negb (utils.Contains Supported l) then log_Fatal "unknown language"
  else ret tt.

(** lines 38-75: everything before the license is looked at *)
Definition untilLicense `{Externals} (fuel : nat) : M unit :=
  checkInitialized ;;;
  projectRoot <- confirmDirectory fuel ;;
  viper_Set "ProjectRoot" projectRoot ;;;
  resolveAuthor.

(** lines 136-138 *)
Definition setResolved : M unit :=
  a <- gets author ;;
  l <- gets license ;;
  g <- gets language ;;
  viper_Set "Author" a ;;;
  viper_Set "License" l ;;;
  viper_Set "PrimaryLanguage" g.

(** lines 38-138: the resolution of the configuration *)
Definition configure `{Externals} (fuel : nat) : M unit :=
  untilLicense fuel ;;;
  resolveLicense fuel ;;;
  resolveLanguage fuel ;;;
  setResolved.

(** Key is the directory path, value is whether to create a .gitkeep file *)
Definition directoriesList : list (string * bool) :=
  [ (".ccds", false);
    ("data", false);
    ("data/external", true);
    ("data/interim", true);
    ("data/processed", true);
    ("data/raw", true);
    ("docs", true);
    ("models", true);
    ("notebooks", true);
    ("references", true);
    ("reports", false);
    ("reports/figures", true);
    ("src", false);
    ("src/datasets", true);
    ("src/features", true);
    ("src/models", true);
    ("src/scripts", true);
    ("src/visualization", true) ].

Definition directories : amap string bool := directoriesList.

(** lines 202-210: the map [files] of createSkeleton once the entries of
    [languages.InitFiles[language]] are assigned into it. *)
Definition universalFiles (projectRoot language : string) : amap string string :=
  let gitignore := "gitignore/" +:+ language in
  <["docker/docker-compose.yml" := filepath.Join [projectRoot; paths.DockerCompose0]]>
  (<["docker/Dockerfile" := filepath.Join [projectRoot; paths.Dockerfile0]]>
  (<[gitignore := ".gitignore"]> [])).

Definition files `{Externals} (projectRoot language : string) : amap string string :=
  amAssign (default [] (InitFiles !! language)) (universalFiles projectRoot language).

(** lines 212-226, over the entries in the order of the range *)
Fixpoint makeDirectories (l : list (string * bool)) : M (option error) :=
  match l with
  | [] => ret None
  | (dir, keep) :: l' =>
      err <- os_MkdirAll dir ;;
      match err with
      | Some e => ret (Some (Wrapped ("failed to create directory " +:+ dir) e))
      | None =>
          if keep : bool then
            let path := filepath.Join [dir; ".gitkeep"] in
            err <- os_Create path ;;
            match err with
            | Some e => ret (Some (Wrapped ("failed to create file " +:+ path) e))
            | None => makeDirectories l'
            end
          else makeDirectories l'
      end
  end.

(** lines 228-232 *)
Fixpoint writeTemplates `{Externals} (l : list (string * string)) : M (option error) :=
  match l with
  | [] => ret None
  | (src, dest) :: l' =>
      err <- templates.Write src dest NoData ;;
      match err with
      | Some e => ret (Some e)
      | None => writeTemplates l'
      end
  end.

Definition createSkeleton `{Externals} (ord : rangeOrder) : M (option error) :=
  projectRoot <- viper_GetString "ProjectRoot" ;;
  language <- viper_GetString "PrimaryLanguage" ;;
  err <- makeDirectories (order ord directories) ;;
  match err with
  | Some e => ret (Some e)
  | None =>
      err <- writeTemplates (order ord (files projectRoot language)) ;;
      match err with
      | Some e => ret (Some e)
      | None => utils.WriteConfig
      end
  end.

Definition writeLicense `{Externals} (author license : string) : M (option error) :=
  if String.eqb license "None" then ret None
  else
    let src := "licenses/" +:+ license in
    y <- gets year ;;
    let data := LicenseData (strconv.Itoa y) author in
    templates.Write src "LICENSE" data.

Definition gitAdd (paths : list string) : M (option error) :=
  exec_Run "git" ("add" :: paths).

Definition gitCommit (message : string) : M (option error) :=
  exec_Run "git" ["commit"; "-m"; message].

Definition initRepo : M (option error) :=
  files <- ioutil_ReadDir "./" ;;
  match files with
  | inr err => ret (Some (Wrapped "failed to detect existing git repo" err))
  | inl files =>
      if existsb (fun '(name, isdir) => String.eqb name ".git" && isdir) files
      then ret (Some (ErrorString "git repo already exists"))
      else
        err <- exec_LookPath "git" ;;
        match err with
        | Some e => ret (Some (Wrapped "git not found in path" e))
        | None =>
            err <- exec_Run "git" ["init"] ;;
            match err with
            | Some e => ret (Some (Wrapped "failed to initialize git repo" e))
            | None =>
                gitAdd [".ccds"] ;;;
                gitCommit "Add ccds config directory" ;;;
                gitAdd [".gitignore"; "LICENSE"] ;;;
                gitCommit "Add standard repo files" ;;;
                gitAdd ["Dockerfile"; "docker-compose.yml"] ;;;
                gitCommit "Add Docker configuration for Jupyter" ;;;
                gitAdd ["data"] ;;;
                gitCommit "Add directory for storing datasets" ;;;
                gitAdd ["docs"] ;;;
                gitCommit "Add directory for storing documentation" ;;;
                gitAdd ["models"] ;;;
                gitCommit "Add directory for storing models" ;;;
                gitAdd ["notebooks"] ;;;
                gitCommit "Add directory for storing notebooks" ;;;
                gitAdd ["references"] ;;;
                gitCommit "Add directory for storing references" ;;;
                gitAdd ["reports"] ;;;
                gitCommit "Add directory for storing reports" ;;;
                gitAdd ["src"] ;;;
                gitCommit "Add directory for storing source code" ;;;
                ret None
            end
        end
  end.

(** [if err := f(); err != nil { log.Fatal(err) }] *)
Definition orFatal (m : M (option error)) : M unit :=
  err <- m ;;
  match err with
  | Some e => log_Fatal (Error e)
  | None => ret tt
  end.

(** initCmd.Run *)
Definition Run `{Externals} (fuel : nat) (ord : rangeOrder) : M unit :=
  configure fuel ;;;
  log_Println "Creating project skeleton..." ;;;
  orFatal (createSkeleton ord) ;;;
  a <- gets author ;;
  l <- gets license ;;
  orFatal (writeLicense a l) ;;;
  log_Println "Initializing git repository..." ;;;
  orFatal initRepo.

(** ** The commit narrative as the spec gives it *)

(** Follows the spec's words (CommitPlan, 4.5): the ordered sequence of
    (staged paths, message), to be compared with what initRepo executes. *)
Definition CommitPlan_spec : list (list string * string) :=
  [ ([".ccds"], "Add ccds config directory");
    ([".gitignore"; "LICENSE"], "Add standard repo files");
    (["Dockerfile"; "docker-compose.yml"], "Add Docker configuration for Jupyter");
    (["data"], "Add directory for storing datasets");
    (["docs"], "Add directory for storing documentation");
    (["models"], "Add directory for storing models");
    (["notebooks"], "Add directory for storing notebooks");
    (["references"], "Add directory for storing references");
    (["reports"], "Add directory for storing reports");
    (["src"], "Add directory for storing source code") ].

(** One stage-then-commit step as the two runs of the external binary. *)
Definition stepEvents (step : list string * string) : list Event :=
  [ EvExec "git" ("add" :: fst step); EvExec "git" ["commit"; "-m"; snd step] ].

Definition planEvents : list Event := flat_map stepEvents CommitPlan_spec.

Definition gitInit : Event := EvExec "git" ["init"].

(** ** Sample environments *)

(** A line trimmer that removes one trailing newline. *)
Definition chompNewline (s : string) : string :=
  let n := String.length s in
  if (0 <? n)%nat && String.eqb (substring (n - 1) 1 s) nl
  then substring 0 (n - 1) s else s.

(** A template engine whose license templates carry a copyright line. *)
Definition sampleRender (src : string) (d : Data) : option string :=
  match d with
  | NoData => Some ("# " +:+ src)
  | LicenseData y a => Some ("Copyright (c) " +:+ y +:+ " " +:+ a)
  end.

Definition sampleExternals : Externals :=
  {| Chomp := chompNewline;
     Supported := ["python"; "r"];
     InitFiles := [];
     render := sampleRender;
     WriteConfigError := fun _ => None;
     failedStore := fun _ old => old |}.

(** The same collaborators on a machine where the store cannot be written:
    the write fails and leaves a store without content. *)
Definition brokenStore : Externals :=
  {| Chomp := chompNewline;
     Supported := ["python"; "r"];
     InitFiles := [];
     render := sampleRender;
     WriteConfigError :=
       fun _ => Some (PathError "open" ".ccds/config.yml" "no space left on device");
     failedStore := fun _ _ => [] |}.

(** The order in which the bindings were made, and its reverse. *)
Definition listOrder : rangeOrder :=
  {| order := fun A m => m;
     order_perm := fun A m => reflexivity _ |}.

Definition reverseOrder : rangeOrder :=
  {| order := fun A m => reverse m;
     order_perm := fun A m => reverse_Permutation _ |}.

Definition home : path := ["home"; "ada"; "proj"].

(** An empty project directory /home/ada/proj. *)
Definition emptyProject : FS :=
  [ (["home"], Dir); (["home"; "ada"], Dir); (home, Dir) ].

(** [init --author Ada --license MIT --language python --force] in the
    empty directory, nothing on standard input, git installed. *)
Definition world0 : World :=
  {| author := "Ada"; license := "MIT"; language := "python";
     force := true; nonInteractive := false;
     viper := []; store := []; fs := emptyProject; cwd := home;
     stdin := fun _ => ""; reads := 0; year := 2026%Z;
     lookPath := fun _ => true; execOk := fun _ _ _ => true; trace := [] |}.

(** The same invocation in a project whose settings already hold a root. *)
Definition worldInitialized : World :=
  set_viper [("ProjectRoot", "/home/ada/proj")] world0.

(** A project directory that already holds a repository, on a machine
    without git. *)
Definition worldGitDirNoGit : World :=
  mkWorld "Ada" "MIT" "python" true false [] []
    (<[home ++ [".git"] := Dir]> emptyProject) home (fun _ => "") 0 2026%Z
    (fun _ => false) (fun _ _ _ => true) [].

(** [init --license Foo --non-interactive] in the empty directory. *)
Definition worldFooNonInteractive : World :=
  mkWorld "" "Foo" "python" true true [] [] emptyProject home (fun _ => "") 0
    2026%Z (fun _ => true) (fun _ _ _ => true) [].

(** [init --non-interactive] without a license, in a project whose settings
    already hold a root. *)
Definition worldInitializedNonInteractive : World :=
  mkWorld "Ada" "" "python" true true [("ProjectRoot", "/home/ada/proj")] []
    emptyProject home (fun _ => "") 0 2026%Z (fun _ => true)
    (fun _ _ _ => true) [].

(** [init --non-interactive --author Ada --language python --force] without
    a license, in the empty directory. *)
Definition worldNoLicenseNonInteractive : World :=
  mkWorld "Ada" "" "python" true true [] [] emptyProject home (fun _ => "") 0
    2026%Z (fun _ => true) (fun _ _ _ => true) [].

(** ** Frames *)

(** The events of prompting and of the in-memory settings. *)
Definition quiet (e : Event) : bool :=
  match e with
  | EvPrint _ | EvLog _ | EvRead | EvViperSet _ _ => true
  | _ => false
  end.

(** [w'] differs from [w] by talk only: the disk, the durable store and the
    surroundings are the same, and the events added are prints, log lines,
    reads and settings. *)
Definition talk (w w' : World) : Prop :=
  fs w' = fs w /\ store w' = store w /\ cwd w' = cwd w /\
  nonInteractive w' = nonInteractive w /\ force w' = force w /\
  exists evs, trace w' = trace w ++ evs /\ forallb quiet evs = true.

(** The license and language flags are the same. *)
Definition sameFlags (w w' : World) : Prop :=
  license w' = license w /\ language w' = language w /\
  nonInteractive w' = nonInteractive w.

(** A computation stays within a relation between the world it starts in
    and the world it ends in, whatever the outcome. *)
Definition respects {A} (R : World -> World -> Prop) (m : M A) : Prop :=
  forall w, R w (final (m w)).

(** [ioutil.ReadDir(projectRoot)] succeeds: the string [os.Getwd] returns
    names a directory. *)
Definition listable (w : World) : Prop :=
  isDir (fs w) (resolve (cwd w) (pathString (cwd w))) = true.

(** [init --author Ada --license Foo --language python --force] in the
    empty directory. *)
Definition worldFoo : World := set_license "Foo" world0.

(** What resolveLicense prints before its first prompt. *)
Definition licenseMenu : list Event :=
  [ EvPrint ("Select your license: " +:+ nl); EvPrint ("1 - MIT" +:+ nl);
    EvPrint ("2 - BSD-3-Clause" +:+ nl); EvPrint ("3 - None" +:+ nl) ].

(** The [n]-th line read from now on is, once trimmed, a decimal integer
    between 1 and the number of licenses. *)
Definition chosen `{Externals} (w : World) (n : nat) : Prop :=
  exists k, strconv.Atoi (Chomp (stdin w (reads w + n))) = Some k /\
            (1 <= k <= Z.of_nat (length licenses))%Z.

(** The world after one prompt [p] and one read. *)
Definition prompted (p : string) (w : World) : World :=
  emit EvRead (set_reads (S (reads w)) (emit (EvPrint p) w)).

(** An interactive run without a license flag on an exhausted input. *)
Definition worldInteractiveEOF : World :=
  mkWorld "Ada" "" "" true false [] [] emptyProject home (fun _ => "") 0
    2026%Z (fun _ => true) (fun _ _ _ => true) [].

(** An interactive run whose input answers "x", then "2". *)
Definition worldInteractiveTwo : World :=
  mkWorld "Ada" "" "" true false [] [] emptyProject home
    (fun n => match n with 0 => "x" +:+ nl | 1 => "2" +:+ nl | _ => "" end) 0
    2026%Z (fun _ => true) (fun _ _ _ => true) [].

(** [needle] occurs in [hay]. *)
Definition contains (needle hay : string) : Prop :=
  exists pre post, hay = pre +:+ needle +:+ post.

(** In an established project with [--license MIT]: the License Writer's
    input. *)
Definition worldLicense : World := world0.

(** The buffer of [Clean] on a rooted path: it starts with the separator
    (the buffer is kept newest first), and [dotdot] stays at 1. *)
Definition rootedState (st : filepath.cleanState) : Prop :=
  filepath.dotdot st = 1 /\
  exists x, filepath.out st = x ++ [filepath.Separator].

(** ** The skeleton as a list of file system operations *)

(** The three things createSkeleton asks of the file system. *)
Inductive fsop :=
| OpMkdir (s : string)                 (* os.MkdirAll(s) *)
| OpCreate (s : string)                (* os.Create(s), closed at once *)
| OpTemplate (src dest : string).      (* templates.Write(src, dest, struct{}{}) *)

Definition applyOp `{Externals} (c : path) (o : fsop) (f : FS)
  : FS * option error :=
  match o with
  | OpMkdir s => mkdirAll c s f
  | OpCreate s => writeFile c s "" f
  | OpTemplate src dest =>
      match render src NoData with
      | None => (f, Some (RenderError src))
      | Some content => writeFile c dest content f
      end
  end.

(** The operations in order, up to the first that fails. *)
Fixpoint runOps `{Externals} (c : path) (ops : list fsop) (f : FS)
  : FS * option error :=
  match ops with
  | [] => (f, None)
  | o :: ops' =>
      match applyOp c o f with
      | (f', None) => runOps c ops' f'
      | (f', Some e) => (f', Some e)
      end
  end.

Definition dirOps (l : list (string * bool)) : list fsop :=
  flat_map (fun '(dir, keep) =>
              OpMkdir dir ::
              (if keep : bool then [OpCreate (filepath.Join [dir; ".gitkeep"])] else []))
           l.

Definition templateOps (l : list (string * string)) : list fsop :=
  map (fun '(src, dest) => OpTemplate src dest) l.

(** Every directory from [done] down along [todo] is there. *)
Fixpoint chainDirs (f : FS) (done : path) (todo : list string) : Prop :=
  match todo with
  | [] => True
  | n :: todo' =>
      f !! (done ++ [n]) = Some Dir /\ chainDirs f (done ++ [n]) todo'
  end.

(** The file [s] is in place with the given content. *)
Definition holds (c : path) (s content : string) (f : FS) : Prop :=
  resolve c s <> [] /\
  isDir f (removelast (resolve c s)) = true /\
  f !! resolve c s = Some (File content).

(** What an operation has established once it has succeeded. *)
Definition post `{Externals} (c : path) (o : fsop) (f : FS) : Prop :=
  match o with
  | OpMkdir s =>
      (filepath.IsAbs s = true \/ isDir f c = true) /\ chainDirs f [] (resolve c s)
  | OpCreate s => holds c s "" f
  | OpTemplate src dest =>
      exists content, render src NoData = Some content /\ holds c dest content f
  end.

(** The path an operation writes a file to, and the content (when the
    template renders). *)
Definition written `{Externals} (c : path) (o : fsop) : option (path * option string) :=
  match o with
  | OpMkdir _ => None
  | OpCreate s => Some (resolve c s, Some "")
  | OpTemplate src dest => Some (resolve c dest, render src NoData)
  end.

(** Two operations do not write different contents to one file. *)
Definition compatible `{Externals} (c : path) (o1 o2 : fsop) : bool :=
  match written c o1, written c o2 with
  | Some (p1, c1), Some (p2, c2) =>
      if decide (p1 = p2) then bool_decide (c1 = c2) else true
  | _, _ => true
  end.

(** The manifest createSkeleton works from in world [w], in some order. *)
Definition manifest `{Externals} (w : World) : list fsop :=
  dirOps directories ++
  templateOps (files (default "" (viper w !! "ProjectRoot"))
                     (default "" (viper w !! "PrimaryLanguage"))).

(** The invariant of the spec's data model: no two entries of the manifest
    collide on a destination with different contents. *)
Definition collisionFree `{Externals} (w : World) : Prop :=
  forallb (fun o1 => forallb (compatible (cwd w) o1) (manifest w)) (manifest w) = true.

(** The project of [world0] with its settings resolved: where createSkeleton
    starts. *)
Definition worldConfigured : World :=
  set_viper (<["PrimaryLanguage" := "python"]>
             (<["License" := "MIT"]>
             (<["Author" := "Ada"]>
             (<["ProjectRoot" := "/home/ada/proj"]> [])))) world0.

(** Directories are never removed or replaced. *)
Definition dirsKept (f f' : FS) : Prop :=
  forall q, f !! q = Some Dir -> f' !! q = Some Dir.

(** The event an operation leaves in the trace. *)
Definition opEvent (o : fsop) : Event :=
  match o with
  | OpMkdir s => EvMkdirAll s
  | OpCreate s => EvCreate s
  | OpTemplate src dest => EvTemplate src dest
  end.

(** The operations that are attempted: all of them up to and including the
    first that fails. *)
Fixpoint attempted `{Externals} (c : path) (ops : list fsop) (f : FS)
  : list fsop :=
  match ops with
  | [] => []
  | o :: ops' =>
      o :: match applyOp c o f with
           | (f', None) => attempted c ops' f'
           | (_, Some _) => []
           end
  end.

(** The world after the operations were run from [w]. *)
Definition after `{Externals} (ops : list fsop) (w : World) : World :=
  emits (map opEvent (attempted (cwd w) ops (fs w)))
        (set_fs (fst (runOps (cwd w) ops (fs w))) w).

(** The operations of createSkeleton in the order [ord] of its two loops. *)
Definition skeletonOps `{Externals} (ord : rangeOrder) (w : World) : list fsop :=
  dirOps (order ord directories) ++
  templateOps (order ord (files (default "" (viper w !! "ProjectRoot"))
                                (default "" (viper w !! "PrimaryLanguage")))).

(** The events of the skeleton on disk. *)
Definition diskEvent (e : Event) : bool :=
  match e with
  | EvMkdirAll _ | EvCreate _ | EvTemplate _ _ => true
  | _ => false
  end.

(** A project directory in which [models] is a regular file. *)
Definition worldModelsFile : World :=
  set_fs (<[home ++ ["models"] := File "notes"]> emptyProject) world0.

(** The settings in memory and the working directory are the same. *)
Definition sameViper (w w' : World) : Prop :=
  viper w' = viper w /\ cwd w' = cwd w.

(** ** Outcomes, as tests *)

(** The computation returned. *)
Definition returned {A} (r : Res A) : bool :=
  match r with Ret _ _ => true | _ => false end.

(** The computation returned without an error. *)
Definition succeeded (r : Res (option error)) : bool :=
  match r with Ret None _ => true | _ => false end.

(** The process ended with the given exit status. *)
Definition exited {A} (code : Z) (r : Res A) : bool :=
  match r with Exit c _ => Z.eqb c code | _ => false end.

(** ** Further sample worlds *)

(** A machine on which [git init] works and every later git command
    fails. *)
Definition worldCommitsFail : World :=
  mkWorld "Ada" "MIT" "python" true false [] [] emptyProject home (fun _ => "") 0
    2026%Z (fun _ => true)
    (fun _ _ args => bool_decide (args = ["init"])) [].

(** A project directory in which [.git] is a regular file. *)
Definition worldGitFile : World :=
  set_fs (<[home ++ [".git"] := File "gitdir: elsewhere"]> emptyProject) world0.

(** A command that runs git. *)
Definition isExec (e : Event) : bool :=
  match e with EvExec _ _ => true | _ => false end.

(** The language tables of a build that supports no language. *)
Definition noLanguages : Externals :=
  {| Chomp := chompNewline; Supported := []; InitFiles := []; render := sampleRender;
     WriteConfigError := fun _ => None; failedStore := fun _ old => old |}.

(** [init] without a language flag. *)
Definition worldNoLanguage : World :=
  mkWorld "Ada" "MIT" "" true false [] [] emptyProject home (fun _ => "") 0
    2026%Z (fun _ => true) (fun _ _ _ => true) [].

(** [init] with every flag in a directory that holds a file, without
    [--force], the input answering "n". *)
Definition worldDecline : World :=
  mkWorld "Ada" "MIT" "python" false false [] []
    (<[home ++ ["notes.txt"] := File "x"]> emptyProject) home
    (fun _ => "n" +:+ nl) 0 2026%Z (fun _ => true) (fun _ _ _ => true) [].

(** [init --non-interactive --force] with every flag, in the empty
    directory. *)
Definition worldAllFlags : World :=
  mkWorld "Ada" "MIT" "python" true true [] [] emptyProject home (fun _ => "") 0
    2026%Z (fun _ => true) (fun _ _ _ => true) [].

(** The [n]-th line read from now on, trimmed. *)
Definition answer `{Externals} (w : World) (n : nat) : string :=
  Chomp (stdin w (reads w + n)).

(** What the confirmation loop adds to the trace over [n] answers it does
    not understand, followed by one it does. *)
Definition confirmEvents (n : nat) : list Event :=
  concat (repeat [EvRead; EvPrint "Please answer [y/N]: "] n) ++ [EvRead].

(** [init] with every flag in a directory that holds a file, without
    [--force], the input answering "maybe", then "N", then "n". *)
Definition worldHesitant : World :=
  mkWorld "Ada" "MIT" "python" false false [] []
    (<[home ++ ["notes.txt"] := File "x"]> emptyProject) home
    (fun n => match n with 0 => "maybe" +:+ nl | 1 => "N" +:+ nl | _ => "n" +:+ nl end) 0
    2026%Z (fun _ => true) (fun _ _ _ => true) [].

(** No operation of the list writes a file to [p]. *)
Definition untouched `{Externals} (c : path) (ops : list fsop) (p : path) : Prop :=
  forall o q y, In o ops -> written c o = Some (q, y) -> q <> p.

(** From [f] to [f'] the entry at [p] is the same, or a directory was made
    where there was nothing. *)
Definition grown (f f' : FS) (p : path) : Prop :=
  f' !! p = f !! p \/ (f !! p = None /\ f' !! p = Some Dir).

(** Files stay files, whatever their content becomes. *)
Definition filesStay (f f' : FS) : Prop :=
  forall (p : path) (x : string), f !! p = Some (File x) -> exists y, f' !! p = Some (File y).

(** An outcome that is no panic and no exit status other than 0 and 1. *)
Definition orderly {A} (r : Res A) : Prop :=
  match r with
  | Panic _ => False
  | Exit c _ => c = 0%Z \/ c = 1%Z
  | _ => True
  end.

(** A computation whose outcomes are all orderly. *)
Definition tidy {A} (m : M A) : Prop := forall w, orderly (m w).

(** A name that name resolution enters: not empty, not [.] or [..], and
    without a separator. *)
Definition plain (n : list ascii) : Prop :=
  Forall (fun c => filepath.IsPathSeparator c = false) n.

Definition saneName (n : string) : Prop :=
  n <> "" /\ n <> "." /\ n <> ".." /\ plain (list_ascii_of_string n).

(** The bytes of the names of a path, each after a separator. *)
Definition render0 (p : path) : list ascii :=
  flat_map (fun n => "/"%char :: list_ascii_of_string n) p.

(** Where the rest of the input of [Clean] leads from the directory
    [stack]. *)
Definition leads (stack : path) (rest : list ascii) : path :=
  walk stack (components "" (string_of_list_ascii rest)).

(** The buffer of [Clean] holds the string of [stack]. *)
Definition buffered (stack : path) (st : filepath.cleanState) : Prop :=
  filepath.out st = rev (list_ascii_of_string (pathString stack)) /\
  filepath.dotdot st = 1 /\
  Forall saneName stack.

(** In non-interactive mode the computation ends by itself and reads
    nothing: it is not left waiting at a prompt, and the input is where it
    was. *)
Definition calm {A} (m : M A) : Prop :=
  forall w, nonInteractive w = true ->
    match m w with
    | Running _ => False
    | Ret _ w' | Exit _ w' | Panic w' =>
        reads w' = reads w /\ nonInteractive w' = true
    end.

(** In non-interactive mode the computation ends the process. *)
Definition fatal {A} (m : M A) : Prop :=
  forall w, nonInteractive w = true ->
    match m w with
    | Exit _ w' => reads w' = reads w /\ nonInteractive w' = true
    | _ => False
    end.

(** A fully interactive run in the empty directory: no flag given, the
    input answering an empty line for the author, "3" for the license and
    "1" for the language. *)
Definition worldNoFlags : World :=
  mkWorld "" "" "" false false [] [] emptyProject home
    (fun n => match n with 0 => nl | 1 => "3" +:+ nl | _ => "1" +:+ nl end) 0
    2026%Z (fun _ => true) (fun _ _ _ => true) [].

(** A computation that ends the process with status 1 only. *)
Definition exitsOne {A} (m : M A) : Prop :=
  forall w c w', m w = Exit c w' -> c = 1%Z.

(** What a run of operations can have done at [p], seen from the state [f]
    it started in and the state [f'] it left: written a file there, left the
    entry as it was, or made a directory there on the way to a directory of
    the list. *)
Definition touched `{Externals} (c : path) (ops : list fsop) (f f' : FS) (p : path)
  : Prop :=
  (exists o y, In o ops /\ written c o = Some (p, y))
  \/ f' !! p = f !! p
  \/ (f' !! p = Some Dir /\
      exists s t, In (OpMkdir s) ops /\ p <> [] /\ resolve c s = p ++ t).

(** The non-empty prefixes of [d ++ t] that are longer than [d]: the
    directories [MkdirAll] goes through. *)
Fixpoint prefixes (d : path) (t : list string) : list path :=
  match t with
  | [] => []
  | n :: t' => (d ++ [n]) :: prefixes (d ++ [n]) t'
  end.

Definition isFileAt (f : FS) (p : path) : bool :=
  match f !! p with Some (File _) => true | _ => false end.

Definition isDirAt (f : FS) (p : path) : bool :=
  match f !! p with Some Dir => true | _ => false end.

Definition inPaths (p : path) (l : list path) : bool :=
  existsb (fun q => bool_decide (q = p)) l.

(** Every directory the operations make or go through. *)
Definition chainPositions `{Externals} (c : path) (ops : list fsop) : list path :=
  flat_map (fun o => match o with
                     | OpMkdir s => prefixes [] (resolve c s)
                     | _ => []
                     end) ops.

(** Every path the operations write a file to. *)
Definition destinations `{Externals} (c : path) (ops : list fsop) : list path :=
  flat_map (fun o => match written c o with
                     | Some (p, _) => [p]
                     | None => []
                     end) ops.

(** A template renders, and its destination lies in the root or in a
    directory of [chains]. *)
Definition templateReady `{Externals} (c : path) (chains : list path) (o : fsop) : bool :=
  match o with
  | OpTemplate src dest =>
      match render src NoData with Some _ => true | None => false end &&
      match removelast (resolve c dest) with
      | [] => true
      | q => inPaths q chains
      end
  | _ => true
  end.

(** The state is ready for the skeleton: the working directory exists; no
    regular file is in the way of a directory to be made; no directory is in
    the way of a file to be written, and no file is to be written where a
    directory is to be made; every template renders, and is written into the
    root or into a directory of the skeleton. *)
Definition ready `{Externals} (w : World) : bool :=
  let c := cwd w in
  let chains := chainPositions c (manifest w) in
  isDir (fs w) c
  && forallb (fun p => negb (isFileAt (fs w) p)) chains
  && forallb (fun p => negb (isDirAt (fs w) p) && negb (inPaths p chains) &&
                       match p with [] => false | _ => true end)
             (destinations c (manifest w))
  && forallb (templateReady c chains) (manifest w).

(** What a run of the operations keeps true of the file system: the
    working directory is there, no file is in the way of a directory and no
    directory in the way of a file. *)
Definition skeletonInv `{Externals} (c : path) (ops : list fsop) (f : FS) : Prop :=
  isDir f c = true /\
  (forall p, In p (chainPositions c ops) -> isFileAt f p = false) /\
  (forall p, In p (destinations c ops) -> isDirAt f p = false).

(** The surroundings of the process are the same: the clock, the programs
    in the path and what they do. *)
Definition sameMachine (w w' : World) : Prop :=
  year w' = year w /\ lookPath w' = lookPath w /\ execOk w' = execOk w.

(** The state is ready for what follows the skeleton: unless the license
    is None its template renders and [LICENSE] is no directory, now or of
    the skeleton; [.git] is no directory, now or of the skeleton; and git is
    in the path. *)
Definition finishReady `{Externals} (w : World) : bool :=
  let c := cwd w in
  let chains := chainPositions c (manifest w) in
  (String.eqb (license w) "None" ||
   (match render ("licenses/" +:+ license w)
            (LicenseData (strconv.Itoa (year w)) (author w)) with
    | Some _ => true
    | None => false
    end
    && negb (isDirAt (fs w) (c ++ ["LICENSE"]))
    && negb (inPaths (c ++ ["LICENSE"]) chains)))
  && negb (isDirAt (fs w) (c ++ [".git"]))
  && negb (inPaths (c ++ [".git"]) chains)
  && lookPath w "git".

(** The error of the loop over the directories. *)
Definition directoryError (l : list (string * bool)) (e : error) : Prop :=
  (exists dir keep p errno,
     In (dir, keep) l /\ In p (ancestors (String.length dir) dir) /\
     e = Wrapped ("failed to create directory " +:+ dir) (PathError "mkdir" p errno))
  \/ (exists dir errno,
     In (dir, true) l /\
     e = Wrapped ("failed to create file " +:+ filepath.Join [dir; ".gitkeep"])
           (PathError "open" (filepath.Join [dir; ".gitkeep"]) errno)).

(** * Properties *)

(** ** Association lists as finite maps *)

Lemma am_lookup_cons {K V : Type} `{EqDecision K} (k' k : K) (v : V) (m : amap K V) :
  ((k', v) :: m : amap K V) !! k = if decide (k' = k) then Some v else m !! k.
Proof. reflexivity. Qed.

Lemma am_insert_cons {K V : Type} `{EqDecision K} (k' k : K) (v' v : V) (m : amap K V) :
  <[k := v]> ((k', v') :: m : amap K V) =
    if decide (k' = k) then (k', v) :: m else (k', v') :: <[k := v]> m.
Proof. reflexivity. Qed.

Lemma am_lookup_insert_eq {K V : Type} `{EqDecision K} (m : amap K V) (k : K) (v : V) :
  <[k := v]> m !! k = Some v.
Proof.
  induction m as [| [k' v'] m IH].
  - change (((k, v) :: [] : amap K V) !! k = Some v). rewrite am_lookup_cons.
    destruct (decide (k = k)); [reflexivity | contradiction].
  - rewrite am_insert_cons.
    destruct (decide (k' = k)) as [E | E]; rewrite am_lookup_cons;
      destruct (decide (k' = k)); try contradiction; [reflexivity | exact IH].
Qed.

Lemma am_lookup_insert_ne {K V : Type} `{EqDecision K} (m : amap K V) (k j : K) (v : V) :
  k <> j -> <[k := v]> m !! j = m !! j.
Proof.
  intros Hne. induction m as [| [k' v'] m IH].
  - change (((k, v) :: [] : amap K V) !! j = None). rewrite am_lookup_cons.
    destruct (decide (k = j)); [contradiction | reflexivity].
  - rewrite am_insert_cons.
    destruct (decide (k' = k)) as [E | E]; rewrite !am_lookup_cons.
    + subst k'. destruct (decide (k = j)); [contradiction | reflexivity].
    + destruct (decide (k' = j)); [reflexivity | exact IH].
Qed.

(** Writing what is there already changes nothing. *)
Lemma am_insert_id {K V : Type} `{EqDecision K} (m : amap K V) (k : K) (v : V) :
  m !! k = Some v -> <[k := v]> m = m.
Proof.
  induction m as [| [k' v'] m IH]; [discriminate |].
  rewrite am_lookup_cons, am_insert_cons.
  destruct (decide (k' = k)) as [E | E].
  - intros Hm. injection Hm as ->. reflexivity.
  - intros Hl. f_equal. apply IH, Hl.
Qed.

Lemma am_lookup_In {K V : Type} `{EqDecision K} (m : amap K V) (k : K) (v : V) :
  m !! k = Some v -> In (k, v) m.
Proof.
  induction m as [| [k' v'] m IH]; [discriminate |].
  rewrite am_lookup_cons. destruct (decide (k' = k)) as [-> | _].
  - intros Hm. injection Hm as ->. left. reflexivity.
  - intros Hl. right. apply IH, Hl.
Qed.

(** After the assignment loop a key has the value of the source when the
    source binds it, and its old value otherwise. *)
Lemma am_lookup_assign {K V : Type} `{EqDecision K} (src dst : amap K V) (k : K) :
  amAssign src dst !! k =
    match src !! k with
    | Some v => Some v
    | None => dst !! k
    end.
Proof.
  induction src as [| [k' v'] src IH]; [reflexivity |].
  change (amAssign ((k', v') :: src) dst) with (<[k' := v']> (amAssign src dst)).
  rewrite am_lookup_cons. destruct (decide (k' = k)) as [-> | Hne].
  - apply am_lookup_insert_eq.
  - rewrite am_lookup_insert_ne by exact Hne. exact IH.
Qed.

Lemma fsSub_refl (f : FS) : fsSub f f.
Proof. intros p n Hp. exact Hp. Qed.

Lemma fsSub_trans (f g h : FS) : fsSub f g -> fsSub g h -> fsSub f h.
Proof. intros H1 H2 p n Hp. apply H2, H1, Hp. Qed.

Lemma fs_insert_sub (f : FS) (p : path) (n : node) :
  f !! p = None -> fsSub f (<[p := n]> f).
Proof.
  intros Hnone q m Hq. rewrite am_lookup_insert_ne; [exact Hq |].
  intros ->. rewrite Hnone in Hq. discriminate.
Qed.

(** ** Computing with the monad *)

Lemma bind_Ret {A B} (m : M A) (k : A -> M B) w a w' :
  m w = Ret a w' -> bind m k w = k a w'.
Proof. unfold bind. intros ->. reflexivity. Qed.

Lemma bind_Exit {A B} (m : M A) (k : A -> M B) w c w' :
  m w = Exit c w' -> bind m k w = Exit c w'.
Proof. unfold bind. intros ->. reflexivity. Qed.

Lemma returned_final (r : Res unit) : returned r = true -> r = Ret tt (final r).
Proof. destruct r as [[] w | | |]; try discriminate. reflexivity. Qed.

Lemma succeeded_final (r : Res (option error)) :
  succeeded r = true -> r = Ret None (final r).
Proof. destruct r as [[e |] w | | |]; try discriminate. reflexivity. Qed.

Lemma exited_final {A} (code : Z) (r : Res A) :
  exited code r = true -> r = Exit code (final r).
Proof.
  destruct r as [| c w | |]; try discriminate. simpl.
  intros Hc. apply Z.eqb_eq in Hc. subst c. reflexivity.
Qed.

(** ** C2 *)

(** C2: when the settings already hold a non-empty ProjectRoot, init
    logs that the project has already been initialized and exits with
    status 1; the only thing that happened is that log line: the file system,
    the durable store and the settings are as before, nothing was printed or
    read, no directory was made and no command was run. *)
Theorem C2_already_initialized `{Externals} (fuel : nat) (ord : rangeOrder) (w : World) :
  default "" (viper w !! "ProjectRoot") <> "" ->
  Run fuel ord w = Exit 1%Z (emit (EvLog "Project has already been initialized") w)
  /\ fs (final (Run fuel ord w)) = fs w
  /\ store (final (Run fuel ord w)) = store w
  /\ viper (final (Run fuel ord w)) = viper w
  /\ trace (final (Run fuel ord w)) =
       trace w ++ [EvLog "Project has already been initialized"].
Proof.
  intros Hroot.
  assert (Hrun : Run fuel ord w =
                 Exit 1%Z (emit (EvLog "Project has already been initialized") w)).
  { unfold Run, configure, untilLicense, checkInitialized.
    unfold bind at 1. unfold bind at 1. unfold bind at 1. unfold bind at 1.
    unfold bind at 1. unfold bind at 1.
    unfold viper_GetString, gets.
    destruct (String.eqb_spec (default "" (viper w !! "ProjectRoot")) "") as [E | _];
      [contradiction |].
    reflexivity. }
  rewrite Hrun. repeat split; reflexivity.
Qed.

Lemma C2_already_initialized_witness :
  default "" (viper worldInitialized !! "ProjectRoot") <> "" /\
  @Run sampleExternals 3 listOrder worldInitialized =
    Exit 1%Z (emit (EvLog "Project has already been initialized") worldInitialized).
Proof.
  assert (Hroot : default "" (viper worldInitialized !! "ProjectRoot") <> "")
    by (vm_compute; discriminate).
  split; [exact Hroot |].
  exact (proj1 (@C2_already_initialized sampleExternals 3 listOrder worldInitialized Hroot)).
Defined.

(** ** The repository initializer *)

Lemma trace_emits evs w : trace (emits evs w) = trace w ++ evs.
Proof.
  revert w. induction evs as [| e evs IH]; intros w; simpl.
  - symmetry. apply app_nil_r.
  - rewrite IH. simpl. rewrite <- app_assoc. reflexivity.
Qed.

Lemma resolve_dot (c : path) : resolve c "./" = c.
Proof. reflexivity. Qed.

Lemma removelast_last_inv (q : path) (p : path) :
  q <> [] -> removelast q = p -> q = p ++ [List.last q ""].
Proof. intros Hq <-. apply app_removelast_last. exact Hq. Qed.

(** The listing of a directory shows [.git] as a directory exactly when the
    file system has a directory under that name there. *)
Lemma entries_git (f : FS) (p : path) :
  existsb (fun '(name, isdir) => String.eqb name ".git" && isdir) (entries f p) = true
  <-> f !! (p ++ [".git"]) = Some Dir.
Proof.
  rewrite existsb_exists. unfold entries. split.
  - intros [[name isdir] [Hin Hb]].
    apply andb_true_iff in Hb as [Hname Hd].
    apply String.eqb_eq in Hname. subst name.
    apply list_elem_of_In, list_elem_of_omap in Hin as [[q n] [_ Hf]].
    assert (Hne : q <> []) by (intros ->; discriminate).
    assert (Hf' : (if decide (removelast q = p /\ f !! q = Some n)
                   then Some (List.last q "", match n with Dir => true | File _ => false end)
                   else None) = Some (".git", isdir))
      by (destruct q; [contradiction | exact Hf]).
    destruct (decide (removelast q = p /\ f !! q = Some n)) as [[Hp Hq] |];
      [| discriminate].
    injection Hf' as Hlast Hn.
    pose proof (removelast_last_inv q p Hne Hp) as Heq.
    rewrite Hlast in Heq. rewrite <- Heq.
    destruct n; [exact Hq | subst isdir; discriminate].
  - intros Hg. exists (".git", true). split; [| reflexivity].
    apply list_elem_of_In, list_elem_of_omap.
    exists (p ++ [".git"], Dir). split.
    + apply list_elem_of_In, am_lookup_In. exact Hg.
    + destruct (p ++ [".git"]) as [| a q'] eqn:E.
      { destruct p; discriminate. }
      rewrite <- E. rewrite removelast_last, last_last.
      destruct (decide (p = p /\ f !! (p ++ [".git"]) = Some Dir)) as [_ | Hn];
        [reflexivity | exfalso; apply Hn; split; [reflexivity | rewrite E; exact Hg]].
Qed.

(** What initRepo does once the two checks have passed. *)
Lemma initRepo_go (w : World) :
  isDir (fs w) (cwd w) = true ->
  fs w !! (cwd w ++ [".git"]) <> Some Dir ->
  lookPath w "git" = true ->
  initRepo w =
    if execOk w (trace w) "git" ["init"]
    then Ret None (emits (gitInit :: planEvents) w)
    else Ret (Some (Wrapped "failed to initialize git repo" (ExecError "git")))
             (emits [gitInit] w).
Proof.
  intros Hcwd Hgit Hlook.
  unfold initRepo. unfold bind at 1. unfold ioutil_ReadDir, gets.
  rewrite resolve_dot, Hcwd.
  destruct (existsb _ (entries (fs w) (cwd w))) eqn:Hex.
  { apply entries_git in Hex. contradiction. }
  unfold bind at 1. unfold exec_LookPath, gets. rewrite Hlook.
  unfold bind at 1. unfold exec_Run at 1.
  destruct (execOk w (trace w) "git" ["init"]); reflexivity.
Qed.

Lemma initRepo_marker (w : World) :
  isDir (fs w) (cwd w) = true ->
  fs w !! (cwd w ++ [".git"]) = Some Dir ->
  initRepo w = Ret (Some (ErrorString "git repo already exists")) w.
Proof.
  intros Hcwd Hgit.
  unfold initRepo. unfold bind at 1. unfold ioutil_ReadDir, gets.
  rewrite resolve_dot, Hcwd.
  apply entries_git in Hgit. rewrite Hgit. reflexivity.
Qed.

Lemma initRepo_no_git (w : World) :
  isDir (fs w) (cwd w) = true ->
  fs w !! (cwd w ++ [".git"]) <> Some Dir ->
  lookPath w "git" = false ->
  initRepo w = Ret (Some (Wrapped "git not found in path" (ExecError "git"))) w.
Proof.
  intros Hcwd Hgit Hlook.
  unfold initRepo. unfold bind at 1. unfold ioutil_ReadDir, gets.
  rewrite resolve_dot, Hcwd.
  destruct (existsb _ (entries (fs w) (cwd w))) eqn:Hex.
  { apply entries_git in Hex. contradiction. }
  unfold bind at 1. unfold exec_LookPath, gets. rewrite Hlook. reflexivity.
Qed.

Lemma initRepo_unreadable (w : World) :
  isDir (fs w) (cwd w) = false ->
  initRepo w =
    Ret (Some (Wrapped "failed to detect existing git repo"
                 (PathError "open" "./" "no such file or directory"))) w.
Proof.
  intros Hcwd.
  unfold initRepo. unfold bind at 1. unfold ioutil_ReadDir, gets.
  rewrite resolve_dot, Hcwd. reflexivity.
Qed.

(** The four ways initRepo can go. *)
Lemma initRepo_cases (w : World) :
  (exists e, initRepo w = Ret (Some e) w /\
     (isDir (fs w) (cwd w) = false \/ fs w !! (cwd w ++ [".git"]) = Some Dir \/
      lookPath w "git" = false))
  \/ (fs w !! (cwd w ++ [".git"]) <> Some Dir /\ lookPath w "git" = true /\
      ((exists e, initRepo w = Ret (Some e) (emits [gitInit] w)) \/
       initRepo w = Ret None (emits (gitInit :: planEvents) w))).
Proof.
  destruct (isDir (fs w) (cwd w)) eqn:Hcwd.
  2:{ left. eexists. split; [apply initRepo_unreadable; exact Hcwd | auto]. }
  assert (Hdec : fs w !! (cwd w ++ [".git"]) = Some Dir \/
                 fs w !! (cwd w ++ [".git"]) <> Some Dir)
    by (destruct (fs w !! (cwd w ++ [".git"])) as [[| c] |]; auto; right; discriminate).
  destruct Hdec as [Hgit | Hgit].
  { left. eexists. split; [apply initRepo_marker; assumption | auto]. }
  destruct (lookPath w "git") eqn:Hlook.
  2:{ left. eexists. split; [apply initRepo_no_git; assumption | auto]. }
  right. split; [exact Hgit |]. split; [reflexivity |].
  rewrite (initRepo_go w Hcwd Hgit Hlook).
  destruct (execOk w (trace w) "git" ["init"]); [right | left; eexists]; reflexivity.
Qed.

(** C3: whenever initRepo gets as far as a successful [git init] (the
    working directory can be listed and holds no [.git] directory, git is
    on the search path and [git init] succeeds), it runs after it exactly
    the ten add-then-commit steps of the commit plan, all of them, in the
    plan's order and with the plan's messages, the first being "Add ccds
    config directory", whatever any of these commands answers, and reports
    success.  initRepo always returns, and there are only two other
    executions: [git init] alone, when it fails, and no command at all, when
    one of the checks before it fails; both report an error. *)
Theorem C3_commit_sequence (w : World) :
  (isDir (fs w) (cwd w) = true ->
   fs w !! (cwd w ++ [".git"]) <> Some Dir ->
   lookPath w "git" = true ->
   execOk w (trace w) "git" ["init"] = true ->
   initRepo w = Ret None (emits (gitInit :: planEvents) w))
  /\ (exists err evs,
     initRepo w = Ret err (emits evs w) /\
     ((evs = gitInit :: planEvents /\ err = None /\
       isDir (fs w) (cwd w) = true /\ fs w !! (cwd w ++ [".git"]) <> Some Dir /\
       lookPath w "git" = true /\ execOk w (trace w) "git" ["init"] = true) \/
      (evs = [gitInit] /\ err <> None /\
       isDir (fs w) (cwd w) = true /\ fs w !! (cwd w ++ [".git"]) <> Some Dir /\
       lookPath w "git" = true /\ execOk w (trace w) "git" ["init"] = false) \/
      (evs = [] /\ err <> None /\
       (isDir (fs w) (cwd w) = false \/ fs w !! (cwd w ++ [".git"]) = Some Dir \/
        lookPath w "git" = false))))
  /\ length CommitPlan_spec = 10
  /\ snd <$> head CommitPlan_spec = Some "Add ccds config directory"
  /\ planEvents =
       [ EvExec "git" ["add"; ".ccds"];
         EvExec "git" ["commit"; "-m"; "Add ccds config directory"];
         EvExec "git" ["add"; ".gitignore"; "LICENSE"];
         EvExec "git" ["commit"; "-m"; "Add standard repo files"];
         EvExec "git" ["add"; "Dockerfile"; "docker-compose.yml"];
         EvExec "git" ["commit"; "-m"; "Add Docker configuration for Jupyter"];
         EvExec "git" ["add"; "data"];
         EvExec "git" ["commit"; "-m"; "Add directory for storing datasets"];
         EvExec "git" ["add"; "docs"];
         EvExec "git" ["commit"; "-m"; "Add directory for storing documentation"];
         EvExec "git" ["add"; "models"];
         EvExec "git" ["commit"; "-m"; "Add directory for storing models"];
         EvExec "git" ["add"; "notebooks"];
         EvExec "git" ["commit"; "-m"; "Add directory for storing notebooks"];
         EvExec "git" ["add"; "references"];
         EvExec "git" ["commit"; "-m"; "Add directory for storing references"];
         EvExec "git" ["add"; "reports"];
         EvExec "git" ["commit"; "-m"; "Add directory for storing reports"];
         EvExec "git" ["add"; "src"];
         EvExec "git" ["commit"; "-m"; "Add directory for storing source code"] ].
Proof.
  split.
  { intros Hcwd Hgit Hlook Hinit.
    rewrite (initRepo_go w Hcwd Hgit Hlook), Hinit. reflexivity. }
  split; [| repeat split; reflexivity].
  destruct (isDir (fs w) (cwd w)) eqn:Hcwd.
  2:{ eexists _, []. split; [apply initRepo_unreadable; exact Hcwd |].
      right. right. split; [reflexivity |]. split; [discriminate | auto]. }
  assert (Hdec : fs w !! (cwd w ++ [".git"]) = Some Dir \/
                 fs w !! (cwd w ++ [".git"]) <> Some Dir)
    by (destruct (fs w !! (cwd w ++ [".git"])) as [[| c] |]; auto; right; discriminate).
  destruct Hdec as [Hgit | Hgit].
  { eexists _, []. split; [apply initRepo_marker; assumption |].
    right. right. split; [reflexivity |]. split; [discriminate | auto]. }
  destruct (lookPath w "git") eqn:Hlook.
  2:{ eexists _, []. split; [apply initRepo_no_git; assumption |].
      right. right. split; [reflexivity |]. split; [discriminate | auto]. }
  pose proof (initRepo_go w Hcwd Hgit Hlook) as Hgo.
  destruct (execOk w (trace w) "git" ["init"]) eqn:Hinit.
  - exists None, (gitInit :: planEvents). split; [exact Hgo |].
    left. repeat split; try reflexivity. exact Hgit.
  - eexists _, [gitInit]. split; [exact Hgo |].
    right. left. split; [reflexivity |]. split; [discriminate |].
    repeat split; try reflexivity. exact Hgit.
Qed.

Lemma C3_commit_sequence_witness :
  execOk worldCommitsFail [gitInit] "git" ["add"; ".ccds"] = false /\
  initRepo worldCommitsFail = Ret None (emits (gitInit :: planEvents) worldCommitsFail).
Proof.
  split; [reflexivity |].
  apply (proj1 (C3_commit_sequence worldCommitsFail)).
  - reflexivity.
  - discriminate.
  - reflexivity.
  - reflexivity.
Defined.

(** C9 as stated fails: with a [.git] directory at the
    root and no git on the search path, the error is the one of the marker
    check, not the "not found" one. *)
Lemma C9_counterexample :
  lookPath worldGitDirNoGit "git" = false /\
  initRepo worldGitDirNoGit =
    Ret (Some (ErrorString "git repo already exists")) worldGitDirNoGit /\
  Error (ErrorString "git repo already exists") <>
    Error (Wrapped "git not found in path" (ExecError "git")).
Proof.
  split; [reflexivity |]. split; [| discriminate].
  apply initRepo_marker; reflexivity.
Qed.

(** C9 (amended): in a working directory that can be listed, a [.git]
    directory at the root makes initRepo fail with "git repo already exists"
    without running any command; when there is no such directory and git is
    not on the search path it fails with "git not found in path", again
    without running any command; and whenever initRepo has run a command,
    there was no [.git] directory and git was on the search path. *)
Theorem C9_checks_before_init (w : World) :
  isDir (fs w) (cwd w) = true ->
  (fs w !! (cwd w ++ [".git"]) = Some Dir ->
     initRepo w = Ret (Some (ErrorString "git repo already exists")) w)
  /\ (fs w !! (cwd w ++ [".git"]) <> Some Dir -> lookPath w "git" = false ->
     initRepo w = Ret (Some (Wrapped "git not found in path" (ExecError "git"))) w)
  /\ (forall err w', initRepo w = Ret err w' -> trace w' <> trace w ->
     fs w !! (cwd w ++ [".git"]) <> Some Dir /\ lookPath w "git" = true).
Proof.
  intros Hcwd. split; [| split].
  - intros Hgit. apply initRepo_marker; assumption.
  - intros Hgit Hlook. apply initRepo_no_git; assumption.
  - intros err w' Hr Htrace.
    destruct (initRepo_cases w) as [[e [Hr' _]] | (Hgit & Hlook & _)].
    + rewrite Hr' in Hr. injection Hr as _ <-. contradiction.
    + split; assumption.
Qed.

Lemma C9_checks_before_init_witness :
  isDir (fs worldGitDirNoGit) (cwd worldGitDirNoGit) = true /\
  initRepo worldGitDirNoGit =
    Ret (Some (ErrorString "git repo already exists")) worldGitDirNoGit.
Proof.
  assert (Hcwd : isDir (fs worldGitDirNoGit) (cwd worldGitDirNoGit) = true)
    by reflexivity.
  split; [exact Hcwd |].
  apply (proj1 (C9_checks_before_init worldGitDirNoGit Hcwd)).
  reflexivity.
Defined.

(** ** What the resolution of the configuration leaves alone *)

Section Frame.
Context `{Externals}.
Variable R : World -> World -> Prop.
Hypothesis R_refl : forall w, R w w.
Hypothesis R_trans : forall a b c, R a b -> R b c -> R a c.
Hypothesis R_emit : forall e w, quiet e = true -> R w (emit e w).
Hypothesis R_reads : forall n w, R w (set_reads n w).
Hypothesis R_viper : forall v w, R w (set_viper v w).

Lemma respects_ret {A} (a : A) : respects R (ret a).
Proof. intros w. apply R_refl. Qed.

Lemma respects_bind {A B} (m : M A) (k : A -> M B) :
  respects R m -> (forall a, respects R (k a)) -> respects R (bind m k).
Proof.
  intros Hm Hk w. unfold bind. specialize (Hm w).
  destruct (m w) as [a w' | c w' | w' | w']; simpl in *; try exact Hm.
  eapply R_trans; [exact Hm | apply Hk].
Qed.

Lemma respects_gets {A} (f : World -> A) : respects R (gets f).
Proof. intros w. apply R_refl. Qed.

Lemma respects_exit {A} c : respects R (@os_Exit A c).
Proof. intros w. apply R_refl. Qed.

Lemma respects_panic {A} : respects R (@panic A).
Proof. intros w. apply R_refl. Qed.

Lemma respects_running {A} : respects R (fun w => @Running A w).
Proof. intros w. apply R_refl. Qed.

Lemma respects_print s : respects R (fmt_Print s).
Proof. intros w. apply R_emit. reflexivity. Qed.

Lemma respects_log s : respects R (log_Println s).
Proof. intros w. apply R_emit. reflexivity. Qed.

Lemma respects_fatal {A} s : respects R (@log_Fatal A s).
Proof.
  unfold log_Fatal. apply respects_bind; [apply respects_log |].
  intros _. apply respects_exit.
Qed.

Lemma respects_read : respects R ReadString.
Proof.
  intros w. simpl. eapply R_trans; [apply R_reads | apply R_emit; reflexivity].
Qed.

Lemma respects_viper_Set k v : respects R (viper_Set k v).
Proof.
  intros w. simpl. eapply R_trans; [apply R_viper | apply R_emit; reflexivity].
Qed.

Lemma respects_getInput : respects R getInput.
Proof.
  unfold getInput. apply respects_bind; [apply respects_gets |].
  intros ni. apply respects_bind.
  { destruct ni; [apply respects_fatal | apply respects_ret]. }
  intros _. apply respects_bind; [apply respects_read |].
  intros input. apply respects_ret.
Qed.

Lemma respects_confirmLoop fuel : respects R (confirmLoop fuel).
Proof.
  induction fuel as [| fuel IH]; simpl; [apply respects_running |].
  apply respects_bind; [apply respects_getInput |].
  intros input. destruct (String.eqb input "y"); [apply respects_ret |].
  destruct (_ || _); [apply respects_exit |].
  apply respects_bind; [apply respects_print | intros _; exact IH].
Qed.

Lemma respects_checkInitialized : respects R checkInitialized.
Proof.
  unfold checkInitialized, viper_GetString.
  apply respects_bind; [apply respects_gets |].
  intros root. destruct (negb _); [apply respects_fatal | apply respects_ret].
Qed.

Lemma respects_confirmDirectory fuel : respects R (confirmDirectory fuel).
Proof.
  unfold confirmDirectory, os_Getwd, ioutil_ReadDir.
  apply respects_bind; [apply respects_gets |]. intros projectRoot.
  apply respects_bind; [apply respects_gets |]. intros [files | err].
  2: apply respects_fatal.
  apply respects_bind; [apply respects_gets |]. intros f.
  apply respects_bind; [| intros _; apply respects_ret].
  destruct (_ && _); [| apply respects_ret].
  apply respects_bind; [apply respects_print |].
  intros _. apply respects_confirmLoop.
Qed.

Lemma respects_trimChoices c : respects R (trimChoices c).
Proof.
  unfold trimChoices. destruct (_ <? _)%nat; [apply respects_panic | apply respects_ret].
Qed.

Lemma respects_printMenu i l : respects R (printMenu i l).
Proof.
  revert i. induction l as [| v l IH]; intros i; simpl; [apply respects_ret |].
  apply respects_bind; [apply respects_print | intros _; apply IH].
Qed.

Hypothesis R_author : forall v w, R w (set_author v w).

Lemma respects_resolveAuthor : respects R resolveAuthor.
Proof.
  unfold resolveAuthor. apply respects_bind; [apply respects_gets |].
  intros a. destruct (String.eqb a ""); [| apply respects_ret].
  apply respects_bind; [apply respects_print |]. intros _.
  apply respects_bind; [apply respects_getInput |]. intros input.
  intros w. apply R_author.
Qed.

Lemma respects_untilLicense fuel : respects R (untilLicense fuel).
Proof.
  unfold untilLicense.
  apply respects_bind; [apply respects_checkInitialized |]. intros _.
  apply respects_bind; [apply respects_confirmDirectory |]. intros projectRoot.
  apply respects_bind; [apply respects_viper_Set |]. intros _.
  apply respects_resolveAuthor.
Qed.

Hypothesis R_license : forall v w, R w (set_license v w).
Hypothesis R_language : forall v w, R w (set_language v w).

Lemma respects_licenseLoop c fuel : respects R (licenseLoop c fuel).
Proof.
  induction fuel as [| fuel IH]; simpl; [apply respects_running |].
  apply respects_bind; [apply respects_print |]. intros _.
  apply respects_bind; [apply respects_getInput |]. intros input.
  destruct (strconv.Atoi input) as [choice |]; [| exact IH].
  destruct (_ && _); [| exact IH].
  destruct (licenses !! _); [| apply respects_panic].
  intros w. apply R_license.
Qed.

Lemma respects_resolveLicense fuel : respects R (resolveLicense fuel).
Proof.
  unfold resolveLicense. apply respects_bind; [apply respects_gets |].
  intros l. destruct (String.eqb l "").
  - apply respects_bind; [apply respects_trimChoices |]. intros c.
    apply respects_bind; [apply respects_print |]. intros _.
    apply respects_bind; [apply respects_printMenu |]. intros _.
    apply respects_licenseLoop.
  - destruct (negb _); [apply respects_fatal | apply respects_ret].
Qed.

Lemma respects_languageLoop c fuel : respects R (languageLoop c fuel).
Proof.
  induction fuel as [| fuel IH]; simpl; [apply respects_running |].
  apply respects_bind; [apply respects_print |]. intros _.
  apply respects_bind; [apply respects_getInput |]. intros input.
  destruct (String.eqb input "").
  { destruct (Supported !! 0); [| apply respects_panic].
    intros w. apply R_language. }
  destruct (strconv.Atoi input) as [choice |]; [| exact IH].
  destruct (_ && _); [| exact IH].
  destruct (Supported !! _); [| apply respects_panic].
  intros w. apply R_language.
Qed.

Lemma respects_resolveLanguage fuel : respects R (resolveLanguage fuel).
Proof.
  unfold resolveLanguage. apply respects_bind; [apply respects_gets |].
  intros l. destruct (String.eqb l "").
  - apply respects_bind; [apply respects_trimChoices |]. intros c.
    apply respects_bind; [apply respects_print |]. intros _.
    apply respects_bind; [apply respects_printMenu |]. intros _.
    apply respects_languageLoop.
  - destruct (negb _); [apply respects_fatal | apply respects_ret].
Qed.

Lemma respects_setResolved : respects R setResolved.
Proof.
  unfold setResolved.
  apply respects_bind; [apply respects_gets |]. intros a.
  apply respects_bind; [apply respects_gets |]. intros l.
  apply respects_bind; [apply respects_gets |]. intros g.
  apply respects_bind; [apply respects_viper_Set |]. intros _.
  apply respects_bind; [apply respects_viper_Set |]. intros _.
  apply respects_viper_Set.
Qed.

Lemma respects_configure fuel : respects R (configure fuel).
Proof.
  unfold configure.
  apply respects_bind; [apply respects_untilLicense |]. intros _.
  apply respects_bind; [apply respects_resolveLicense |]. intros _.
  apply respects_bind; [apply respects_resolveLanguage |]. intros _.
  apply respects_setResolved.
Qed.

End Frame.

Lemma talk_refl w : talk w w.
Proof.
  repeat split. exists []. split; [symmetry; apply app_nil_r | reflexivity].
Qed.

Lemma talk_trans a b c : talk a b -> talk b c -> talk a c.
Proof.
  intros (F1 & S1 & C1 & N1 & O1 & e1 & T1 & Q1) (F2 & S2 & C2 & N2 & O2 & e2 & T2 & Q2).
  repeat split; try congruence.
  exists (e1 ++ e2). split.
  - rewrite T2, T1, app_assoc. reflexivity.
  - rewrite forallb_app, Q1, Q2. reflexivity.
Qed.

Lemma talk_emit e w : quiet e = true -> talk w (emit e w).
Proof.
  intros Hq. repeat split. exists [e]. split; [reflexivity |].
  simpl. rewrite Hq. reflexivity.
Qed.

Lemma talk_same (f : World -> World) :
  (forall w, fs (f w) = fs w /\ store (f w) = store w /\ cwd (f w) = cwd w /\
             nonInteractive (f w) = nonInteractive w /\ force (f w) = force w /\
             trace (f w) = trace w) ->
  forall w, talk w (f w).
Proof.
  intros Hf w. destruct (Hf w) as (? & ? & ? & ? & ? & Ht).
  repeat split; try assumption.
  exists []. split; [rewrite Ht; symmetry; apply app_nil_r | reflexivity].
Qed.

(** The resolution of the configuration only talks: whatever its outcome,
    the file system and the durable store are untouched. *)
Lemma talk_configure `{Externals} fuel : respects talk (configure fuel).
Proof.
  apply respects_configure.
  - apply talk_refl.
  - apply talk_trans.
  - apply talk_emit.
  - intros n. apply talk_same. intros w. repeat split.
  - intros v. apply talk_same. intros w. repeat split.
  - intros v. apply talk_same. intros w. repeat split.
  - intros v. apply talk_same. intros w. repeat split.
  - intros v. apply talk_same. intros w. repeat split.
Qed.

Lemma talk_untilLicense `{Externals} fuel : respects talk (untilLicense fuel).
Proof.
  apply respects_untilLicense.
  - apply talk_refl.
  - apply talk_trans.
  - apply talk_emit.
  - intros n. apply talk_same. intros w. repeat split.
  - intros v. apply talk_same. intros w. repeat split.
  - intros v. apply talk_same. intros w. repeat split.
Qed.

Lemma sameFlags_untilLicense `{Externals} fuel : respects sameFlags (untilLicense fuel).
Proof.
  apply respects_untilLicense.
  - intros w. repeat split.
  - intros a b c (? & ? & ?) (? & ? & ?). repeat split; congruence.
  - intros e w _. repeat split.
  - intros n w. repeat split.
  - intros v w. repeat split.
  - intros v w. repeat split.
Qed.

(** ** Non-interactive mode and the license flag *)

Lemma bind_stops {A B} (m : M A) (k : A -> M B) w :
  (forall a w', m w <> Ret a w') ->
  (forall a w', bind m k w <> Ret a w') /\ final (bind m k w) = final (m w).
Proof.
  intros Hm. unfold bind.
  destruct (m w) as [a w' | c w' | w' | w']; [exfalso; eapply Hm; reflexivity | | |];
    split; try reflexivity; intros; discriminate.
Qed.

Lemma getInput_nonInteractive `{Externals} (w : World) :
  nonInteractive w = true ->
  getInput w = Exit 1%Z (emit (EvLog inputRequired) w).
Proof.
  intros Hni. unfold getInput, bind, gets. rewrite Hni. reflexivity.
Qed.

(** Without a license flag the menu is printed and the prompt loop entered. *)
Lemma resolveLicense_prompt `{Externals} (fuel : nat) (w : World) :
  license w = "" ->
  resolveLicense fuel w = licenseLoop "1, 2, 3" fuel (emits licenseMenu w).
Proof.
  intros Hlic. unfold resolveLicense. unfold bind at 1. unfold gets. rewrite Hlic.
  reflexivity.
Qed.

Lemma licenseLoop_nonInteractive `{Externals} (c : string) (fuel : nat) (w : World) :
  nonInteractive w = true ->
  licenseLoop c (S fuel) w =
    Exit 1%Z (emits [EvPrint ("Choose " +:+ c +:+ ": "); EvLog inputRequired] w).
Proof.
  intros Hni. simpl. unfold bind at 1. unfold fmt_Print, modify.
  unfold bind at 1. rewrite getInput_nonInteractive by exact Hni. reflexivity.
Qed.

Lemma checkInitialized_fresh (w : World) :
  default "" (viper w !! "ProjectRoot") = "" -> checkInitialized w = Ret tt w.
Proof.
  intros Hroot. unfold checkInitialized, bind, viper_GetString, gets.
  rewrite Hroot. reflexivity.
Qed.

Lemma confirmLoop_nonInteractive `{Externals} (fuel : nat) (w : World) :
  nonInteractive w = true ->
  confirmLoop (S fuel) w = Exit 1%Z (emit (EvLog inputRequired) w).
Proof.
  intros Hni. simpl. unfold bind at 1.
  rewrite getInput_nonInteractive by exact Hni. reflexivity.
Qed.

Ltac msimpl :=
  cbv beta iota delta
    [bind ret gets modify os_Exit panic fmt_Print log_Println log_Fatal
     viper_GetString viper_Set os_Getwd ioutil_ReadDir exec_LookPath exec_Run
     ReadString];
  cbn [emit emits fold_left
       set_author set_license set_language set_viper set_store set_fs set_reads
       author license language force nonInteractive viper store fs cwd stdin
       reads year lookPath execOk trace final].

(** In non-interactive mode the steps before the license either pass
    without a prompt or die on the first read. *)
Lemma untilLicense_nonInteractive `{Externals} (fuel : nat) (w : World) :
  nonInteractive w = true ->
  default "" (viper w !! "ProjectRoot") = "" ->
  listable w ->
  (exists w1, untilLicense (S fuel) w = Ret tt w1)
  \/ (exists w' evs, untilLicense (S fuel) w = Exit 1%Z w' /\
        trace w' = trace w ++ evs ++ [EvLog inputRequired]).
Proof.
  intros Hni Hroot Hls.
  unfold untilLicense.
  rewrite (bind_Ret _ _ _ _ _ (checkInitialized_fresh w Hroot)).
  unfold confirmDirectory, resolveAuthor. msimpl.
  unfold listable in Hls. rewrite Hls.
  destruct ((0 <? length _)%nat && negb (force w)).
  - right. eexists _, [EvPrint _]. msimpl.
    rewrite confirmLoop_nonInteractive by exact Hni. split; [reflexivity |].
    msimpl. rewrite <- !app_assoc. reflexivity.
  - msimpl. destruct (String.eqb (author w) "").
    + right. eexists _, [EvViperSet _ _; EvPrint _]. msimpl.
      rewrite getInput_nonInteractive by exact Hni. split; [reflexivity |].
      msimpl. rewrite <- !app_assoc. reflexivity.
    + left. eexists. reflexivity.
Qed.

Lemma resolveLicense_nonInteractive `{Externals} (fuel : nat) (w : World) :
  nonInteractive w = true -> license w = "" ->
  exists evs,
    resolveLicense (S fuel) w = Exit 1%Z (emits (evs ++ [EvLog inputRequired]) w).
Proof.
  intros Hni Hlic.
  exists (licenseMenu ++ [EvPrint "Choose 1, 2, 3: "]).
  rewrite resolveLicense_prompt by exact Hlic.
  rewrite licenseLoop_nonInteractive by exact Hni. reflexivity.
Qed.

Lemma resolveLicense_invalid `{Externals} (fuel : nat) (w : World) :
  license w <> "" -> utils.Contains licenses (license w) = false ->
  resolveLicense fuel w = Exit 1%Z (emit (EvLog "unknown license") w).
Proof.
  intros Hne Hc. unfold resolveLicense. msimpl.
  destruct (String.eqb_spec (license w) "") as [E | _]; [contradiction |].
  rewrite Hc. reflexivity.
Qed.

Lemma resolveLicense_valid `{Externals} (fuel : nat) (w : World) :
  utils.Contains licenses (license w) = true ->
  resolveLicense fuel w = Ret tt w.
Proof.
  intros Hc. unfold resolveLicense. msimpl.
  destruct (String.eqb_spec (license w) "") as [E | _].
  { rewrite E in Hc. discriminate. }
  rewrite Hc. reflexivity.
Qed.

Lemma Contains_licenses (s : string) :
  utils.Contains licenses s = true <-> s = "MIT" \/ s = "BSD-3-Clause" \/ s = "None".
Proof.
  unfold utils.Contains, licenses. simpl.
  rewrite !orb_true_iff, !String.eqb_eq. intuition discriminate.
Qed.

(** C7 as stated fails: with [--license Foo] in
    non-interactive mode and no author given, the process dies on the author
    prompt with the input-required error; "unknown license" is never
    reported. *)
Lemma C7_counterexample :
  license worldFooNonInteractive = "Foo" /\
  utils.Contains licenses "Foo" = false /\
  exists w',
    @Run sampleExternals 3 listOrder worldFooNonInteractive = Exit 1%Z w' /\
    trace w' =
      [ EvViperSet "ProjectRoot" "/home/ada/proj";
        EvPrint "Author (Your name or organization/company/team): ";
        EvLog inputRequired ] /\
    ~ In (EvLog "unknown license") (trace w').
Proof.
  split; [reflexivity |]. split; [reflexivity |].
  eexists. split; [vm_compute; reflexivity |]. split; [reflexivity |].
  simpl. intros [E | [E | [E | []]]]; discriminate.
Qed.

(** C7 (amended): let the license flag hold a non-empty value that is
    not exactly one of MIT, BSD-3-Clause, None.  A run that gets as far as
    the license (the project is not initialized yet, the directory check is
    passed, the author is known) logs "unknown license" and exits with
    status 1, having done nothing but talk; and whatever the run meets
    before, it never completes and leaves the file system and the durable
    store as they were.  Conversely a flag value that is one of the three
    passes the license step without a prompt, a read or any other effect. *)
Theorem C7_unknown_license `{Externals} (fuel : nat) (ord : rangeOrder) (w : World) :
  license w <> "" ->
  utils.Contains licenses (license w) = false ->
  (forall w1, untilLicense fuel w = Ret tt w1 ->
     Run fuel ord w = Exit 1%Z (emit (EvLog "unknown license") w1) /\ talk w w1)
  /\ ((forall a w', Run fuel ord w <> Ret a w') /\
      fs (final (Run fuel ord w)) = fs w /\
      store (final (Run fuel ord w)) = store w)
  /\ (forall s, utils.Contains licenses s = true <->
                s = "MIT" \/ s = "BSD-3-Clause" \/ s = "None")
  /\ (forall w0, utils.Contains licenses (license w0) = true ->
                 resolveLicense fuel w0 = Ret tt w0).
Proof.
  intros Hne Hc.
  assert (Hreach : forall w1, untilLicense fuel w = Ret tt w1 ->
            configure fuel w = Exit 1%Z (emit (EvLog "unknown license") w1)).
  { intros w1 H1. unfold configure. rewrite (bind_Ret _ _ _ _ _ H1).
    pose proof (sameFlags_untilLicense fuel w) as Hs. rewrite H1 in Hs.
    destruct Hs as (Hl & _ & _). simpl in Hl.
    apply bind_Exit. apply resolveLicense_invalid; rewrite Hl; assumption. }
  assert (Hnever : forall a w', configure fuel w <> Ret a w').
  { intros a w'. destruct (untilLicense fuel w) as [[] w1 | c w1 | w1 | w1] eqn:H1.
    - rewrite (Hreach w1 eq_refl). discriminate.
    - unfold configure. rewrite (bind_Exit _ _ _ _ _ H1). discriminate.
    - unfold configure, bind at 1. rewrite H1. discriminate.
    - unfold configure, bind at 1. rewrite H1. discriminate. }
  split; [| split; [| split]].
  - intros w1 H1. split.
    + unfold Run. apply bind_Exit. apply Hreach. exact H1.
    + pose proof (talk_untilLicense fuel w) as Ht. rewrite H1 in Ht. exact Ht.
  - destruct (bind_stops (configure fuel)
                (fun _ => log_Println "Creating project skeleton..." ;;;
                          orFatal (createSkeleton ord) ;;;
                          a <- gets author ;;
                          l <- gets license ;;
                          orFatal (writeLicense a l) ;;;
                          log_Println "Initializing git repository..." ;;;
                          orFatal initRepo) w Hnever) as [Hr Hf].
    fold (Run fuel ord) in Hr, Hf.
    split; [exact Hr |]. rewrite Hf.
    destruct (talk_configure fuel w) as (Hfs & Hst & _). split; assumption.
  - apply Contains_licenses.
  - intros w0. apply resolveLicense_valid.
Qed.

Lemma C7_unknown_license_witness :
  license worldFoo <> "" /\
  utils.Contains licenses (license worldFoo) = false /\
  @Run sampleExternals 3 listOrder worldFoo =
    Exit 1%Z (emit (EvLog "unknown license")
                (emit (EvViperSet "ProjectRoot" "/home/ada/proj")
                   (set_viper [("ProjectRoot", "/home/ada/proj")] worldFoo))).
Proof.
  assert (Hne : license worldFoo <> "") by discriminate.
  assert (Hc : utils.Contains licenses (license worldFoo) = false) by reflexivity.
  split; [exact Hne |]. split; [exact Hc |].
  apply (proj1 (@C7_unknown_license sampleExternals 3 listOrder worldFoo Hne Hc)).
  vm_compute. reflexivity.
Defined.

(** C8 as stated fails: with [--non-interactive] and no
    license flag in a project that is already initialized, the error is the
    one of the initialization gate. *)
Lemma C8_counterexample :
  nonInteractive worldInitializedNonInteractive = true /\
  license worldInitializedNonInteractive = "" /\
  @Run sampleExternals 3 listOrder worldInitializedNonInteractive =
    Exit 1%Z (emit (EvLog "Project has already been initialized")
                worldInitializedNonInteractive) /\
  "Project has already been initialized" <> inputRequired.
Proof.
  split; [reflexivity |]. split; [reflexivity |]. split; [| discriminate].
  vm_compute. reflexivity.
Qed.

(** C8 (amended): in non-interactive mode every call of getInput logs
    the input-required error and exits with status 1 without reading; and a
    run with [--non-interactive] and no license flag, in a project that is
    not initialized yet and whose directory can be listed, exits with status
    1 on that error, having only talked: the file system and the durable
    store are untouched, so no directory of the skeleton exists. *)
Theorem C8_non_interactive `{Externals} (fuel : nat) (ord : rangeOrder) (w : World) :
  nonInteractive w = true ->
  getInput w = Exit 1%Z (emit (EvLog inputRequired) w)
  /\ (license w = "" ->
      default "" (viper w !! "ProjectRoot") = "" ->
      listable w ->
      (0 < fuel)%nat ->
      exists w',
        Run fuel ord w = Exit 1%Z w' /\
        (exists evs, trace w' = trace w ++ evs ++ [EvLog inputRequired] /\
                     forallb quiet evs = true) /\
        fs w' = fs w /\ store w' = store w).
Proof.
  intros Hni. split; [apply getInput_nonInteractive; exact Hni |].
  intros Hlic Hroot Hls Hfuel.
  destruct fuel as [| f]; [lia |].
  assert (Hc : exists w' evs, configure (S f) w = Exit 1%Z w' /\
                 trace w' = trace w ++ evs ++ [EvLog inputRequired]).
  { unfold configure.
    destruct (untilLicense_nonInteractive f w Hni Hroot Hls)
      as [[w1 H1] | (w' & evs & H1 & Ht)].
    - rewrite (bind_Ret _ _ _ _ _ H1).
      pose proof (talk_untilLicense (S f) w) as Ht. rewrite H1 in Ht.
      pose proof (sameFlags_untilLicense (S f) w) as Hs. rewrite H1 in Hs.
      destruct Hs as (Hl & _ & Hn). simpl in Hl, Hn.
      destruct Ht as (_ & _ & _ & _ & _ & e1 & Te & _). simpl in Te.
      destruct (resolveLicense_nonInteractive f w1) as [evs He];
        [congruence | congruence |].
      exists (emits (evs ++ [EvLog inputRequired]) w1), (e1 ++ evs). split.
      + apply bind_Exit. exact He.
      + rewrite trace_emits, Te, <- !app_assoc. reflexivity.
    - exists w', evs. split; [apply bind_Exit; exact H1 | exact Ht]. }
  destruct Hc as (w' & evs & Hc & Ht). exists w'.
  split; [unfold Run; apply bind_Exit; exact Hc |].
  pose proof (talk_configure (S f) w) as Hk. rewrite Hc in Hk.
  destruct Hk as (Hfs & Hst & _ & _ & _ & e & Te & Qe). simpl in *.
  split; [| split; assumption].
  exists evs. split; [exact Ht |].
  rewrite Ht in Te. apply app_inv_head in Te. subst e.
  rewrite forallb_app in Qe. apply andb_true_iff in Qe. tauto.
Qed.

Lemma C8_non_interactive_witness :
  nonInteractive worldNoLicenseNonInteractive = true /\
  license worldNoLicenseNonInteractive = "" /\
  default "" (viper worldNoLicenseNonInteractive !! "ProjectRoot") = "" /\
  listable worldNoLicenseNonInteractive /\
  (0 < 1)%nat /\
  exists w',
    @Run sampleExternals 1 listOrder worldNoLicenseNonInteractive = Exit 1%Z w' /\
    fs w' = fs worldNoLicenseNonInteractive.
Proof.
  assert (Hni : nonInteractive worldNoLicenseNonInteractive = true) by reflexivity.
  assert (Hlic : license worldNoLicenseNonInteractive = "") by reflexivity.
  assert (Hroot : default "" (viper worldNoLicenseNonInteractive !! "ProjectRoot") = "")
    by reflexivity.
  assert (Hls : listable worldNoLicenseNonInteractive) by reflexivity.
  assert (Hfuel : (0 < 1)%nat) by lia.
  repeat (split; [assumption |]).
  destruct (proj2 (@C8_non_interactive sampleExternals 1 listOrder
                     worldNoLicenseNonInteractive Hni) Hlic Hroot Hls Hfuel)
    as (w' & Hr & _ & Hfs & _).
  exists w'. split; assumption.
Defined.

(** ** The prompt loops *)

Lemma getInput_interactive `{Externals} (w : World) :
  nonInteractive w = false ->
  getInput w =
    Ret (Chomp (stdin w (reads w))) (emit EvRead (set_reads (S (reads w)) w)).
Proof.
  intros Hni. unfold getInput. msimpl. rewrite Hni. reflexivity.
Qed.

(** One iteration of the license loop in interactive mode. *)
Lemma licenseLoop_step `{Externals} (c : string) (fuel : nat) (w : World) :
  nonInteractive w = false ->
  licenseLoop c (S fuel) w =
    let w1 := prompted ("Choose " +:+ c +:+ ": ") w in
    match strconv.Atoi (Chomp (stdin w (reads w))) with
    | Some choice =>
        if (0 <? choice)%Z && (choice <=? Z.of_nat (length licenses))%Z then
          match licenses !! Z.to_nat (choice - 1) with
          | Some l => Ret tt (set_license l w1)
          | None => Panic w1
          end
        else licenseLoop c fuel w1
    | None => licenseLoop c fuel w1
    end.
Proof.
  intros Hni. simpl licenseLoop. unfold bind at 1. unfold fmt_Print, modify.
  unfold bind at 1. rewrite getInput_interactive by exact Hni.
  cbn [stdin reads emit]. unfold prompted.
  destruct (strconv.Atoi _) as [choice |]; [| reflexivity].
  destruct (_ && _); [| reflexivity].
  destruct (licenses !! _); reflexivity.
Qed.

Lemma chosen_now `{Externals} (w : World) :
  chosen w 0 <->
  exists k, strconv.Atoi (Chomp (stdin w (reads w))) = Some k /\
            ((0 <? k)%Z && (k <=? Z.of_nat (length licenses))%Z = true).
Proof.
  unfold chosen. rewrite Nat.add_0_r.
  split; intros [k [Ha Hk]]; exists k; (split; [exact Ha |]).
  - apply andb_true_iff. split; [apply Z.ltb_lt | apply Z.leb_le]; lia.
  - apply andb_true_iff in Hk as [H1 H2].
    apply Z.ltb_lt in H1. apply Z.leb_le in H2. lia.
Qed.

Lemma chosen_later `{Externals} (p : string) (w : World) (n : nat) :
  chosen (prompted p w) n <-> chosen w (S n).
Proof.
  unfold chosen, prompted. cbn [stdin reads emit set_reads].
  replace (S (reads w) + n)%nat with (reads w + S n)%nat by lia. reflexivity.
Qed.

Lemma licenses_lookup (k : Z) :
  (1 <= k <= Z.of_nat (length licenses))%Z ->
  exists l, licenses !! Z.to_nat (k - 1) = Some l.
Proof.
  intros Hk. apply lookup_lt_is_Some. simpl in *. lia.
Qed.

(** If the loop returns, some line read was a valid choice. *)
Lemma licenseLoop_returns `{Externals} (c : string) (fuel : nat) (w w' : World) :
  nonInteractive w = false ->
  licenseLoop c fuel w = Ret tt w' -> exists n, chosen w n.
Proof.
  revert w. induction fuel as [| fuel IH]; intros w Hni Hr; [discriminate |].
  rewrite licenseLoop_step in Hr by exact Hni. cbv zeta in Hr.
  destruct (strconv.Atoi (Chomp (stdin w (reads w)))) as [k |] eqn:Ha.
  - destruct ((0 <? k)%Z && (k <=? Z.of_nat (length licenses))%Z) eqn:Hk.
    + exists 0. apply chosen_now. exists k. split; assumption.
    + apply IH in Hr; [| exact Hni]. destruct Hr as [n Hn].
      exists (S n). apply chosen_later in Hn. exact Hn.
  - apply IH in Hr; [| exact Hni]. destruct Hr as [n Hn].
    exists (S n). apply chosen_later in Hn. exact Hn.
Qed.

(** If the [n]-th line is a valid choice, [n+1] iterations are enough. *)
Lemma licenseLoop_chosen `{Externals} (c : string) (n : nat) (w : World) :
  nonInteractive w = false ->
  chosen w n -> exists w', licenseLoop c (S n) w = Ret tt w'.
Proof.
  revert w. induction n as [| n IH]; intros w Hni Hn.
  - rewrite licenseLoop_step by exact Hni. cbv zeta.
    apply chosen_now in Hn as [k [Ha Hk]]. rewrite Ha, Hk.
    destruct (licenses_lookup k) as [l Hl].
    { apply andb_true_iff in Hk as [H1 H2].
      apply Z.ltb_lt in H1. apply Z.leb_le in H2. lia. }
    rewrite Hl. eexists. reflexivity.
  - rewrite licenseLoop_step by exact Hni. cbv zeta.
    apply chosen_later with (p := "Choose " +:+ c +:+ ": ") in Hn.
    destruct (IH (prompted ("Choose " +:+ c +:+ ": ") w) Hni Hn) as [w' Hw'].
    destruct (strconv.Atoi (Chomp (stdin w (reads w)))) as [k |] eqn:Ha.
    + destruct ((0 <? k)%Z && (k <=? Z.of_nat (length licenses))%Z) eqn:Hk.
      * destruct (licenses_lookup k) as [l Hl].
        { apply andb_true_iff in Hk as [H1 H2].
          apply Z.ltb_lt in H1. apply Z.leb_le in H2. lia. }
        rewrite Hl. eexists. reflexivity.
      * exists w'. exact Hw'.
    + exists w'. exact Hw'.
Qed.

(** On an exhausted input the loop prompts and reads as long as it is
    given fuel. *)
Lemma licenseLoop_eof `{Externals} (c : string) (fuel : nat) (w : World) :
  nonInteractive w = false ->
  Chomp "" = "" ->
  (forall n, stdin w (reads w + n) = "") ->
  licenseLoop c fuel w =
    Running (Nat.iter fuel (prompted ("Choose " +:+ c +:+ ": ")) w).
Proof.
  intros Hni Hchomp. revert w Hni.
  induction fuel as [| fuel IH]; intros w Hni Heof; [reflexivity |].
  rewrite licenseLoop_step by exact Hni. cbv zeta.
  pose proof (Heof 0) as H0. rewrite Nat.add_0_r in H0. rewrite H0, Hchomp.
  change (strconv.Atoi "") with (@None Z). cbv iota.
  rewrite IH.
  - rewrite Nat.iter_succ_r. reflexivity.
  - exact Hni.
  - intros n. unfold prompted. cbn [stdin reads emit set_reads].
    replace (S (reads w) + n)%nat with (reads w + S n)%nat by lia. apply Heof.
Qed.

(** An empty answer at the language prompt picks the first language. *)
Lemma languageLoop_default `{Externals} (c : string) (fuel : nat) (w : World) (l : string) :
  nonInteractive w = false ->
  Chomp (stdin w (reads w)) = "" ->
  Supported !! 0 = Some l ->
  languageLoop c (S fuel) w =
    Ret tt (set_language l (prompted ("Choose " +:+ c +:+ " [1]: ") w)).
Proof.
  intros Hni Hin Hl. simpl languageLoop. unfold bind at 1. unfold fmt_Print, modify.
  unfold bind at 1. rewrite getInput_interactive by exact Hni.
  cbn [stdin reads emit]. rewrite Hin. cbn [String.eqb]. rewrite Hl. reflexivity.
Qed.

(** In interactive mode the loop does nothing but return or go on. *)
Lemma licenseLoop_outcomes `{Externals} (c : string) (fuel : nat) (w : World) :
  nonInteractive w = false ->
  (exists w', licenseLoop c fuel w = Ret tt w') \/
  (exists w', licenseLoop c fuel w = Running w').
Proof.
  revert w. induction fuel as [| fuel IH]; intros w Hni.
  { right. exists w. reflexivity. }
  rewrite licenseLoop_step by exact Hni. cbv zeta.
  destruct (strconv.Atoi (Chomp (stdin w (reads w)))) as [k |] eqn:Ha;
    [| apply IH; exact Hni].
  destruct ((0 <? k)%Z && (k <=? Z.of_nat (length licenses))%Z) eqn:Hk;
    [| apply IH; exact Hni].
  destruct (licenses_lookup k) as [l Hl].
  { apply andb_true_iff in Hk as [H1 H2].
    apply Z.ltb_lt in H1. apply Z.leb_le in H2. lia. }
  rewrite Hl. left. eexists. reflexivity.
Qed.

(** C10: in interactive mode the license prompt loop returns, for
    some number of iterations, exactly when some line read from now on is,
    once trimmed, a decimal integer between 1 and the number of licenses;
    short of that it is still prompting, it neither exits nor panics.  Where
    the trimmer maps the empty line to itself, an exhausted input (every
    read returns the empty string, the read error being dropped) keeps the
    loop prompting and reading for as many iterations as it is given, while
    the language loop takes the same empty answer as the choice of the first
    supported language and returns at once. *)
Theorem C10_license_loop `{Externals} (c : string) (w : World) :
  nonInteractive w = false ->
  ((exists fuel w', licenseLoop c fuel w = Ret tt w') <-> (exists n, chosen w n))
  /\ (forall fuel,
        (exists w', licenseLoop c fuel w = Ret tt w') \/
        (exists w', licenseLoop c fuel w = Running w'))
  /\ (Chomp "" = "" -> (forall n, stdin w (reads w + n) = "") ->
      forall fuel,
        licenseLoop c fuel w =
          Running (Nat.iter fuel (prompted ("Choose " +:+ c +:+ ": ")) w))
  /\ (Chomp "" = "" -> stdin w (reads w) = "" ->
      forall l fuel, Supported !! 0 = Some l ->
        languageLoop c (S fuel) w =
          Ret tt (set_language l (prompted ("Choose " +:+ c +:+ " [1]: ") w)))
  /\ (license w = "" ->
      forall fuel,
        resolveLicense fuel w = licenseLoop "1, 2, 3" fuel (emits licenseMenu w)).
Proof.
  intros Hni. split; [| split; [| split; [| split]]].
  - split.
    + intros (fuel & w' & Hr). eapply licenseLoop_returns; eassumption.
    + intros [n Hn]. exists (S n). apply licenseLoop_chosen; assumption.
  - intros fuel. apply licenseLoop_outcomes. exact Hni.
  - intros Hchomp Heof fuel. apply licenseLoop_eof; assumption.
  - intros Hchomp Hin l fuel Hl. apply languageLoop_default; [exact Hni | | exact Hl].
    rewrite Hin. exact Hchomp.
  - intros Hlic fuel. apply resolveLicense_prompt. exact Hlic.
Qed.

Lemma C10_license_loop_witness :
  nonInteractive worldInteractiveTwo = false /\
  (exists fuel w',
     @licenseLoop sampleExternals "1, 2, 3" fuel worldInteractiveTwo = Ret tt w') /\
  @licenseLoop sampleExternals "1, 2, 3" 4 worldInteractiveEOF =
    Running (Nat.iter 4 (prompted "Choose 1, 2, 3: ") worldInteractiveEOF).
Proof.
  assert (Hni : nonInteractive worldInteractiveTwo = false) by reflexivity.
  assert (Hni' : nonInteractive worldInteractiveEOF = false) by reflexivity.
  split; [exact Hni |]. split.
  - apply (proj2 (proj1 (@C10_license_loop sampleExternals "1, 2, 3"
                           worldInteractiveTwo Hni))).
    exists 1, 2%Z. split; [reflexivity | simpl; lia].
  - apply (proj1 (proj2 (proj2 (@C10_license_loop sampleExternals "1, 2, 3"
                                  worldInteractiveEOF Hni'))));
      [reflexivity | intros n; reflexivity].
Defined.

(** ** path/filepath: cleaning keeps a rooted path rooted, and ends *)

Lemma backtrack_rooted (d : ascii) (x : list ascii) :
  exists y, filepath.backtrack 1 d (x ++ [filepath.Separator]) = y ++ [filepath.Separator].
Proof.
  revert d. induction x as [| c x IH]; intros d.
  - exists []. reflexivity.
  - cbn [app filepath.backtrack].
    destruct ((1 <? length (c :: x ++ [filepath.Separator]))%nat &&
              negb (filepath.IsPathSeparator d)).
    + apply IH.
    + exists (c :: x). reflexivity.
Qed.

Lemma copyElement_out (p o : list ascii) :
  exists pre, snd (filepath.copyElement p o) = pre ++ o.
Proof.
  revert o. induction p as [| c p IH]; intros o; simpl.
  - exists []. reflexivity.
  - destruct (filepath.IsPathSeparator c).
    + exists []. reflexivity.
    + destruct (IH (c :: o)) as [pre Hp]. exists (pre ++ [c]).
      rewrite Hp, <- app_assoc. reflexivity.
Qed.

Lemma copyElement_rest (p o : list ascii) :
  (length (fst (filepath.copyElement p o)) <= length p)%nat.
Proof.
  revert o. induction p as [| c p IH]; intros o; simpl; [lia |].
  destruct (filepath.IsPathSeparator c); simpl; [lia |].
  specialize (IH (c :: o)). lia.
Qed.

Lemma cleanStep_rooted (st : filepath.cleanState) :
  rootedState st -> rootedState (filepath.cleanStep true st).
Proof.
  intros [Hdd [x Hx]]. unfold filepath.cleanStep.
  destruct (filepath.rest st) as [| c p1]; [split; eauto |].
  destruct (filepath.IsPathSeparator c); [split; eauto |].
  destruct (_ && _); [split; eauto |].
  destruct (_ && _).
  - rewrite Hdd, Hx.
    destruct (1 <? length (x ++ [filepath.Separator]))%nat eqn:Hlen.
    + destruct x as [| d x']; [discriminate |].
      cbn [app]. destruct (backtrack_rooted d x') as [y Hy].
      split; [reflexivity |]. exists y. exact Hy.
    + cbn [negb]. split; [reflexivity |]. exists x. reflexivity.
  - cbv zeta.
    match goal with
    | |- context [filepath.copyElement _ ?o] => remember o as o1 eqn:Ho1
    end.
    assert (Hx1 : exists x1, o1 = x1 ++ [filepath.Separator]).
    { subst o1. rewrite Hx.
      destruct (_ || _); [exists (filepath.Separator :: x) | exists x]; reflexivity. }
    destruct Hx1 as [x1 Hx1].
    destruct (copyElement_out (c :: p1) o1) as [pre Hp].
    destruct (filepath.copyElement (c :: p1) o1) as [p' o2].
    cbn [snd] in Hp. split; [exact Hdd |]. cbn [filepath.out].
    exists (pre ++ x1). rewrite Hp, Hx1, <- app_assoc. reflexivity.
Qed.

Lemma cleanLoop_rooted (fuel : nat) (st : filepath.cleanState) :
  rootedState st -> rootedState (filepath.cleanLoop fuel true st).
Proof.
  revert st. induction fuel as [| fuel IH]; intros st Hst; simpl; [exact Hst |].
  destruct (filepath.rest st); [exact Hst |].
  apply IH, cleanStep_rooted, Hst.
Qed.

Lemma cleanStep_shrinks (rooted : bool) (st : filepath.cleanState) :
  filepath.rest st <> [] ->
  (length (filepath.rest (filepath.cleanStep rooted st)) < length (filepath.rest st))%nat.
Proof.
  intros Hne. unfold filepath.cleanStep.
  destruct (filepath.rest st) as [| c p1]; [contradiction |].
  destruct (filepath.IsPathSeparator c) eqn:Hsep; [simpl; lia |].
  destruct (_ && _); [simpl; lia |].
  destruct (_ && _).
  - assert (length (tl p1) <= length p1)%nat by (destruct p1; simpl; lia).
    cbv zeta.
    destruct (_ <? _)%nat; [destruct (filepath.out st) |];
      [| | destruct (negb rooted)]; cbn [filepath.rest length]; lia.
  - destruct (filepath.copyElement (c :: p1) _) as [p' o2] eqn:Hc.
    cbn [filepath.rest]. cbn [filepath.copyElement] in Hc. rewrite Hsep in Hc.
    match type of Hc with
    | filepath.copyElement ?p ?o = _ => pose proof (copyElement_rest p o) as Hl
    end.
    rewrite Hc in Hl. cbn [fst length] in *. lia.
Qed.

(** The loop of [Clean] has read the whole path when its fuel is used up. *)
Lemma cleanLoop_done (fuel : nat) (rooted : bool) (st : filepath.cleanState) :
  (length (filepath.rest st) <= fuel)%nat ->
  filepath.rest (filepath.cleanLoop fuel rooted st) = [].
Proof.
  revert st. induction fuel as [| fuel IH]; intros st Hlen; simpl.
  - destruct (filepath.rest st); [reflexivity | simpl in Hlen; lia].
  - destruct (filepath.rest st) as [| c p] eqn:Hr; [exact Hr |].
    apply IH. pose proof (cleanStep_shrinks rooted st) as Hs.
    rewrite Hr in Hs. specialize (Hs ltac:(discriminate)).
    cbn [length] in Hs, Hlen. lia.
Qed.

Lemma Clean_abs (s : string) :
  filepath.IsAbs s = true -> filepath.IsAbs (filepath.Clean s) = true.
Proof.
  destruct s as [| c s']; [discriminate |]. cbn [filepath.IsAbs]. intros Hc.
  unfold filepath.Clean. cbn [list_ascii_of_string]. rewrite Hc.
  destruct (cleanLoop_rooted (length (c :: list_ascii_of_string s'))
              (filepath.CleanState (list_ascii_of_string s') [filepath.Separator] 1))
    as [_ [x Hx]].
  { split; [reflexivity |]. exists []. reflexivity. }
  rewrite Hx. destruct (x ++ [filepath.Separator]) as [| a o] eqn:Ho.
  { destruct x; discriminate. }
  rewrite <- Ho, rev_app_distr. reflexivity.
Qed.

Lemma Join_abs (root name : string) :
  filepath.IsAbs root = true ->
  filepath.IsAbs (filepath.Join [root; name]) = true.
Proof.
  intros Habs. destruct root as [| c r]; [discriminate |].
  cbn [filepath.Join String.eqb]. apply Clean_abs. exact Habs.
Qed.

(** [os.Getwd] returns an absolute path. *)
Lemma pathString_abs (p : path) : filepath.IsAbs (pathString p) = true.
Proof. destruct p as [| n [| n' p]]; reflexivity. Qed.

Lemma gitignore_key (language k : string) :
  k = "docker/Dockerfile" \/ k = "docker/docker-compose.yml" ->
  "gitignore/" +:+ language <> k.
Proof. intros [-> | ->]; discriminate. Qed.

Lemma files_lookup `{Externals} (projectRoot language k : string) :
  files projectRoot language !! k =
    match default [] (InitFiles !! language) !! k with
    | Some dest => Some dest
    | None => universalFiles projectRoot language !! k
    end.
Proof. unfold files. apply am_lookup_assign. Qed.

(** ** C5 *)

(** C5 as stated fails: the destination of the
    ignore-rules entry is the relative name [.gitignore]; it is not absolute
    and it is not the join of the project root with that name. *)
Lemma C5_counterexample :
  @files sampleExternals "/home/ada/proj" "python" !! "gitignore/python"
    = Some ".gitignore" /\
  filepath.IsAbs ".gitignore" = false /\
  ".gitignore" <> filepath.Join ["/home/ada/proj"; ".gitignore"].
Proof.
  split; [vm_compute; reflexivity |]. split; [reflexivity |].
  vm_compute. discriminate.
Qed.

(** C5 (amended): in the map built by createSkeleton the container
    definition and the orchestration file go to the project root joined with
    the fixed names [Dockerfile] and [docker-compose.yml] (what package paths
    computes from the root), which are absolute paths whenever the root is,
    as the root [os.Getwd] returns always is; the ignore-rules entry goes to
    the fixed relative name [.gitignore], which is not absolute; and the
    entries of the language's own table are laid over these, key by key. *)
Theorem C5_destinations `{Externals} (projectRoot language : string) :
  universalFiles projectRoot language !! "docker/Dockerfile"
    = Some (paths.Dockerfile projectRoot)
  /\ universalFiles projectRoot language !! "docker/docker-compose.yml"
    = Some (paths.DockerCompose projectRoot)
  /\ universalFiles projectRoot language !! ("gitignore/" +:+ language)
    = Some ".gitignore"
  /\ filepath.IsAbs ".gitignore" = false
  /\ (filepath.IsAbs projectRoot = true ->
      filepath.IsAbs (paths.Dockerfile projectRoot) = true /\
      filepath.IsAbs (paths.DockerCompose projectRoot) = true)
  /\ (forall p : path, filepath.IsAbs (pathString p) = true)
  /\ (forall k : string,
        files projectRoot language !! k =
          match default [] (InitFiles !! language) !! k with
          | Some dest => Some dest
          | None => universalFiles projectRoot language !! k
          end).
Proof.
  unfold universalFiles, paths.Dockerfile, paths.DockerCompose,
    paths.Dockerfile0, paths.DockerCompose0.
  split; [| split; [| split; [| split; [| split; [| split]]]]].
  - rewrite am_lookup_insert_ne by discriminate. apply am_lookup_insert_eq.
  - apply am_lookup_insert_eq.
  - rewrite !am_lookup_insert_ne by (apply not_eq_sym, gitignore_key; auto).
    apply am_lookup_insert_eq.
  - reflexivity.
  - intros Habs. split; apply Join_abs; exact Habs.
  - apply pathString_abs.
  - intros k. apply files_lookup.
Qed.

Lemma C5_destinations_witness :
  filepath.IsAbs "/home/ada/proj" = true /\
  filepath.IsAbs (paths.Dockerfile "/home/ada/proj") = true /\
  filepath.IsAbs (paths.DockerCompose "/home/ada/proj") = true.
Proof.
  assert (Habs : filepath.IsAbs "/home/ada/proj" = true) by reflexivity.
  split; [exact Habs |].
  apply (proj1 (proj2 (proj2 (proj2 (proj2
           (@C5_destinations sampleExternals "/home/ada/proj" "python")))))).
  exact Habs.
Defined.

(** ** Writing files *)

Lemma writeFile_inv (c : path) (s content : string) (f f' : FS) :
  writeFile c s content f = (f', None) ->
  f' = <[resolve c s := File content]> f /\
  resolve c s <> [] /\
  isDir f (removelast (resolve c s)) = true /\
  f !! resolve c s <> Some Dir.
Proof.
  unfold writeFile. destruct (resolve c s) as [| n q] eqn:Hp; [discriminate |].
  destruct (isDir f (removelast (n :: q))) eqn:Hd; [| discriminate].
  cbn [negb]. destruct (f !! (n :: q)) as [[| c0] |] eqn:Hl; try discriminate;
    intros Hw; injection Hw as <-; repeat split; try discriminate; reflexivity.
Qed.

Lemma writeFile_failed (c : path) (s content : string) (f f' : FS) e :
  writeFile c s content f = (f', Some e) -> f' = f.
Proof.
  unfold writeFile. destruct (resolve c s) as [| n q]; [congruence |].
  destruct (negb _); [congruence |].
  destruct (f !! (n :: q)) as [[| c0] |]; congruence.
Qed.

Lemma writeFile_ok (c : path) (s content : string) (f : FS) :
  resolve c s <> [] ->
  isDir f (removelast (resolve c s)) = true ->
  f !! resolve c s <> Some Dir ->
  writeFile c s content f = (<[resolve c s := File content]> f, None).
Proof.
  intros Hne Hd Hl. unfold writeFile.
  destruct (resolve c s) as [| n q] eqn:Hp; [contradiction |].
  rewrite Hd. cbn [negb].
  destruct (f !! (n :: q)) as [[| c0] |]; [contradiction | reflexivity | reflexivity].
Qed.

Lemma resolve_LICENSE (c : path) : resolve c "LICENSE" = c ++ ["LICENSE"].
Proof. reflexivity. Qed.

Lemma append_assoc (a b c : string) : (a +:+ b) +:+ c = a +:+ b +:+ c.
Proof.
  induction a as [| x a IH]; [reflexivity |].
  change (String x ((a +:+ b) +:+ c) = String x (a +:+ b +:+ c)).
  rewrite IH. reflexivity.
Qed.

(** The years 1000 to 9999 are written with four digits. *)
Lemma Itoa_year (y : Z) :
  (1000 <= y <= 9999)%Z -> String.length (strconv.Itoa y) = 4.
Proof.
  intros Hy.
  assert (Hall : forallb (fun n => (String.length (strconv.Itoa (Z.of_nat n)) =? 4)%nat)
                   (seq (Z.to_nat 1000) (Z.to_nat 9000)) = true)
    by (vm_compute; reflexivity).
  rewrite forallb_forall in Hall.
  specialize (Hall (Z.to_nat y)). rewrite Z2Nat.id in Hall by lia.
  apply Nat.eqb_eq, Hall, in_seq. lia.
Qed.

(** ** C6 *)

(** C6: the License Writer always returns.  For the license "None" it
    returns success and leaves the world as it is.  For any other license it
    is one call of the template writer, on the template named "licenses/"
    followed by the license name, with the record of the current year in
    decimal and the author, and with the fixed destination [LICENSE]: when
    the rendering succeeds and nothing is in the way, the file [LICENSE] of
    the working directory holds the rendering; and when it reports success,
    that file holds the rendering of that record.  A year from 1000 to 9999
    is written with four digits; and for a template that carries the year
    and the author of its record, the file contains both. *)
Theorem C6_writeLicense `{Externals} (author license : string) (w : World) :
  (forall y a content,
     render ("licenses/" +:+ license) (LicenseData y a) = Some content ->
     contains y content /\ contains a content) ->
  (license = "None" -> writeLicense author license w = Ret None w)
  /\ (license <> "None" ->
      writeLicense author license w =
        templates.Write ("licenses/" +:+ license) "LICENSE"
          (LicenseData (strconv.Itoa (year w)) author) w)
  /\ (exists err w', writeLicense author license w = Ret err w')
  /\ (license <> "None" ->
      forall content,
        render ("licenses/" +:+ license)
          (LicenseData (strconv.Itoa (year w)) author) = Some content ->
        isDir (fs w) (cwd w) = true ->
        fs w !! (cwd w ++ ["LICENSE"]) <> Some Dir ->
        writeLicense author license w =
          Ret None (emit (EvTemplate ("licenses/" +:+ license) "LICENSE")
                      (set_fs (<[cwd w ++ ["LICENSE"] := File content]> (fs w)) w)))
  /\ (license <> "None" ->
      forall w', writeLicense author license w = Ret None w' ->
        exists content,
          render ("licenses/" +:+ license)
            (LicenseData (strconv.Itoa (year w)) author) = Some content /\
          fs w' !! (cwd w ++ ["LICENSE"]) = Some (File content) /\
          contains author content /\
          contains (strconv.Itoa (year w)) content)
  /\ ((1000 <= year w <= 9999)%Z -> String.length (strconv.Itoa (year w)) = 4).
Proof.
  intros Hembed.
  assert (Hother : license <> "None" ->
            writeLicense author license w =
              templates.Write ("licenses/" +:+ license) "LICENSE"
                (LicenseData (strconv.Itoa (year w)) author) w).
  { intros Hl. unfold writeLicense.
    destruct (String.eqb_spec license "None") as [E | _]; [contradiction |].
    reflexivity. }
  assert (Hnone : license = "None" -> writeLicense author license w = Ret None w).
  { intros ->. reflexivity. }
  split; [exact Hnone |]. split; [exact Hother |].
  split; [| split; [| split]].
  - destruct (String.eqb_spec license "None") as [E | E].
    + exists None, w. apply Hnone, E.
    + rewrite (Hother E). unfold templates.Write.
      destruct (render _ _); [| eauto].
      destruct (writeFile _ _ _ _). eauto.
  - intros Hl content Hr Hd Hfree. rewrite (Hother Hl).
    unfold templates.Write. rewrite Hr.
    rewrite writeFile_ok; rewrite ?resolve_LICENSE, ?removelast_last;
      try assumption; [reflexivity |].
    destruct (cwd w); discriminate.
  - intros Hl w' Hw. rewrite (Hother Hl) in Hw. unfold templates.Write in Hw.
    destruct (render _ _) as [content |] eqn:Hr; [| discriminate].
    destruct (writeFile _ _ _ _) as [f' err] eqn:Hwf.
    injection Hw as -> <-.
    apply writeFile_inv in Hwf as (-> & _).
    destruct (Hembed _ _ _ Hr) as [Hy Ha].
    exists content. split; [reflexivity |].
    split; [rewrite resolve_LICENSE; apply am_lookup_insert_eq |].
    split; assumption.
  - apply Itoa_year.
Qed.

Lemma sampleRender_embeds (license y a content : string) :
  sampleRender ("licenses/" +:+ license) (LicenseData y a) = Some content ->
  contains y content /\ contains a content.
Proof.
  intros Hr. injection Hr as <-. split.
  - exists "Copyright (c) ", (" " +:+ a). reflexivity.
  - exists ("Copyright (c) " +:+ y +:+ " "), "".
    rewrite !append_assoc.
    replace (a +:+ "") with a; [reflexivity |].
    clear. induction a as [| x a IH]; [reflexivity |].
    change (String x a = String x (a +:+ "")). rewrite <- IH. reflexivity.
Qed.

Lemma C6_writeLicense_witness :
  (forall y a content,
     sampleRender ("licenses/" +:+ "MIT") (LicenseData y a) = Some content ->
     contains y content /\ contains a content) /\
  @writeLicense sampleExternals "Ada" "MIT" worldLicense =
    Ret None (emit (EvTemplate "licenses/MIT" "LICENSE")
                (set_fs (<[home ++ ["LICENSE"] := File "Copyright (c) 2026 Ada"]>
                           emptyProject) worldLicense)).
Proof.
  assert (Hembed : forall y a content,
            sampleRender ("licenses/" +:+ "MIT") (LicenseData y a) = Some content ->
            contains y content /\ contains a content)
    by (intros y a content; apply sampleRender_embeds).
  split; [exact Hembed |].
  apply (proj1 (proj2 (proj2 (proj2
           (@C6_writeLicense sampleExternals "Ada" "MIT" worldLicense Hembed))))).
  - discriminate.
  - reflexivity.
  - reflexivity.
  - vm_compute. discriminate.
Defined.

(** ** The file system operations of the skeleton *)

Lemma mkdirChain_subseteq (d : path) (t : list string) (f f' : FS) e :
  mkdirChain d t f = (f', e) -> fsSub f f'.
Proof.
  revert d f. induction t as [| n t IH]; intros d f; simpl.
  - intros Heq. injection Heq as <- _. apply fsSub_refl.
  - destruct (f !! (d ++ [n])) as [[| x] |] eqn:Hl.
    + apply IH.
    + intros Heq. injection Heq as <- _. apply fsSub_refl.
    + intros Hc. apply IH in Hc. eapply fsSub_trans; [| exact Hc].
      apply fs_insert_sub. exact Hl.
Qed.

Lemma mkdirChain_dirs (d : path) (t : list string) (f f' : FS) :
  mkdirChain d t f = (f', None) -> chainDirs f' d t.
Proof.
  revert d f. induction t as [| n t IH]; intros d f; simpl; [auto |].
  destruct (f !! (d ++ [n])) as [[| x] |] eqn:Hl.
  - intros Hc. split; [| eapply IH; exact Hc].
    apply mkdirChain_subseteq in Hc. apply Hc. exact Hl.
  - discriminate.
  - intros Hc. split; [| eapply IH; exact Hc].
    apply mkdirChain_subseteq in Hc. apply Hc.
    apply am_lookup_insert_eq.
Qed.

Lemma mkdirChain_settled (d : path) (t : list string) (f : FS) :
  chainDirs f d t -> mkdirChain d t f = (f, None).
Proof.
  revert d. induction t as [| n t IH]; intros d; simpl; [reflexivity |].
  intros [Hl Ht]. rewrite Hl. apply IH, Ht.
Qed.

Lemma chainDirs_kept (f f' : FS) (d : path) (t : list string) :
  dirsKept f f' -> chainDirs f d t -> chainDirs f' d t.
Proof.
  intros Hk. revert d. induction t as [| n t IH]; intros d; simpl; [auto |].
  intros [Hl Ht]. split; [apply Hk, Hl | apply IH, Ht].
Qed.

Lemma isDir_kept (f f' : FS) (p : path) :
  dirsKept f f' -> isDir f p = true -> isDir f' p = true.
Proof.
  intros Hk. unfold isDir. destruct p as [| n q]; [reflexivity |].
  destruct (f !! (n :: q)) as [[| x] |] eqn:Hl; try discriminate.
  rewrite (Hk _ Hl). reflexivity.
Qed.

Lemma removelast_neq (p : path) : p <> [] -> removelast p <> p.
Proof.
  intros Hne Heq. pose proof (app_removelast_last "" Hne) as Hp.
  rewrite Heq in Hp. apply (f_equal (@length string)) in Hp.
  rewrite length_app in Hp. simpl in Hp. lia.
Qed.

Lemma writeFile_dirsKept (c : path) (s content : string) (f f' : FS) e :
  writeFile c s content f = (f', e) -> dirsKept f f'.
Proof.
  destruct e as [e |].
  - intros Hw. apply writeFile_failed in Hw as ->. intros q Hq. exact Hq.
  - intros Hw. apply writeFile_inv in Hw as (-> & _ & _ & Hl).
    intros q Hq. rewrite am_lookup_insert_ne; [exact Hq |].
    intros <-. contradiction.
Qed.

Lemma mkdirAll_dirsKept (c : path) (s : string) (f f' : FS) e :
  mkdirAll c s f = (f', e) -> dirsKept f f'.
Proof.
  unfold mkdirAll. destruct (_ && _).
  - intros Heq. injection Heq as <- _. intros q Hq. exact Hq.
  - destruct (mkdirChain [] (resolve c s) f) as [f1 [errno |]] eqn:Hc;
      intros Heq; injection Heq as <- _;
      apply mkdirChain_subseteq in Hc; intros q Hq;
      apply Hc; exact Hq.
Qed.

Lemma applyOp_dirsKept `{Externals} (c : path) (o : fsop) (f f' : FS) e :
  applyOp c o f = (f', e) -> dirsKept f f'.
Proof.
  destruct o as [s | s | src dest]; simpl.
  - apply mkdirAll_dirsKept.
  - apply writeFile_dirsKept.
  - destruct (render src NoData); [apply writeFile_dirsKept |].
    intros Heq. injection Heq as <- _. intros q Hq. exact Hq.
Qed.

Lemma holds_written (c : path) (s content : string) (f f' : FS) :
  writeFile c s content f = (f', None) -> holds c s content f'.
Proof.
  intros Hw. pose proof (writeFile_dirsKept _ _ _ _ _ _ Hw) as Hk.
  apply writeFile_inv in Hw as (-> & Hne & Hd & Hl).
  split; [exact Hne |]. split.
  - eapply isDir_kept; eassumption.
  - apply am_lookup_insert_eq.
Qed.

Lemma holds_settled (c : path) (s content : string) (f : FS) :
  holds c s content f -> writeFile c s content f = (f, None).
Proof.
  intros (Hne & Hd & Hl). rewrite writeFile_ok; try assumption.
  - rewrite am_insert_id by exact Hl. reflexivity.
  - rewrite Hl. discriminate.
Qed.

(** An operation that has succeeded has established its post-condition. *)
Lemma applyOp_post `{Externals} (c : path) (o : fsop) (f f' : FS) :
  applyOp c o f = (f', None) -> post c o f'.
Proof.
  destruct o as [s | s | src dest]; simpl.
  - intros Hm. pose proof (mkdirAll_dirsKept _ _ _ _ _ Hm) as Hk.
    unfold mkdirAll in Hm.
    destruct (negb (filepath.IsAbs s) && negb (isDir f c)) eqn:Hg; [discriminate |].
    destruct (mkdirChain [] (resolve c s) f) as [f1 [errno |]] eqn:Hc; [discriminate |].
    injection Hm as <-. split; [| eapply mkdirChain_dirs; exact Hc].
    destruct (filepath.IsAbs s); [left; reflexivity |].
    destruct (isDir f c) eqn:Hd; [| discriminate].
    right. eapply isDir_kept; eassumption.
  - apply holds_written.
  - destruct (render src NoData) as [content |]; [| discriminate].
    intros Hw. exists content. split; [reflexivity |].
    eapply holds_written; exact Hw.
Qed.

(** On a state where its post-condition holds an operation changes
    nothing and succeeds. *)
Lemma post_settled `{Externals} (c : path) (o : fsop) (f : FS) :
  post c o f -> applyOp c o f = (f, None).
Proof.
  destruct o as [s | s | src dest]; simpl.
  - intros [Hstart Hchain]. unfold mkdirAll.
    rewrite (mkdirChain_settled _ _ _ Hchain).
    destruct Hstart as [-> | ->]; [reflexivity |].
    rewrite andb_false_r. reflexivity.
  - apply holds_settled.
  - intros (content & -> & Hh). apply holds_settled, Hh.
Qed.

Lemma holds_persist `{Externals} (c : path) (s content : string) (o' : fsop)
    (f f' : FS) :
  holds c s content f ->
  applyOp c o' f = (f', None) ->
  (forall p y, written c o' = Some (p, y) -> p = resolve c s -> y = Some content) ->
  holds c s content f'.
Proof.
  intros (Hne & Hd & Hl) Ha Hcompat.
  pose proof (applyOp_dirsKept _ _ _ _ _ Ha) as Hk.
  split; [exact Hne |]. split; [eapply isDir_kept; eassumption |].
  destruct o' as [s' | s' | src' dest']; simpl in Ha.
  - unfold mkdirAll in Ha. destruct (_ && _); [discriminate |].
    destruct (mkdirChain [] (resolve c s') f) as [f1 [errno |]] eqn:Hc; [discriminate |].
    injection Ha as <-. apply mkdirChain_subseteq in Hc.
    apply Hc. exact Hl.
  - apply writeFile_inv in Ha as (-> & _).
    destruct (decide (resolve c s' = resolve c s)) as [E | E].
    + specialize (Hcompat _ _ eq_refl E). injection Hcompat as <-.
      rewrite E. apply am_lookup_insert_eq.
    + rewrite am_lookup_insert_ne by exact E. exact Hl.
  - simpl in Hcompat.
    destruct (render src' NoData) as [content' |] eqn:Hr; [| discriminate].
    apply writeFile_inv in Ha as (-> & _).
    destruct (decide (resolve c dest' = resolve c s)) as [E | E].
    + specialize (Hcompat _ _ eq_refl E). injection Hcompat as <-.
      rewrite E. apply am_lookup_insert_eq.
    + rewrite am_lookup_insert_ne by exact E. exact Hl.
Qed.

(** A post-condition survives every later operation that is compatible
    with the one that established it. *)
Lemma post_persist `{Externals} (c : path) (o o' : fsop) (f f' : FS) :
  post c o f ->
  applyOp c o' f = (f', None) ->
  compatible c o' o = true ->
  post c o f'.
Proof.
  intros Hp Ha Hc.
  pose proof (applyOp_dirsKept _ _ _ _ _ Ha) as Hk.
  destruct o as [s | s | src dest]; simpl in Hp |- *.
  - destruct Hp as [Hstart Hchain]. split.
    + destruct Hstart as [E | E]; [left; exact E |].
      right. eapply isDir_kept; eassumption.
    + eapply chainDirs_kept; eassumption.
  - eapply holds_persist; [exact Hp | exact Ha |].
    intros p y Hw Hpe. unfold compatible in Hc. rewrite Hw in Hc. simpl in Hc.
    destruct (decide (p = resolve c s)) as [_ | Hn]; [| contradiction].
    apply bool_decide_eq_true in Hc. exact Hc.
  - destruct Hp as (content & Hr & Hh). exists content. split; [exact Hr |].
    eapply holds_persist; [exact Hh | exact Ha |].
    intros p y Hw Hpe. unfold compatible in Hc. rewrite Hw in Hc. simpl in Hc.
    destruct (decide (p = resolve c dest)) as [_ | Hn]; [| contradiction].
    apply bool_decide_eq_true in Hc. rewrite Hc. exact Hr.
Qed.

Lemma runOps_app `{Externals} (c : path) (a b : list fsop) (f : FS) :
  runOps c (a ++ b) f =
    match runOps c a f with
    | (f', None) => runOps c b f'
    | (f', Some e) => (f', Some e)
    end.
Proof.
  revert f. induction a as [| o a IH]; intros f; simpl; [reflexivity |].
  destruct (applyOp c o f) as [f1 [e |]]; [reflexivity | apply IH].
Qed.

Lemma runOps_persist `{Externals} (c : path) (o : fsop) (ops : list fsop)
    (f F : FS) :
  post c o f ->
  runOps c ops f = (F, None) ->
  (forall o', In o' ops -> compatible c o' o = true) ->
  post c o F.
Proof.
  revert f. induction ops as [| o1 ops IH]; intros f Hp Hr Hc; simpl in Hr.
  - injection Hr as <-. exact Hp.
  - destruct (applyOp c o1 f) as [f1 [e |]] eqn:Ha; [discriminate |].
    apply (IH f1); [| exact Hr | intros o' Ho'; apply Hc; right; exact Ho'].
    eapply post_persist; [exact Hp | exact Ha | apply Hc; left; reflexivity].
Qed.

(** After a successful run over pairwise compatible operations, the
    post-condition of each of them holds. *)
Lemma runOps_post `{Externals} (c : path) (ops : list fsop) (f F : FS) :
  runOps c ops f = (F, None) ->
  (forall o1 o2, In o1 ops -> In o2 ops -> compatible c o1 o2 = true) ->
  forall o, In o ops -> post c o F.
Proof.
  revert f. induction ops as [| o1 ops IH]; intros f Hr Hc o Ho; [contradiction |].
  simpl in Hr. destruct (applyOp c o1 f) as [f1 [e |]] eqn:Ha; [discriminate |].
  destruct Ho as [<- | Ho].
  - eapply runOps_persist; [eapply applyOp_post; exact Ha | exact Hr |].
    intros o' Ho'. apply Hc; [right; exact Ho' | left; reflexivity].
  - apply (IH f1 Hr); [| exact Ho].
    intros a b Ha' Hb'. apply Hc; right; assumption.
Qed.

Lemma runOps_settled `{Externals} (c : path) (ops : list fsop) (F : FS) :
  (forall o, In o ops -> post c o F) -> runOps c ops F = (F, None).
Proof.
  induction ops as [| o ops IH]; intros Hp; simpl; [reflexivity |].
  rewrite post_settled by (apply Hp; left; reflexivity).
  apply IH. intros o' Ho'. apply Hp. right. exact Ho'.
Qed.

(** ** createSkeleton as a run of operations *)

Lemma after_nil `{Externals} (w : World) : after [] w = set_fs (fs w) w.
Proof. reflexivity. Qed.

Lemma set_fs_id (w : World) : set_fs (fs w) w = w.
Proof. destruct w; reflexivity. Qed.

Lemma emits_app (a b : list Event) (w : World) :
  emits (a ++ b) w = emits b (emits a w).
Proof. unfold emits. apply fold_left_app. Qed.

(** Running [o] and then the rest is running the whole list. *)
Lemma after_cons_ok `{Externals} (o : fsop) (ops : list fsop) (w : World) f' :
  applyOp (cwd w) o (fs w) = (f', None) ->
  after (o :: ops) w = after ops (emit (opEvent o) (set_fs f' w)).
Proof.
  intros Ha. unfold after. cbn [attempted runOps cwd fs emit set_fs].
  rewrite Ha. reflexivity.
Qed.

Lemma after_cons_failed `{Externals} (o : fsop) (ops : list fsop) (w : World) f' e :
  applyOp (cwd w) o (fs w) = (f', Some e) ->
  after (o :: ops) w = emit (opEvent o) (set_fs f' w).
Proof.
  intros Ha. unfold after. cbn [attempted runOps cwd fs emit set_fs].
  rewrite Ha. reflexivity.
Qed.

Lemma runOps_cons_ok `{Externals} (c : path) (o : fsop) (ops : list fsop) f f' :
  applyOp c o f = (f', None) -> runOps c (o :: ops) f = runOps c ops f'.
Proof. intros Ha. simpl. rewrite Ha. reflexivity. Qed.

Lemma runOps_cons_failed `{Externals} (c : path) (o : fsop) (ops : list fsop) f f' e :
  applyOp c o f = (f', Some e) -> runOps c (o :: ops) f = (f', Some e).
Proof. intros Ha. simpl. rewrite Ha. reflexivity. Qed.

Lemma makeDirectories_ops `{Externals} (l : list (string * bool)) (w : World) :
  exists err,
    makeDirectories l w = Ret err (after (dirOps l) w) /\
    (err = None <-> snd (runOps (cwd w) (dirOps l) (fs w)) = None).
Proof.
  revert w. induction l as [| [dir keep] l IH]; intros w.
  - exists None. split; [| split; reflexivity].
    simpl. rewrite after_nil, set_fs_id. reflexivity.
  - cbn [makeDirectories dirOps flat_map app]. unfold bind at 1. unfold os_MkdirAll.
    destruct (mkdirAll (cwd w) dir (fs w)) as [f1 [e |]] eqn:Hm.
    + eexists. split.
      * rewrite (after_cons_failed (OpMkdir dir) _ w f1 e Hm). reflexivity.
      * rewrite (runOps_cons_failed _ (OpMkdir dir) _ _ f1 e Hm).
        split; discriminate.
    + rewrite (after_cons_ok (OpMkdir dir) _ w f1 Hm).
      rewrite (runOps_cons_ok _ (OpMkdir dir) _ _ f1 Hm).
      destruct keep.
      * cbn [app]. unfold bind at 1. unfold os_Create.
        cbn [cwd fs emit set_fs].
        destruct (writeFile (cwd w) (filepath.Join [dir; ".gitkeep"]) "" f1)
          as [f2 [e |]] eqn:Hc.
        -- eexists. split.
           ++ erewrite (after_cons_failed (OpCreate _) _ _ f2 e); [reflexivity |].
              exact Hc.
           ++ rewrite (runOps_cons_failed _ (OpCreate _) _ _ f2 e Hc).
              split; discriminate.
        -- erewrite (after_cons_ok (OpCreate _) _ _ f2); [| exact Hc].
           rewrite (runOps_cons_ok _ (OpCreate _) _ _ f2 Hc).
           destruct (IH (emit (EvCreate (filepath.Join [dir; ".gitkeep"]))
                           (set_fs f2 (emit (EvMkdirAll dir) (set_fs f1 w)))))
             as [err [Hr He]].
           exists err. split; [exact Hr | exact He].
      * cbn [app].
        destruct (IH (emit (EvMkdirAll dir) (set_fs f1 w))) as [err [Hr He]].
        exists err. split; [exact Hr | exact He].
Qed.

Lemma writeTemplates_ops `{Externals} (l : list (string * string)) (w : World) :
  exists err,
    writeTemplates l w = Ret err (after (templateOps l) w) /\
    (err = None <-> snd (runOps (cwd w) (templateOps l) (fs w)) = None).
Proof.
  revert w. induction l as [| [src dest] l IH]; intros w.
  - exists None. split; [| split; reflexivity].
    simpl. rewrite after_nil, set_fs_id. reflexivity.
  - cbn [writeTemplates templateOps map]. unfold bind at 1. unfold templates.Write.
    destruct (applyOp (cwd w) (OpTemplate src dest) (fs w)) as [f1 [e |]] eqn:Ha.
    + rewrite (after_cons_failed (OpTemplate src dest) _ w f1 e Ha).
      rewrite (runOps_cons_failed _ (OpTemplate src dest) _ _ f1 e Ha).
      simpl in Ha. destruct (render src NoData) as [content |].
      * rewrite Ha. eexists. split; [reflexivity | split; discriminate].
      * injection Ha as <- <-. rewrite set_fs_id.
        eexists. split; [reflexivity | split; discriminate].
    + rewrite (after_cons_ok (OpTemplate src dest) _ w f1 Ha).
      rewrite (runOps_cons_ok _ (OpTemplate src dest) _ _ f1 Ha).
      simpl in Ha. destruct (render src NoData) as [content |]; [| discriminate].
      rewrite Ha.
      destruct (IH (emit (EvTemplate src dest) (set_fs f1 w))) as [err [Hr He]].
      exists err. split; [exact Hr | exact He].
Qed.

Lemma emits_fields (evs : list Event) (w : World) :
  fs (emits evs w) = fs w /\ cwd (emits evs w) = cwd w /\
  viper (emits evs w) = viper w /\ store (emits evs w) = store w.
Proof.
  revert w. induction evs as [| e evs IH]; intros w; simpl; [auto |].
  destruct (IH (emit e w)) as (-> & -> & -> & ->). auto.
Qed.

Lemma after_fields `{Externals} (ops : list fsop) (w : World) :
  fs (after ops w) = fst (runOps (cwd w) ops (fs w)) /\
  cwd (after ops w) = cwd w /\
  viper (after ops w) = viper w /\
  store (after ops w) = store w /\
  trace (after ops w) = trace w ++ map opEvent (attempted (cwd w) ops (fs w)).
Proof.
  unfold after.
  destruct (emits_fields (map opEvent (attempted (cwd w) ops (fs w)))
              (set_fs (fst (runOps (cwd w) ops (fs w))) w)) as (-> & -> & -> & ->).
  rewrite trace_emits. auto.
Qed.

Lemma after_app `{Externals} (a b : list fsop) (w : World) :
  after (a ++ b) w =
    match snd (runOps (cwd w) a (fs w)) with
    | None => after b (after a w)
    | Some _ => after a w
    end.
Proof.
  revert w. induction a as [| o a IH]; intros w.
  - simpl. rewrite after_nil, set_fs_id. reflexivity.
  - cbn [app]. destruct (applyOp (cwd w) o (fs w)) as [f1 [e |]] eqn:Ha.
    + rewrite (runOps_cons_failed _ o _ _ f1 e Ha).
      rewrite !(after_cons_failed o _ w f1 e Ha). reflexivity.
    + rewrite (runOps_cons_ok _ o _ _ f1 Ha).
      rewrite !(after_cons_ok o _ w f1 Ha). apply IH.
Qed.

(** createSkeleton is the run of its operations followed, when all of
    them succeeded, by the write of the durable store, whose error, if any,
    it returns. *)
Lemma createSkeleton_ops `{Externals} (ord : rangeOrder) (w : World) :
  exists err,
    createSkeleton ord w =
      Ret err (match snd (runOps (cwd w) (skeletonOps ord w) (fs w)) with
               | Some _ => after (skeletonOps ord w) w
               | None => final (utils.WriteConfig (after (skeletonOps ord w) w))
               end) /\
    match snd (runOps (cwd w) (skeletonOps ord w) (fs w)) with
    | Some _ => err <> None
    | None => err = WriteConfigError (viper w)
    end.
Proof.
  unfold createSkeleton, skeletonOps.
  unfold bind at 1. unfold viper_GetString at 1. unfold gets at 1.
  unfold bind at 1. unfold viper_GetString at 1. unfold gets at 1.
  set (tl := order ord (files _ _)).
  destruct (makeDirectories_ops (order ord directories) w) as [e1 [Hr1 He1]].
  unfold bind at 1. rewrite Hr1, after_app, runOps_app.
  destruct (runOps (cwd w) (dirOps (order ord directories)) (fs w))
    as [f1 [x1 |]] eqn:Hrun1; cbn [snd] in *; try rewrite Hrun1 in He1;
    cbn [snd] in He1.
  - destruct e1 as [e1 |]; [| destruct He1 as [He1 _]; specialize (He1 eq_refl); discriminate He1].
    exists (Some e1). split; [reflexivity | discriminate].
  - destruct e1 as [e1 |]; [destruct He1 as [_ He1]; specialize (He1 eq_refl); discriminate He1 |].
    destruct (writeTemplates_ops tl (after (dirOps (order ord directories)) w))
      as [e2 [Hr2 He2]].
    unfold bind at 1. rewrite Hr2.
    destruct (after_fields (dirOps (order ord directories)) w)
      as (Hfs & Hcwd & Hvip & Hst & _).
    rewrite Hfs, Hcwd, Hrun1 in He2. cbn [fst] in He2.
    destruct (runOps (cwd w) (templateOps tl) f1) as [f2 [x2 |]] eqn:Hrun2; cbn [snd] in *;
      try rewrite Hrun2 in He2; cbn [snd] in He2.
    + destruct e2 as [e2 |]; [| destruct He2 as [He2 _]; specialize (He2 eq_refl); discriminate He2].
      exists (Some e2). split; [reflexivity | discriminate].
    + destruct e2 as [e2 |]; [destruct He2 as [_ He2]; specialize (He2 eq_refl); discriminate He2 |].
      destruct (after_fields (templateOps tl) (after (dirOps (order ord directories)) w))
        as (_ & _ & Hvip2 & _).
      exists (WriteConfigError (viper w)). split; [| reflexivity].
      unfold utils.WriteConfig. rewrite Hvip2, Hvip.
      destruct (WriteConfigError (viper w)); reflexivity.
Qed.

(** A createSkeleton that returns no error has run all its operations and
    written the store. *)
Lemma createSkeleton_None `{Externals} (ord : rangeOrder) (w w1 : World) :
  createSkeleton ord w = Ret None w1 ->
  snd (runOps (cwd w) (skeletonOps ord w) (fs w)) = None /\
  WriteConfigError (viper w) = None /\
  w1 = emit EvWriteConfig (set_store (viper w) (after (skeletonOps ord w) w)).
Proof.
  intros Hrun. destruct (createSkeleton_ops ord w) as [err [Hr He]].
  rewrite Hrun in Hr. injection Hr as <- Hw1.
  destruct (snd (runOps (cwd w) (skeletonOps ord w) (fs w))) as [x |];
    [contradiction He; reflexivity |].
  split; [reflexivity |]. split; [symmetry; exact He |].
  rewrite Hw1. unfold utils.WriteConfig.
  destruct (after_fields (skeletonOps ord w) w) as (_ & _ & Hvip & _).
  rewrite Hvip, <- He. reflexivity.
Qed.

(** And when all operations succeed and the store can be written, it
    returns none. *)
Lemma createSkeleton_Ret `{Externals} (ord : rangeOrder) (w : World) :
  snd (runOps (cwd w) (skeletonOps ord w) (fs w)) = None ->
  WriteConfigError (viper w) = None ->
  createSkeleton ord w =
    Ret None (emit EvWriteConfig (set_store (viper w) (after (skeletonOps ord w) w))).
Proof.
  intros Hops Hw. destruct (createSkeleton_ops ord w) as [err [Hr He]].
  rewrite Hops in Hr, He. rewrite Hr, He, Hw. unfold utils.WriteConfig.
  destruct (after_fields (skeletonOps ord w) w) as (_ & _ & Hvip & _).
  rewrite Hvip, Hw. reflexivity.
Qed.


(** Whatever its outcome, createSkeleton returns, with the disk its
    operations left and everything but the store and the trace as the
    operations left it. *)
Lemma createSkeleton_any `{Externals} (ord : rangeOrder) (w : World) :
  exists err w1 evs,
    createSkeleton ord w = Ret err w1 /\
    fs w1 = fst (runOps (cwd w) (skeletonOps ord w) (fs w)) /\
    cwd w1 = cwd w /\ viper w1 = viper w /\
    author w1 = author w /\ license w1 = license w /\ language w1 = language w /\
    nonInteractive w1 = nonInteractive w /\ reads w1 = reads w /\
    year w1 = year w /\ lookPath w1 = lookPath w /\ execOk w1 = execOk w /\
    trace w1 = trace w ++ evs.
Proof.
  destruct (createSkeleton_ops ord w) as [err [Hr _]].
  assert (Hflags : forall evs w0,
            author (emits evs w0) = author w0 /\ license (emits evs w0) = license w0 /\
            language (emits evs w0) = language w0 /\
            nonInteractive (emits evs w0) = nonInteractive w0 /\
            reads (emits evs w0) = reads w0 /\ year (emits evs w0) = year w0 /\
            lookPath (emits evs w0) = lookPath w0 /\ execOk (emits evs w0) = execOk w0).
  { intros evs. induction evs as [| e evs IH]; intros w0; [repeat split |].
    change (emits (e :: evs) w0) with (emits evs (emit e w0)).
    destruct (IH (emit e w0)) as (-> & -> & -> & -> & -> & -> & -> & ->).
    repeat split. }
  destruct (after_fields (skeletonOps ord w) w) as (Hfs & Hcwd & Hvip & _ & Htr).
  destruct (Hflags (map opEvent (attempted (cwd w) (skeletonOps ord w) (fs w)))
              (set_fs (fst (runOps (cwd w) (skeletonOps ord w) (fs w))) w))
    as (Ha & Hl & Hg & Hn & Hrd & Hy & Hlp & Hx).
  fold (after (skeletonOps ord w) w) in Ha, Hl, Hg, Hn, Hrd, Hy, Hlp, Hx.
  destruct (snd (runOps (cwd w) (skeletonOps ord w) (fs w))) as [x |].
  - exists err, (after (skeletonOps ord w) w),
      (map opEvent (attempted (cwd w) (skeletonOps ord w) (fs w))).
    split; [exact Hr |]. repeat split; assumption.
  - exists err, (final (utils.WriteConfig (after (skeletonOps ord w) w))),
      (map opEvent (attempted (cwd w) (skeletonOps ord w) (fs w)) ++ [EvWriteConfig]).
    split; [exact Hr |]. unfold utils.WriteConfig.
    destruct (WriteConfigError _); cbn [final fs cwd viper author license language
      nonInteractive reads year lookPath execOk trace emit set_store];
      rewrite Htr, <- app_assoc; repeat split; assumption.
Qed.

Lemma dirOps_perm (l1 l2 : list (string * bool)) (o : fsop) :
  l1 ≡ₚ l2 -> In o (dirOps l1) -> In o (dirOps l2).
Proof.
  intros Hp. unfold dirOps. rewrite !in_flat_map.
  intros [x [Hx Ho]]. exists x. split; [| exact Ho].
  eapply Permutation_in; eassumption.
Qed.

Lemma templateOps_perm (l1 l2 : list (string * string)) (o : fsop) :
  l1 ≡ₚ l2 -> In o (templateOps l1) -> In o (templateOps l2).
Proof.
  intros Hp. unfold templateOps. rewrite !in_map_iff.
  intros [x [Hx Ho]]. exists x. split; [exact Hx |].
  eapply Permutation_in; eassumption.
Qed.

(** Whatever the order of the two ranges, the operations are those of the
    manifest. *)
Lemma skeletonOps_manifest `{Externals} (ord : rangeOrder) (w : World) (o : fsop) :
  In o (skeletonOps ord w) <-> In o (manifest w).
Proof.
  unfold skeletonOps, manifest. rewrite !in_app_iff.
  split; (intros [Hd | Ht]; [left | right]).
  - eapply dirOps_perm; [apply order_perm | exact Hd].
  - eapply templateOps_perm; [apply order_perm | exact Ht].
  - eapply dirOps_perm; [symmetry; apply order_perm | exact Hd].
  - eapply templateOps_perm; [symmetry; apply order_perm | exact Ht].
Qed.

Lemma collisionFree_compatible `{Externals} (w : World) (o1 o2 : fsop) :
  collisionFree w -> In o1 (manifest w) -> In o2 (manifest w) ->
  compatible (cwd w) o1 o2 = true.
Proof.
  unfold collisionFree. rewrite forallb_forall. intros Hcf H1 H2.
  specialize (Hcf o1 H1). rewrite forallb_forall in Hcf. apply Hcf, H2.
Qed.

(** ** C4 *)

(** C4: on a manifest that is free of collisions (no two entries write
    different contents to one destination), whenever createSkeleton has
    succeeded, a second application to the tree it left, in any order of its
    two ranges, succeeds as well, every one of its operations succeeds
    without changing anything (a directory that exists is no error, each
    placeholder and each template is rewritten with the content it has), and
    it leaves the file system, the durable store and the settings exactly as
    the first application left them. *)
Theorem C4_idempotent `{Externals} (ord1 ord2 : rangeOrder) (w w1 : World) :
  collisionFree w ->
  createSkeleton ord1 w = Ret None w1 ->
  (forall o, In o (skeletonOps ord2 w1) ->
     applyOp (cwd w1) o (fs w1) = (fs w1, None))
  /\ exists w2,
       createSkeleton ord2 w1 = Ret None w2 /\
       fs w2 = fs w1 /\ store w2 = store w1 /\ viper w2 = viper w1.
Proof.
  intros Hcf Hrun.
  destruct (createSkeleton_None ord1 w w1 Hrun) as (He1 & Hwc & Hw1).
  destruct (after_fields (skeletonOps ord1 w) w) as (Hfs & Hcwd & Hvip & Hst & _).
  assert (Hfs1 : fs w1 = fst (runOps (cwd w) (skeletonOps ord1 w) (fs w)))
    by (rewrite Hw1; exact Hfs).
  assert (Hcwd1 : cwd w1 = cwd w) by (rewrite Hw1; exact Hcwd).
  assert (Hvip1 : viper w1 = viper w) by (rewrite Hw1; exact Hvip).
  assert (Hst1 : store w1 = viper w) by (rewrite Hw1; reflexivity).
  assert (Hrun1 : runOps (cwd w) (skeletonOps ord1 w) (fs w) = (fs w1, None)).
  { rewrite Hfs1. destruct (runOps _ _ _) as [F x]. cbn [snd] in He1. subst x.
    reflexivity. }
  assert (Hpost : forall o, In o (manifest w) -> post (cwd w) o (fs w1)).
  { intros o Ho.
    apply (runOps_post (cwd w) (skeletonOps ord1 w) (fs w) (fs w1) Hrun1).
    - intros o1 o2 H1 H2.
      apply (collisionFree_compatible w o1 o2 Hcf).
      + exact (proj1 (skeletonOps_manifest ord1 w o1) H1).
      + exact (proj1 (skeletonOps_manifest ord1 w o2) H2).
    - exact (proj2 (skeletonOps_manifest ord1 w o) Ho). }
  assert (Hman : forall o, In o (skeletonOps ord2 w1) -> In o (manifest w)).
  { intros o Ho. pose proof (proj1 (skeletonOps_manifest ord2 w1 o) Ho) as Hm.
    unfold manifest in Hm |- *. rewrite Hvip1 in Hm. exact Hm. }
  assert (Hstable : forall o, In o (skeletonOps ord2 w1) ->
            applyOp (cwd w1) o (fs w1) = (fs w1, None)).
  { intros o Ho. rewrite Hcwd1. apply post_settled, Hpost, Hman, Ho. }
  split; [exact Hstable |].
  assert (Hrun2 : runOps (cwd w1) (skeletonOps ord2 w1) (fs w1) = (fs w1, None)).
  { apply runOps_settled. intros o Ho. rewrite Hcwd1. apply Hpost, Hman, Ho. }
  assert (Hr2 : createSkeleton ord2 w1 =
                Ret None (emit EvWriteConfig
                            (set_store (viper w1) (after (skeletonOps ord2 w1) w1)))).
  { apply createSkeleton_Ret; [rewrite Hrun2; reflexivity |].
    rewrite Hvip1. exact Hwc. }
  eexists. split; [exact Hr2 |].
  destruct (after_fields (skeletonOps ord2 w1) w1) as (Hfs2 & _ & Hvip2 & _).
  cbn [fs store viper emit set_store].
  rewrite Hfs2, Hrun2, Hvip2, Hst1, Hvip1. auto.
Qed.


Lemma C4_idempotent_witness :
  @collisionFree sampleExternals worldConfigured /\
  exists w2,
    @createSkeleton sampleExternals reverseOrder
      (final (@createSkeleton sampleExternals listOrder worldConfigured))
      = Ret None w2 /\
    fs w2 = fs (final (@createSkeleton sampleExternals listOrder worldConfigured)).
Proof.
  assert (Hcf : @collisionFree sampleExternals worldConfigured)
    by (vm_compute; reflexivity).
  split; [exact Hcf |].
  assert (Hrun : @createSkeleton sampleExternals listOrder worldConfigured =
                 Ret None (final (@createSkeleton sampleExternals listOrder
                                    worldConfigured)))
    by (apply succeeded_final; vm_compute; reflexivity).
  destruct (proj2 (@C4_idempotent sampleExternals listOrder reverseOrder
                     worldConfigured _ Hcf Hrun)) as (w2 & Hr2 & Hfs & _).
  exists w2. split; assumption.
Defined.

(** ** The settings, the skeleton and the durable store *)

Lemma bind_Ret_inv {A B} (m : M A) (k : A -> M B) w b w' :
  bind m k w = Ret b w' -> exists a w1, m w = Ret a w1 /\ k a w1 = Ret b w'.
Proof.
  unfold bind. destruct (m w) as [a w1 | c w1 | w1 | w1]; try discriminate.
  intros Hk. exists a, w1. split; [reflexivity | exact Hk].
Qed.

Lemma attempted_all `{Externals} (c : path) (ops : list fsop) (f : FS) :
  snd (runOps c ops f) = None -> attempted c ops f = ops.
Proof.
  revert f. induction ops as [| o ops IH]; intros f; simpl; [reflexivity |].
  destruct (applyOp c o f) as [f1 [e |]]; [discriminate |].
  intros Hr. rewrite IH by exact Hr. reflexivity.
Qed.


Lemma sameViper_resolveAuthor `{Externals} : respects sameViper resolveAuthor.
Proof.
  apply respects_resolveAuthor.
  - intros w. split; reflexivity.
  - intros a b c [? ?] [? ?]. split; congruence.
  - intros e w _. split; reflexivity.
  - intros n w. split; reflexivity.
  - intros v w. split; reflexivity.
Qed.

Lemma sameViper_resolveLicense `{Externals} fuel : respects sameViper (resolveLicense fuel).
Proof.
  apply respects_resolveLicense.
  - intros w. split; reflexivity.
  - intros a b c [? ?] [? ?]. split; congruence.
  - intros e w _. split; reflexivity.
  - intros n w. split; reflexivity.
  - intros v w. split; reflexivity.
Qed.

Lemma sameViper_resolveLanguage `{Externals} fuel : respects sameViper (resolveLanguage fuel).
Proof.
  apply respects_resolveLanguage.
  - intros w. split; reflexivity.
  - intros a b c [? ?] [? ?]. split; congruence.
  - intros e w _. split; reflexivity.
  - intros n w. split; reflexivity.
  - intros v w. split; reflexivity.
Qed.

Lemma sameViper_confirmLoop `{Externals} fuel : respects sameViper (confirmLoop fuel).
Proof.
  apply respects_confirmLoop.
  - intros w. split; reflexivity.
  - intros a b c [? ?] [? ?]. split; congruence.
  - intros e w _. split; reflexivity.
  - intros n w. split; reflexivity.
Qed.

(** What confirmDirectory returns is the working directory, and it leaves
    the settings alone. *)
Lemma confirmDirectory_ret `{Externals} fuel (w w' : World) (r : string) :
  confirmDirectory fuel w = Ret r w' ->
  r = pathString (cwd w) /\ sameViper w w'.
Proof.
  unfold confirmDirectory, os_Getwd, ioutil_ReadDir.
  unfold bind at 1. unfold gets at 1.
  unfold bind at 1. unfold gets at 1.
  destruct (isDir (fs w) (resolve (cwd w) (pathString (cwd w)))).
  2:{ unfold log_Fatal, bind, log_Println, modify, os_Exit. discriminate. }
  unfold bind at 1. unfold gets at 1.
  intros Hb. apply bind_Ret_inv in Hb as ([] & w1 & Hc & Hret).
  injection Hret as <- <-. split; [reflexivity |].
  destruct (_ && _).
  - apply bind_Ret_inv in Hc as ([] & w0 & Hp & Hl).
    injection Hp as <-.
    pose proof (sameViper_confirmLoop fuel
                  (emit (EvPrint "This directory is not empty, initialize anyways? [y/N]: ") w))
      as Hs.
    rewrite Hl in Hs. exact Hs.
  - injection Hc as <-. split; reflexivity.
Qed.

Lemma setResolved_viper (w w' : World) :
  setResolved w = Ret tt w' ->
  viper w' = <["PrimaryLanguage" := language w]>
               (<["License" := license w]> (<["Author" := author w]> (viper w))) /\
  author w' = author w /\ license w' = license w /\ language w' = language w /\
  cwd w' = cwd w.
Proof.
  unfold setResolved. msimpl. intros Hr. injection Hr as <-. repeat split.
Qed.

(** After a successful resolution the four values are in the settings. *)
Lemma configure_sets `{Externals} fuel (w w1 : World) :
  configure fuel w = Ret tt w1 ->
  viper w1 !! "ProjectRoot" = Some (pathString (cwd w)) /\
  viper w1 !! "Author" = Some (author w1) /\
  viper w1 !! "License" = Some (license w1) /\
  viper w1 !! "PrimaryLanguage" = Some (language w1) /\
  cwd w1 = cwd w.
Proof.
  unfold configure, untilLicense. intros Hc.
  apply bind_Ret_inv in Hc as ([] & wa & Hu & Hc).
  apply bind_Ret_inv in Hu as ([] & wi & Hi & Hu).
  apply bind_Ret_inv in Hu as (root & wd & Hd & Hu).
  apply bind_Ret_inv in Hu as ([] & ws & Hs & Ha).
  apply bind_Ret_inv in Hc as ([] & wl & Hl & Hc).
  apply bind_Ret_inv in Hc as ([] & wg & Hg & Hr).
  assert (Hwi : wi = w).
  { unfold checkInitialized, bind, viper_GetString, gets in Hi.
    destruct (negb _); [discriminate |]. injection Hi as <-. reflexivity. }
  subst wi.
  apply confirmDirectory_ret in Hd as [-> [Hv1 Hc1]].
  unfold viper_Set, modify in Hs. injection Hs as <-.
  pose proof (sameViper_resolveAuthor
                (emit (EvViperSet "ProjectRoot" (pathString (cwd w)))
                   (set_viper (<["ProjectRoot" := pathString (cwd w)]> (viper wd)) wd)))
    as Hsa.
  rewrite Ha in Hsa. destruct Hsa as [Hva Hca]. cbn [final viper cwd emit set_viper] in Hva, Hca.
  pose proof (sameViper_resolveLicense fuel wa) as Hsl.
  rewrite Hl in Hsl. destruct Hsl as [Hvl Hcl]. cbn [final] in Hvl, Hcl.
  pose proof (sameViper_resolveLanguage fuel wl) as Hsg.
  rewrite Hg in Hsg. destruct Hsg as [Hvg Hcg]. cbn [final] in Hvg, Hcg.
  apply setResolved_viper in Hr as (Hv & Hau & Hli & Hla & Hcw).
  rewrite Hv, Hau, Hli, Hla, Hvg, Hvl, Hva.
  repeat split.
  - rewrite !am_lookup_insert_ne by discriminate. apply am_lookup_insert_eq.
  - rewrite !am_lookup_insert_ne by discriminate. apply am_lookup_insert_eq.
  - rewrite am_lookup_insert_ne by discriminate. apply am_lookup_insert_eq.
  - apply am_lookup_insert_eq.
  - congruence.
Qed.


(** ** C1 *)




(** ** The transcribed library functions on sample inputs *)

Example Atoi_examples :
  strconv.Atoi "2" = Some 2%Z /\ strconv.Atoi "+3" = Some 3%Z /\
  strconv.Atoi "01" = Some 1%Z /\ strconv.Atoi "" = None /\
  strconv.Atoi "-" = None /\ strconv.Atoi "2 " = None /\
  strconv.Atoi "-7" = Some (-7)%Z /\
  strconv.Atoi "9223372036854775808" = None /\
  strconv.Itoa 2026 = "2026" /\ strconv.Itoa 0 = "0" /\ strconv.Itoa (-12) = "-12".
Proof. repeat split; reflexivity. Qed.

Example Clean_examples :
  filepath.Clean "abc//def/../x/." = "abc/x" /\
  filepath.Clean "/../a/b/../../.." = "/" /\
  filepath.Clean "../../a/.." = "../.." /\
  filepath.Clean "" = "." /\
  filepath.Clean "a/b/../.." = "." /\
  filepath.Clean "/home/ada/proj/" = "/home/ada/proj" /\
  filepath.Join ["/home/ada/proj"; "Dockerfile"] = "/home/ada/proj/Dockerfile" /\
  filepath.Join [""; "Dockerfile"] = "Dockerfile" /\
  filepath.Join ["data/raw"; ".gitkeep"] = "data/raw/.gitkeep" /\
  filepath.Join [""; ""] = "".
Proof. repeat split; reflexivity. Qed.

(** At an empty root the functions of package paths give the fixed names
    that the call sites of init.go are taken to use. *)
Example paths_at_empty_root :
  paths.Dockerfile "" = paths.Dockerfile0 /\
  paths.DockerCompose "" = paths.DockerCompose0.
Proof. split; reflexivity. Qed.

(** The complete run of [init --author Ada --license MIT --language python
    --force] in an empty directory: it returns, the placeholder of data/raw
    and the license are on disk, the store is written, and the commands run
    are [git init] and the commit plan. *)
Example end_to_end :
  let r := @Run sampleExternals 3 listOrder world0 in
  r = Ret tt (final r) /\
  fs (final r) !! (home ++ ["data"; "raw"; ".gitkeep"]) = Some (File "") /\
  fs (final r) !! (home ++ ["LICENSE"]) = Some (File "Copyright (c) 2026 Ada") /\
  store (final r) !! "ProjectRoot" = Some "/home/ada/proj" /\
  List.filter (fun e => match e with EvExec _ _ => true | _ => false end)
              (trace (final r)) = gitInit :: planEvents.
Proof.
  cbv zeta. split.
  { apply returned_final. vm_compute. reflexivity. }
  repeat split; vm_compute; reflexivity.
Qed.

(** * Further properties of the code *)

(** ** initRepo: what does not stop it *)

(** The results of gitAdd and gitCommit are dropped (lines 278-297): once
    the listing shows no [.git] directory, git is on the search path and
    [git init] has succeeded, initRepo runs the whole plan and reports
    success, whatever the exit status of any add or commit. *)
Theorem initRepo_commit_failures_ignored (w : World) :
  isDir (fs w) (cwd w) = true ->
  fs w !! (cwd w ++ [".git"]) <> Some Dir ->
  lookPath w "git" = true ->
  execOk w (trace w) "git" ["init"] = true ->
  initRepo w = Ret None (emits (gitInit :: planEvents) w).
Proof.
  intros Hcwd Hgit Hlook Hinit.
  rewrite (initRepo_go w Hcwd Hgit Hlook), Hinit. reflexivity.
Qed.

Lemma initRepo_commit_failures_ignored_witness :
  execOk worldCommitsFail [gitInit] "git" ["add"; ".ccds"] = false /\
  execOk worldCommitsFail [gitInit] "git" ["commit"; "-m"; "Add ccds config directory"]
    = false /\
  initRepo worldCommitsFail = Ret None (emits (gitInit :: planEvents) worldCommitsFail).
Proof.
  split; [reflexivity |]. split; [reflexivity |].
  apply initRepo_commit_failures_ignored.
  - reflexivity.
  - discriminate.
  - reflexivity.
  - reflexivity.
Defined.

(** The marker test is [f.Name() == ".git" && f.IsDir()] (line 265): a
    regular file named [.git] at the root is no marker; initRepo goes on to
    the search path and to [git init]. *)
Theorem initRepo_git_file_is_no_marker (w : World) (content : string) :
  isDir (fs w) (cwd w) = true ->
  fs w !! (cwd w ++ [".git"]) = Some (File content) ->
  lookPath w "git" = true ->
  initRepo w =
    if execOk w (trace w) "git" ["init"]
    then Ret None (emits (gitInit :: planEvents) w)
    else Ret (Some (Wrapped "failed to initialize git repo" (ExecError "git")))
             (emits [gitInit] w).
Proof.
  intros Hcwd Hgit Hlook. apply initRepo_go; [exact Hcwd | | exact Hlook].
  rewrite Hgit. discriminate.
Qed.

Lemma initRepo_git_file_is_no_marker_witness :
  fs worldGitFile !! (cwd worldGitFile ++ [".git"]) = Some (File "gitdir: elsewhere") /\
  initRepo worldGitFile = Ret None (emits (gitInit :: planEvents) worldGitFile).
Proof.
  assert (Hg : fs worldGitFile !! (cwd worldGitFile ++ [".git"])
               = Some (File "gitdir: elsewhere")) by reflexivity.
  split; [exact Hg |].
  rewrite (initRepo_git_file_is_no_marker worldGitFile "gitdir: elsewhere");
    [reflexivity | reflexivity | exact Hg | reflexivity].
Defined.

(** ** The flags and the prompts of the resolution *)

Lemma Contains_In (l : list string) (s : string) :
  utils.Contains l s = true <-> In s l.
Proof.
  unfold utils.Contains. rewrite existsb_exists. split.
  - intros [x [Hx Hs]]. apply String.eqb_eq in Hs. subst x. exact Hx.
  - intros Hs. exists s. split; [exact Hs | apply String.eqb_refl].
Qed.

(** A language flag outside the supported set ends the process with
    "unknown language"; one inside passes without a prompt; and without a
    flag, an empty table of supported languages makes the slice
    [choices[:len(choices)-2]] of line 110 panic before anything is
    printed. *)
Theorem resolveLanguage_flag `{Externals} (fuel : nat) (w : World) :
  (language w <> "" -> utils.Contains Supported (language w) = false ->
     resolveLanguage fuel w = Exit 1%Z (emit (EvLog "unknown language") w))
  /\ (language w <> "" -> utils.Contains Supported (language w) = true ->
     resolveLanguage fuel w = Ret tt w)
  /\ (language w = "" -> Supported = [] -> resolveLanguage fuel w = Panic w).
Proof.
  unfold resolveLanguage. msimpl. split; [| split].
  - intros Hne Hc. destruct (String.eqb_spec (language w) ""); [contradiction |].
    rewrite Hc. reflexivity.
  - intros Hne Hc. destruct (String.eqb_spec (language w) ""); [contradiction |].
    rewrite Hc. reflexivity.
  - intros -> ->. reflexivity.
Qed.

Lemma resolveLanguage_flag_witness :
  language worldNoLanguage = "" /\
  @Supported noLanguages = [] /\
  @resolveLanguage noLanguages 3 worldNoLanguage = Panic worldNoLanguage.
Proof.
  assert (Hl : language worldNoLanguage = "") by reflexivity.
  assert (Hs : @Supported noLanguages = []) by reflexivity.
  split; [exact Hl |]. split; [exact Hs |].
  exact (proj2 (proj2 (@resolveLanguage_flag noLanguages 3 worldNoLanguage)) Hl Hs).
Defined.

Lemma sameFlags_refl w : sameFlags w w.
Proof. repeat split. Qed.

Lemma sameFlags_trans a b c : sameFlags a b -> sameFlags b c -> sameFlags a c.
Proof. intros (? & ? & ?) (? & ? & ?). repeat split; congruence. Qed.

Lemma sameFlags_getInput `{Externals} : respects sameFlags getInput.
Proof.
  apply respects_getInput.
  - apply sameFlags_refl.
  - apply sameFlags_trans.
  - intros e w _. repeat split.
  - intros n w. repeat split.
Qed.

(** When the license loop returns, the license is one of the list. *)
Lemma licenseLoop_sets `{Externals} (c : string) (fuel : nat) (w w' : World) :
  licenseLoop c fuel w = Ret tt w' ->
  In (license w') licenses /\ language w' = language w.
Proof.
  revert w. induction fuel as [| fuel IH]; intros w; [discriminate |].
  simpl licenseLoop. intros Hr.
  apply bind_Ret_inv in Hr as ([] & w0 & Hp & Hr).
  unfold fmt_Print, modify in Hp. injection Hp as <-.
  apply bind_Ret_inv in Hr as (input & wg & Hg & Hr).
  pose proof (sameFlags_getInput (emit (EvPrint ("Choose " +:+ c +:+ ": ")) w)) as Hs.
  rewrite Hg in Hs. destruct Hs as (_ & Hlang & _). cbn [final language emit] in Hlang.
  assert (Hrec : licenseLoop c fuel wg = Ret tt w' ->
                 In (license w') licenses /\ language w' = language w).
  { intros Hl. destruct (IH _ Hl) as [Hin Hla]. split; [exact Hin | congruence]. }
  destruct (strconv.Atoi input) as [choice |]; [| exact (Hrec Hr)].
  destruct (_ && _); [| exact (Hrec Hr)].
  destruct (licenses !! Z.to_nat (choice - 1)) as [l |] eqn:Hl; [| discriminate].
  unfold modify in Hr. injection Hr as <-. split.
  - cbn [license set_license]. apply list_elem_of_In.
    eapply list_elem_of_lookup_2. exact Hl.
  - cbn [language set_license]. exact Hlang.
Qed.

Lemma printMenu_frame (i : nat) (l : list string) (w : World) :
  exists evs, printMenu i l w = Ret tt (emits evs w).
Proof.
  revert i w. induction l as [| v l IH]; intros i w.
  - exists []. reflexivity.
  - simpl printMenu. unfold bind at 1. unfold fmt_Print, modify.
    destruct (IH (S i) (emit (EvPrint (strconv.Itoa (Z.of_nat (i + 1)) +:+ " - " +:+ v +:+ nl)) w))
      as [evs Hr].
    exists (EvPrint (strconv.Itoa (Z.of_nat (i + 1)) +:+ " - " +:+ v +:+ nl) :: evs).
    exact Hr.
Qed.

Lemma emits_flags (evs : list Event) (w : World) :
  author (emits evs w) = author w /\ license (emits evs w) = license w /\
  language (emits evs w) = language w /\
  nonInteractive (emits evs w) = nonInteractive w /\
  reads (emits evs w) = reads w /\ stdin (emits evs w) = stdin w.
Proof.
  revert w. induction evs as [| e evs IH]; intros w; simpl; [repeat split |].
  destruct (IH (emit e w)) as (-> & -> & -> & -> & -> & ->). repeat split.
Qed.

Lemma resolveLicense_sets `{Externals} (fuel : nat) (w w' : World) :
  resolveLicense fuel w = Ret tt w' ->
  In (license w') licenses /\ language w' = language w.
Proof.
  unfold resolveLicense. unfold bind at 1. unfold gets at 1.
  destruct (String.eqb (license w) "") eqn:Hl.
  - intros Hr. apply bind_Ret_inv in Hr as (c & w0 & Ht & Hr).
    unfold trimChoices in Ht. destruct (_ <? _)%nat; [discriminate |].
    injection Ht as <- <-.
    apply bind_Ret_inv in Hr as ([] & w1 & Hp & Hr).
    unfold fmt_Print, modify in Hp. injection Hp as <-.
    apply bind_Ret_inv in Hr as ([] & w2 & Hm & Hr).
    destruct (printMenu_frame 0 licenses
                (emit (EvPrint ("Select your license: " +:+ nl)) w)) as [evs He].
    rewrite He in Hm. injection Hm as <-.
    apply licenseLoop_sets in Hr as [Hin Hla]. split; [exact Hin |].
    rewrite Hla. destruct (emits_flags evs (emit (EvPrint ("Select your license: " +:+ nl)) w))
      as (_ & _ & -> & _). reflexivity.
  - destruct (utils.Contains licenses (license w)) eqn:Hc; cbn [negb].
    + intros Hr. injection Hr as <-. split; [| reflexivity].
      apply Contains_In. exact Hc.
    + unfold log_Fatal, bind, log_Println, modify, os_Exit. discriminate.
Qed.

Lemma languageLoop_sets `{Externals} (c : string) (fuel : nat) (w w' : World) :
  languageLoop c fuel w = Ret tt w' ->
  In (language w') Supported /\ license w' = license w.
Proof.
  revert w. induction fuel as [| fuel IH]; intros w; [discriminate |].
  simpl languageLoop. intros Hr.
  apply bind_Ret_inv in Hr as ([] & w0 & Hp & Hr).
  unfold fmt_Print, modify in Hp. injection Hp as <-.
  apply bind_Ret_inv in Hr as (input & wg & Hg & Hr).
  pose proof (sameFlags_getInput (emit (EvPrint ("Choose " +:+ c +:+ " [1]: ")) w)) as Hs.
  rewrite Hg in Hs. destruct Hs as (Hlic & _ & _). cbn [final license emit] in Hlic.
  assert (Hrec : languageLoop c fuel wg = Ret tt w' ->
                 In (language w') Supported /\ license w' = license w).
  { intros Hl. destruct (IH _ Hl) as [Hin Hla]. split; [exact Hin | congruence]. }
  assert (Hset : forall i l, Supported !! i = Some l ->
                   modify (set_language l) wg = Ret tt w' ->
                   In (language w') Supported /\ license w' = license w).
  { intros i l Hl Hm. unfold modify in Hm. injection Hm as <-. split.
    - cbn [language set_language]. apply list_elem_of_In.
      eapply list_elem_of_lookup_2. exact Hl.
    - cbn [license set_language]. exact Hlic. }
  destruct (String.eqb input "").
  { destruct (Supported !! 0) as [l |] eqn:Hl; [| discriminate].
    eapply Hset; eassumption. }
  destruct (strconv.Atoi input) as [choice |]; [| exact (Hrec Hr)].
  destruct (_ && _); [| exact (Hrec Hr)].
  destruct (Supported !! Z.to_nat (choice - 1)) as [l |] eqn:Hl; [| discriminate].
  eapply Hset; eassumption.
Qed.

Lemma resolveLanguage_sets `{Externals} (fuel : nat) (w w' : World) :
  resolveLanguage fuel w = Ret tt w' ->
  In (language w') Supported /\ license w' = license w.
Proof.
  unfold resolveLanguage. unfold bind at 1. unfold gets at 1.
  destruct (String.eqb (language w) "") eqn:Hl.
  - intros Hr. apply bind_Ret_inv in Hr as (c & w0 & Ht & Hr).
    unfold trimChoices in Ht. destruct (_ <? _)%nat; [discriminate |].
    injection Ht as <- <-.
    apply bind_Ret_inv in Hr as ([] & w1 & Hp & Hr).
    unfold fmt_Print, modify in Hp. injection Hp as <-.
    apply bind_Ret_inv in Hr as ([] & w2 & Hm & Hr).
    destruct (printMenu_frame 0 Supported
                (emit (EvPrint ("Select your primary language: " +:+ nl)) w)) as [evs He].
    rewrite He in Hm. injection Hm as <-.
    apply languageLoop_sets in Hr as [Hin Hla]. split; [exact Hin |].
    rewrite Hla.
    destruct (emits_flags evs (emit (EvPrint ("Select your primary language: " +:+ nl)) w))
      as (_ & -> & _). reflexivity.
  - destruct (utils.Contains Supported (language w)) eqn:Hc; cbn [negb].
    + intros Hr. injection Hr as <-. split; [| reflexivity].
      apply Contains_In. exact Hc.
    + unfold log_Fatal, bind, log_Println, modify, os_Exit. discriminate.
Qed.

(** Whatever mixes of flags and prompts resolved the configuration, once
    the resolution has returned the license is one of MIT, BSD-3-Clause,
    None, the language is one of the supported ones, and these are the values
    stored under License and PrimaryLanguage in the settings. *)
Theorem configure_resolves_valid `{Externals} (fuel : nat) (w w1 : World) :
  configure fuel w = Ret tt w1 ->
  In (license w1) licenses /\
  In (language w1) Supported /\
  viper w1 !! "License" = Some (license w1) /\
  viper w1 !! "PrimaryLanguage" = Some (language w1).
Proof.
  intros Hc.
  destruct (configure_sets fuel w w1 Hc) as (_ & _ & Hvl & Hvg & _).
  unfold configure in Hc.
  apply bind_Ret_inv in Hc as ([] & wa & _ & Hc).
  apply bind_Ret_inv in Hc as ([] & wl & Hl & Hc).
  apply bind_Ret_inv in Hc as ([] & wg & Hg & Hr).
  apply resolveLicense_sets in Hl as [Hin _].
  apply resolveLanguage_sets in Hg as [Hing Hlic].
  apply setResolved_viper in Hr as (_ & _ & Hli & Hla & _).
  rewrite Hli, Hla, Hlic. repeat split; try assumption.
  - rewrite <- Hlic, <- Hli. exact Hvl.
  - rewrite <- Hla. exact Hvg.
Qed.

Lemma configure_resolves_valid_witness :
  let w1 := final (@configure sampleExternals 3 worldInteractiveTwo) in
  @configure sampleExternals 3 worldInteractiveTwo = Ret tt w1 /\
  In (license w1) licenses /\ In (language w1) (@Supported sampleExternals).
Proof.
  cbv zeta.
  assert (Hc : @configure sampleExternals 3 worldInteractiveTwo =
               Ret tt (final (@configure sampleExternals 3 worldInteractiveTwo)))
    by (apply returned_final; vm_compute; reflexivity).
  split; [exact Hc |].
  destruct (@configure_resolves_valid sampleExternals 3 worldInteractiveTwo _ Hc)
    as (H1 & H2 & _).
  split; assumption.
Defined.

(** ** The confirmation of a directory that is not empty *)

Lemma confirmLoop_answers `{Externals} (n fuel : nat) (w : World) :
  nonInteractive w = false ->
  (forall i, (i < n)%nat ->
     answer w i <> "y" /\ answer w i <> "n" /\ answer w i <> "") ->
  (n < fuel)%nat ->
  exists w',
    fs w' = fs w /\ store w' = store w /\ viper w' = viper w /\
    reads w' = (reads w + S n)%nat /\
    trace w' = trace w ++ confirmEvents n /\
    confirmLoop fuel w =
      if String.eqb (answer w n) "y" then Ret tt w'
      else if String.eqb (answer w n) "n" || String.eqb (answer w n) ""
           then Exit 0%Z w'
           else bind (fmt_Print "Please answer [y/N]: ")
                     (fun _ => confirmLoop (fuel - S n)) w'.
Proof.
  revert fuel w. induction n as [| n IH]; intros fuel w Hni Hjunk Hfuel.
  - destruct fuel as [| fuel]; [lia |].
    exists (emit EvRead (set_reads (S (reads w)) w)).
    cbn [fs store viper reads trace emit set_reads]. unfold confirmEvents. cbn [repeat concat app].
    repeat split; [lia |].
    cbn [confirmLoop]. unfold bind at 1.
    rewrite (getInput_interactive w Hni). unfold answer.
    replace (reads w + 0)%nat with (reads w) by lia.
    replace (S fuel - 1)%nat with fuel by lia.
    destruct (String.eqb _ "y"); [reflexivity |].
    destruct (String.eqb _ "n" || String.eqb _ ""); reflexivity.
  - destruct fuel as [| fuel]; [lia |].
    set (w1 := emit (EvPrint "Please answer [y/N]: ")
                 (emit EvRead (set_reads (S (reads w)) w))).
    assert (Hans : forall i, answer w1 i = answer w (S i)).
    { intros i. unfold answer, w1. cbn [stdin reads emit set_reads].
      replace (S (reads w) + i)%nat with (reads w + S i)%nat by lia. reflexivity. }
    destruct (IH fuel w1) as (w' & Hfs & Hst & Hvi & Hrd & Htr & Hrun).
    + exact Hni.
    + intros i Hi. rewrite Hans. apply Hjunk. lia.
    + lia.
    + exists w'. rewrite Hfs, Hst, Hvi, Hrd, Htr. unfold w1 at 1 2 3 4 5.
      cbn [fs store viper reads trace emit set_reads].
      repeat split; [lia | |].
      * unfold confirmEvents. cbn [repeat concat]. rewrite <- !app_assoc. reflexivity.
      * cbn [confirmLoop]. unfold bind at 1.
        rewrite (getInput_interactive w Hni).
        destruct (Hjunk 0%nat ltac:(lia)) as (Hy & Hn & He).
        unfold answer in Hy, Hn, He.
        replace (reads w + 0)%nat with (reads w) in Hy, Hn, He by lia.
        destruct (String.eqb_spec (Chomp (stdin w (reads w))) "y"); [contradiction |].
        destruct (String.eqb_spec (Chomp (stdin w (reads w))) "n"); [contradiction |].
        destruct (String.eqb_spec (Chomp (stdin w (reads w))) ""); [contradiction |].
        cbn [orb]. unfold bind at 1. unfold fmt_Print at 1, modify.
        fold w1. rewrite Hrun, Hans.
        replace (S fuel - S (S n))%nat with (fuel - S n)%nat by lia. reflexivity.
Qed.

(** In a project that is not yet initialized, in a working directory that
    can be listed and is not empty, without [--force], interactive [init]
    asks before anything else: answers other than "y", "n" and the empty line
    are asked again, and on the first "n" or empty line the process exits
    with status 0
    having touched neither the disk, nor the durable store, nor the
    settings (not even the project root), and having printed only the
    question and its repetitions. *)
Theorem Run_declined `{Externals} (n fuel : nat) (ord : rangeOrder) (w : World) :
  default "" (viper w !! "ProjectRoot") = "" ->
  listable w ->
  entries (fs w) (resolve (cwd w) (pathString (cwd w))) <> [] ->
  force w = false ->
  nonInteractive w = false ->
  (forall i, (i < n)%nat ->
     answer w i <> "y" /\ answer w i <> "n" /\ answer w i <> "") ->
  answer w n = "n" \/ answer w n = "" ->
  (n < fuel)%nat ->
  exists w',
    Run fuel ord w = Exit 0%Z w' /\
    fs w' = fs w /\ store w' = store w /\ viper w' = viper w /\
    trace w' = trace w ++
      EvPrint "This directory is not empty, initialize anyways? [y/N]: "
        :: confirmEvents n.
Proof.
  intros Hroot Hls Hne Hforce Hni Hjunk Hans Hfuel.
  set (q := "This directory is not empty, initialize anyways? [y/N]: ").
  destruct (confirmLoop_answers n fuel (emit (EvPrint q) w) Hni) as
    (w' & Hfs & Hst & Hvi & _ & Htr & Hrun).
  { intros i Hi. exact (Hjunk i Hi). }
  { exact Hfuel. }
  change (answer (emit (EvPrint q) w) n) with (answer w n) in Hrun.
  assert (Hexit : confirmLoop fuel (emit (EvPrint q) w) = Exit 0%Z w').
  { rewrite Hrun. destruct Hans as [-> | ->]; reflexivity. }
  exists w'. cbn [fs store viper trace emit] in Hfs, Hst, Hvi, Htr.
  rewrite Hfs, Hst, Hvi, Htr, <- app_assoc. repeat split.
  unfold Run, configure, untilLicense.
  apply bind_Exit. apply bind_Exit.
  rewrite (bind_Ret _ _ _ _ _ (checkInitialized_fresh w Hroot)).
  apply bind_Exit.
  unfold confirmDirectory, os_Getwd, ioutil_ReadDir.
  unfold bind at 1. unfold gets at 1.
  unfold bind at 1. unfold gets at 1.
  unfold listable in Hls. rewrite Hls.
  unfold bind at 1. unfold gets at 1. rewrite Hforce.
  destruct (entries (fs w) (resolve (cwd w) (pathString (cwd w)))) as [| e l];
    [contradiction |].
  cbn [length Nat.ltb Nat.leb negb andb].
  apply bind_Exit. unfold bind at 1. unfold fmt_Print at 1, modify.
  exact Hexit.
Qed.

Lemma Run_declined_witness :
  exists w',
    @Run sampleExternals 5 listOrder worldHesitant = Exit 0%Z w' /\
    fs w' = fs worldHesitant /\ store w' = store worldHesitant /\
    viper w' = viper worldHesitant /\
    trace w' = trace worldHesitant ++
      EvPrint "This directory is not empty, initialize anyways? [y/N]: "
        :: confirmEvents 2.
Proof.
  apply (@Run_declined sampleExternals 2 5 listOrder worldHesitant).
  - reflexivity.
  - reflexivity.
  - vm_compute. discriminate.
  - reflexivity.
  - reflexivity.
  - intros i Hi.
    destruct i as [| [| i]]; [| | lia]; vm_compute; repeat split; discriminate.
  - left. vm_compute. reflexivity.
  - lia.
Defined.

(** In a project that is not yet initialized and whose working directory
    can be listed, with [--force] or in an empty directory, and with a known
    author, license and language on the command line, the resolution asks
    nothing and reads nothing, in interactive and in non-interactive mode
    alike: it returns having only set the four values. *)
Theorem configure_flags_only `{Externals} (fuel : nat) (w : World) :
  default "" (viper w !! "ProjectRoot") = "" ->
  listable w ->
  force w = true \/ entries (fs w) (resolve (cwd w) (pathString (cwd w))) = [] ->
  author w <> "" ->
  utils.Contains licenses (license w) = true ->
  utils.Contains Supported (language w) = true ->
  language w <> "" ->
  exists w',
    configure fuel w = Ret tt w' /\
    reads w' = reads w /\ fs w' = fs w /\ store w' = store w /\
    trace w' = trace w ++
      [ EvViperSet "ProjectRoot" (pathString (cwd w));
        EvViperSet "Author" (author w);
        EvViperSet "License" (license w);
        EvViperSet "PrimaryLanguage" (language w) ].
Proof.
  intros Hroot Hls Hempty Hauth Hlic Hlang Hlne.
  unfold configure, untilLicense.
  assert (Hcd : confirmDirectory fuel w = Ret (pathString (cwd w)) w).
  { unfold confirmDirectory, os_Getwd, ioutil_ReadDir.
    unfold bind at 1. unfold gets at 1.
    unfold bind at 1. unfold gets at 1.
    unfold listable in Hls. rewrite Hls.
    unfold bind at 1. unfold gets at 1.
    assert (Hskip : (0 <? length (entries (fs w) (resolve (cwd w) (pathString (cwd w)))))%nat
                    && negb (force w) = false).
    { destruct Hempty as [-> | ->]; [apply andb_false_r | reflexivity]. }
    rewrite Hskip. reflexivity. }
  set (w1 := emit (EvViperSet "ProjectRoot" (pathString (cwd w)))
               (set_viper (<["ProjectRoot" := pathString (cwd w)]> (viper w)) w)).
  assert (Hu : (checkInitialized ;;; projectRoot <- confirmDirectory fuel ;;
                viper_Set "ProjectRoot" projectRoot ;;; resolveAuthor) w = Ret tt w1).
  { rewrite (bind_Ret _ _ _ _ _ (checkInitialized_fresh w Hroot)).
    rewrite (bind_Ret _ _ _ _ _ Hcd).
    unfold bind at 1. unfold viper_Set at 1, modify. fold w1.
    unfold resolveAuthor. unfold bind at 1. unfold gets at 1.
    change (author w1) with (author w).
    destruct (String.eqb_spec (author w) ""); [contradiction | reflexivity]. }
  rewrite (bind_Ret _ _ _ _ _ Hu).
  rewrite (bind_Ret _ _ _ _ _ (resolveLicense_valid fuel w1 Hlic)).
  assert (Hg : resolveLanguage fuel w1 = Ret tt w1).
  { unfold resolveLanguage. unfold bind at 1. unfold gets at 1.
    change (language w1) with (language w).
    destruct (String.eqb_spec (language w) ""); [contradiction |].
    rewrite Hlang. reflexivity. }
  rewrite (bind_Ret _ _ _ _ _ Hg).
  eexists. split; [unfold setResolved; msimpl; reflexivity |].
  unfold w1. msimpl. rewrite <- !app_assoc. repeat split.
Qed.

Lemma configure_flags_only_witness :
  exists w',
    @configure sampleExternals 0 worldAllFlags = Ret tt w' /\
    reads w' = reads worldAllFlags /\ fs w' = fs worldAllFlags /\
    store w' = store worldAllFlags /\
    trace w' = trace worldAllFlags ++
      [ EvViperSet "ProjectRoot" (pathString (cwd worldAllFlags));
        EvViperSet "Author" (author worldAllFlags);
        EvViperSet "License" (license worldAllFlags);
        EvViperSet "PrimaryLanguage" (language worldAllFlags) ].
Proof.
  apply (@configure_flags_only sampleExternals 0 worldAllFlags).
  - reflexivity.
  - reflexivity.
  - left. reflexivity.
  - discriminate.
  - reflexivity.
  - reflexivity.
  - discriminate.
Defined.

(** ** The first valid answer picks the license *)

Lemma answer_prompted `{Externals} (p : string) (w : World) (n : nat) :
  answer (prompted p w) n = answer w (S n).
Proof.
  unfold answer, prompted. cbn [stdin reads emit set_reads].
  replace (S (reads w) + n)%nat with (reads w + S n)%nat by lia. reflexivity.
Qed.

(** The license prompt takes the first line that is a number of the menu,
    whatever was typed before it: when the lines before the [n]-th are no
    valid choices and the [n]-th reads as [k], the loop returns after
    exactly [n+1] prompts and reads with the [k]-th license of the list
    selected, and nothing else changed. *)
Theorem licenseLoop_first_choice `{Externals} (c : string) (n fuel : nat)
    (w : World) (k : Z) (l : string) :
  nonInteractive w = false ->
  (forall i, (i < n)%nat -> ~ chosen w i) ->
  strconv.Atoi (answer w n) = Some k ->
  (1 <= k)%Z ->
  licenses !! Z.to_nat (k - 1) = Some l ->
  (n < fuel)%nat ->
  licenseLoop c fuel w =
    Ret tt (set_license l (Nat.iter (S n) (prompted ("Choose " +:+ c +:+ ": ")) w)).
Proof.
  revert fuel w. induction n as [| n IH]; intros fuel w Hni Hbad Ha Hk Hl Hfuel.
  - destruct fuel as [| fuel]; [lia |].
    rewrite licenseLoop_step by exact Hni. cbv zeta.
    unfold answer in Ha. rewrite Nat.add_0_r in Ha. rewrite Ha.
    assert (Hr : (0 <? k)%Z && (k <=? Z.of_nat (length licenses))%Z = true).
    { apply lookup_lt_Some in Hl. apply andb_true_iff.
      split; [apply Z.ltb_lt | apply Z.leb_le]; lia. }
    rewrite Hr, Hl. reflexivity.
  - destruct fuel as [| fuel]; [lia |].
    rewrite licenseLoop_step by exact Hni. cbv zeta.
    set (p := "Choose " +:+ c +:+ ": ").
    assert (Hrec : licenseLoop c fuel (prompted p w) =
                   Ret tt (set_license l (Nat.iter (S (S n)) (prompted p) w))).
    { rewrite (Nat.iter_succ_r (S n)). apply IH; try assumption.
      - intros i Hi Hc. apply chosen_later in Hc. exact (Hbad (S i) ltac:(lia) Hc).
      - rewrite answer_prompted. exact Ha.
      - lia. }
    pose proof (Hbad 0%nat ltac:(lia)) as H0.
    destruct (strconv.Atoi (Chomp (stdin w (reads w)))) as [k0 |] eqn:Ha0;
      [| exact Hrec].
    destruct ((0 <? k0)%Z && (k0 <=? Z.of_nat (length licenses))%Z) eqn:Hk0;
      [| exact Hrec].
    exfalso. apply H0. apply chosen_now. exists k0. split; assumption.
Qed.

Lemma licenseLoop_first_choice_witness :
  @licenseLoop sampleExternals "1, 2, 3" 7 worldInteractiveTwo =
    Ret tt (set_license "BSD-3-Clause"
              (Nat.iter 2 (prompted "Choose 1, 2, 3: ") worldInteractiveTwo)).
Proof.
  apply (@licenseLoop_first_choice sampleExternals "1, 2, 3" 1 7
           worldInteractiveTwo 2%Z "BSD-3-Clause").
  - reflexivity.
  - intros i Hi [k [Ha _]]. destruct i as [| i]; [| lia].
    vm_compute in Ha. discriminate Ha.
  - vm_compute. reflexivity.
  - lia.
  - reflexivity.
  - lia.
Defined.

(** ** What createSkeleton leaves on disk *)

Lemma chainDirs_last (f : FS) (d : path) (t : list string) :
  chainDirs f d t -> t <> [] -> f !! (d ++ t) = Some Dir.
Proof.
  revert d. induction t as [| n t IH]; intros d; [contradiction |].
  cbn [chainDirs]. intros [Hl Ht] _. destruct t as [| m t].
  - exact Hl.
  - change (d ++ n :: m :: t) with (d ++ [n] ++ m :: t). rewrite app_assoc.
    apply IH; [exact Ht | discriminate].
Qed.

Lemma compatible_mkdir `{Externals} (c : path) (o : fsop) (s : string) :
  compatible c o (OpMkdir s) = true.
Proof.
  unfold compatible. destruct (written c o) as [[p y] |]; reflexivity.
Qed.

(** After a successful run, the post-condition of an operation holds when
    every operation of the run is compatible with it. *)
Lemma runOps_post_one `{Externals} (c : path) (ops : list fsop) (f F : FS) (o : fsop) :
  runOps c ops f = (F, None) ->
  In o ops ->
  (forall o', In o' ops -> compatible c o' o = true) ->
  post c o F.
Proof.
  revert f. induction ops as [| o1 ops IH]; intros f Hr Ho Hc; [contradiction |].
  simpl in Hr. destruct (applyOp c o1 f) as [f1 [e |]] eqn:Ha; [discriminate |].
  destruct Ho as [<- | Ho].
  - eapply runOps_persist; [eapply applyOp_post; exact Ha | exact Hr |].
    intros o' Ho'. apply Hc. right. exact Ho'.
  - apply (IH f1 Hr Ho). intros o' Ho'. apply Hc. right. exact Ho'.
Qed.

Lemma resolve_rel (c : path) (s : string) (names : list string) :
  filepath.IsAbs s = false -> components "" s = names -> resolve c s = walk c names.
Proof. intros Ha Hc. unfold resolve. rewrite Ha, Hc. reflexivity. Qed.

Ltac resolve_names c s :=
  let n := eval vm_compute in (components "" s) in
  rewrite (resolve_rel c s n eq_refl eq_refl);
  cbn [walk String.eqb Ascii.eqb Bool.eqb orb]; rewrite <- ?app_assoc; cbn [app].

(** Where the names of the catalog lead, and where their placeholders. *)
Lemma catalog_resolve (c : path) (dir : string) (keep : bool) :
  In (dir, keep) directoriesList ->
  exists q, resolve c dir = c ++ q /\
            resolve c (filepath.Join [dir; ".gitkeep"]) = (c ++ q) ++ [".gitkeep"] /\
            q <> [].
Proof.
  unfold directoriesList. cbn [In]. intros Hin.
  repeat (destruct Hin as [Hin | Hin];
          [injection Hin as <- <-; eexists;
           split; [| split];
           [ match goal with |- resolve _ ?s = _ => resolve_names c s end; reflexivity
           | match goal with |- resolve _ ?s = _ =>
               let s' := eval vm_compute in s in
               change s with s'; resolve_names c s'
             end; reflexivity
           | discriminate ] |]).
  contradiction.
Qed.

Lemma In_dirOps_mkdir (l : list (string * bool)) (dir : string) (keep : bool) :
  In (dir, keep) l -> In (OpMkdir dir) (dirOps l).
Proof.
  intros Hin. unfold dirOps. apply in_flat_map. exists (dir, keep).
  split; [exact Hin | left; reflexivity].
Qed.

Lemma In_dirOps_create (l : list (string * bool)) (dir : string) :
  In (dir, true) l -> In (OpCreate (filepath.Join [dir; ".gitkeep"])) (dirOps l).
Proof.
  intros Hin. unfold dirOps. apply in_flat_map. exists (dir, true).
  split; [exact Hin | right; left; reflexivity].
Qed.

(** A successful run of createSkeleton, as a run of its operations. *)
Lemma createSkeleton_ran `{Externals} (ord : rangeOrder) (w w1 : World) :
  createSkeleton ord w = Ret None w1 ->
  runOps (cwd w) (skeletonOps ord w) (fs w) = (fs w1, None) /\
  store w1 = viper w /\ cwd w1 = cwd w /\ viper w1 = viper w.
Proof.
  intros Hrun.
  destruct (createSkeleton_None ord w w1 Hrun) as (He1 & _ & Hw1).
  destruct (after_fields (skeletonOps ord w) w) as (Hfs & Hcwd & Hvip & Hst & _).
  rewrite Hw1. cbn [fs store cwd viper emit set_store].
  rewrite Hfs, Hcwd, Hvip. repeat split.
  destruct (runOps _ _ _) as [F x]. cbn [snd] in He1. subst x. reflexivity.
Qed.

Lemma ops_dir_made `{Externals} (ord : rangeOrder) (w : World) (F : FS)
    (dir : string) (keep : bool) :
  runOps (cwd w) (skeletonOps ord w) (fs w) = (F, None) ->
  In (dir, keep) directoriesList ->
  F !! resolve (cwd w) dir = Some Dir.
Proof.
  intros Hr Hin.
  assert (Hpost : post (cwd w) (OpMkdir dir) F).
  { apply (runOps_post_one (cwd w) (skeletonOps ord w) (fs w) F (OpMkdir dir) Hr).
    - apply (proj2 (skeletonOps_manifest ord w (OpMkdir dir))).
      unfold manifest. apply in_or_app. left.
      exact (In_dirOps_mkdir directoriesList dir keep Hin).
    - intros o' _. apply compatible_mkdir. }
  destruct Hpost as [_ Hchain].
  destruct (catalog_resolve (cwd w) dir keep Hin) as (q & Hres & _ & Hq).
  apply (chainDirs_last F [] (resolve (cwd w) dir) Hchain).
  rewrite Hres. destruct (cwd w); [exact Hq | discriminate].
Qed.

Lemma skeleton_dir_made `{Externals} (ord : rangeOrder) (w w1 : World)
    (dir : string) (keep : bool) :
  createSkeleton ord w = Ret None w1 ->
  In (dir, keep) directoriesList ->
  fs w1 !! resolve (cwd w) dir = Some Dir.
Proof.
  intros Hrun Hin.
  destruct (createSkeleton_ran ord w w1 Hrun) as (Hr & _).
  exact (ops_dir_made ord w (fs w1) dir keep Hr Hin).
Qed.

(** When createSkeleton has succeeded, in whatever order its two ranges
    ran: every directory of the catalog is a directory on disk and the
    durable store holds the settings; and on a manifest free of collisions
    every directory marked for it holds an empty [.gitkeep] and every
    template destination holds the rendering of its template. *)
Theorem createSkeleton_establishes `{Externals} (ord : rangeOrder) (w w1 : World) :
  createSkeleton ord w = Ret None w1 ->
  (forall dir keep, In (dir, keep) directoriesList ->
     fs w1 !! resolve (cwd w) dir = Some Dir)
  /\ store w1 = viper w
  /\ (collisionFree w ->
      (forall dir, In (dir, true) directoriesList ->
         fs w1 !! resolve (cwd w) (filepath.Join [dir; ".gitkeep"]) = Some (File ""))
      /\ (forall src dest,
            In (src, dest) (files (default "" (viper w !! "ProjectRoot"))
                                  (default "" (viper w !! "PrimaryLanguage"))) ->
            exists content,
              render src NoData = Some content /\
              fs w1 !! resolve (cwd w) dest = Some (File content))).
Proof.
  intros Hrun.
  destruct (createSkeleton_ran ord w w1 Hrun) as (Hr & Hst & _).
  split; [| split; [exact Hst |]].
  - intros dir keep Hin. exact (skeleton_dir_made ord w w1 dir keep Hrun Hin).
  - intros Hcf.
    assert (Hpost : forall o, In o (manifest w) -> post (cwd w) o (fs w1)).
    { intros o Ho.
      apply (runOps_post (cwd w) (skeletonOps ord w) (fs w) (fs w1) Hr).
      - intros o1 o2 H1 H2.
        apply (collisionFree_compatible w o1 o2 Hcf).
        + exact (proj1 (skeletonOps_manifest ord w o1) H1).
        + exact (proj1 (skeletonOps_manifest ord w o2) H2).
      - exact (proj2 (skeletonOps_manifest ord w o) Ho). }
    split.
    + intros dir Hin.
      assert (Hm : In (OpCreate (filepath.Join [dir; ".gitkeep"])) (manifest w)).
      { unfold manifest. apply in_or_app. left.
        exact (In_dirOps_create directoriesList dir Hin). }
      destruct (Hpost _ Hm) as (_ & _ & Hl). exact Hl.
    + intros src dest Hin.
      assert (Hm : In (OpTemplate src dest) (manifest w)).
      { unfold manifest. apply in_or_app. right. unfold templateOps.
        apply in_map_iff. exists (src, dest). split; [reflexivity | exact Hin]. }
      destruct (Hpost _ Hm) as (content & Hren & _ & _ & Hl).
      exists content. split; assumption.
Qed.

Lemma createSkeleton_establishes_witness :
  let w1 := final (@createSkeleton sampleExternals reverseOrder worldConfigured) in
  fs w1 !! (home ++ ["src"; "visualization"]) = Some Dir /\
  store w1 = viper worldConfigured.
Proof.
  cbv zeta.
  assert (Hc : @createSkeleton sampleExternals reverseOrder worldConfigured =
               Ret None (final (@createSkeleton sampleExternals reverseOrder worldConfigured)))
    by (apply succeeded_final; vm_compute; reflexivity).
  destruct (@createSkeleton_establishes sampleExternals reverseOrder worldConfigured _ Hc)
    as (Hd & Hs & _).
  split; [| exact Hs].
  apply (Hd "src/visualization" true). unfold directoriesList. cbn [In]. tauto.
Defined.

(** ** What createSkeleton never does *)

Lemma grown_refl (f : FS) (p : path) : grown f f p.
Proof. left. reflexivity. Qed.

Lemma grown_trans (f g h : FS) (p : path) : grown f g p -> grown g h p -> grown f h p.
Proof.
  unfold grown. intros [E1 | [N1 D1]] [E2 | [N2 D2]].
  - left. congruence.
  - right. split; congruence.
  - right. split; congruence.
  - congruence.
Qed.

Lemma mkdirChain_grown (d : path) (t : list string) (f f' : FS) e (p : path) :
  mkdirChain d t f = (f', e) -> grown f f' p.
Proof.
  revert d f. induction t as [| n t IH]; intros d f; simpl.
  - intros Heq. injection Heq as <- _. apply grown_refl.
  - destruct (f !! (d ++ [n])) as [[| x] |] eqn:Hl.
    + apply IH.
    + intros Heq. injection Heq as <- _. apply grown_refl.
    + intros Hc. apply IH in Hc. eapply grown_trans; [| exact Hc].
      destruct (decide (d ++ [n] = p)) as [<- | Hne].
      * right. split; [exact Hl | apply am_lookup_insert_eq].
      * left. apply am_lookup_insert_ne. exact Hne.
Qed.

Lemma applyOp_grown `{Externals} (c : path) (o : fsop) (f f' : FS) e (p : path) :
  applyOp c o f = (f', e) ->
  (forall q y, written c o = Some (q, y) -> q <> p) ->
  grown f f' p.
Proof.
  assert (Hwrite : forall s content,
            writeFile c s content f = (f', e) -> resolve c s <> p -> grown f f' p).
  { intros s content Hw Hne. destruct e as [e |].
    - apply writeFile_failed in Hw as ->. apply grown_refl.
    - apply writeFile_inv in Hw as (-> & _). left.
      apply am_lookup_insert_ne. exact Hne. }
  destruct o as [s | s | src dest]; simpl; intros Ha Hw.
  - unfold mkdirAll in Ha. destruct (_ && _).
    + injection Ha as <- _. apply grown_refl.
    + destruct (mkdirChain [] (resolve c s) f) as [f1 [errno |]] eqn:Hc;
        injection Ha as <- _; eapply mkdirChain_grown; exact Hc.
  - eapply Hwrite; [exact Ha |]. eapply Hw. reflexivity.
  - destruct (render src NoData) as [content |].
    + eapply Hwrite; [exact Ha |]. eapply Hw. reflexivity.
    + injection Ha as <- _. apply grown_refl.
Qed.

Lemma applyOp_filesStay `{Externals} (c : path) (o : fsop) (f f' : FS) e :
  applyOp c o f = (f', e) -> filesStay f f'.
Proof.
  assert (Hwrite : forall s content,
            writeFile c s content f = (f', e) -> filesStay f f').
  { intros s content Hw p x Hp. destruct e as [e |].
    - apply writeFile_failed in Hw as ->. exists x. exact Hp.
    - apply writeFile_inv in Hw as (-> & _).
      destruct (decide (resolve c s = p)) as [<- | Hne].
      + exists content. apply am_lookup_insert_eq.
      + exists x. rewrite am_lookup_insert_ne by exact Hne. exact Hp. }
  destruct o as [s | s | src dest]; simpl; intros Ha.
  - intros p x Hp. exists x.
    unfold mkdirAll in Ha. destruct (_ && _).
    + injection Ha as <- _. exact Hp.
    + destruct (mkdirChain [] (resolve c s) f) as [f1 [errno |]] eqn:Hc;
        injection Ha as <- _; apply mkdirChain_subseteq in Hc; apply Hc; exact Hp.
  - eapply Hwrite; exact Ha.
  - destruct (render src NoData) as [content |].
    + eapply Hwrite; exact Ha.
    + injection Ha as <- _. intros p x Hp. exists x. exact Hp.
Qed.

Lemma runOps_frame `{Externals} (c : path) (ops : list fsop) (f : FS) :
  dirsKept f (fst (runOps c ops f)) /\
  filesStay f (fst (runOps c ops f)) /\
  forall p, untouched c ops p -> grown f (fst (runOps c ops f)) p.
Proof.
  revert f. induction ops as [| o ops IH]; intros f.
  - simpl. split; [intros q Hq; exact Hq |].
    split; [intros p x Hp; exists x; exact Hp |]. intros p _. apply grown_refl.
  - simpl. destruct (applyOp c o f) as [f1 [e |]] eqn:Ha; cbn [fst].
    + split; [eapply applyOp_dirsKept; exact Ha |].
      split; [eapply applyOp_filesStay; exact Ha |].
      intros p Hu. eapply applyOp_grown; [exact Ha |].
      intros q y Hw. eapply Hu; [left; reflexivity | exact Hw].
    + destruct (IH f1) as (Hd & Hf & Hg).
      split; [| split].
      * intros q Hq. apply Hd. eapply applyOp_dirsKept; [exact Ha | exact Hq].
      * intros p x Hp.
        destruct (applyOp_filesStay _ _ _ _ _ Ha p x Hp) as [y Hy].
        exact (Hf p y Hy).
      * intros p Hu. eapply grown_trans.
        -- eapply applyOp_grown; [exact Ha |].
           intros q y Hw. eapply Hu; [left; reflexivity | exact Hw].
        -- apply Hg. intros o' q y Ho' Hw. eapply Hu; [right; exact Ho' | exact Hw].
Qed.

Lemma createSkeleton_fs `{Externals} (ord : rangeOrder) (w : World) err w1 :
  createSkeleton ord w = Ret err w1 ->
  fs w1 = fst (runOps (cwd w) (skeletonOps ord w) (fs w)) /\
  cwd w1 = cwd w /\ viper w1 = viper w.
Proof.
  intros Hrun.
  destruct (createSkeleton_any ord w) as (e1 & w' & evs & Hr1 & Hfs & Hcwd & Hvip & _).
  rewrite Hrun in Hr1. injection Hr1 as <- <-. auto.
Qed.

(** X9.  Whether it succeeds or fails, and in whatever order its ranges
    run, createSkeleton removes nothing from the tree: a directory stays a
    directory and a regular file stays a regular file, whatever is written
    into it.  The working directory and the settings in memory are as
    before.  The file of the durable store, which is kept apart from the
    tree, is not covered. *)
Theorem createSkeleton_frame `{Externals} (ord : rangeOrder) (w w1 : World)
    (err : option error) :
  createSkeleton ord w = Ret err w1 ->
  cwd w1 = cwd w /\ viper w1 = viper w /\
  dirsKept (fs w) (fs w1) /\
  filesStay (fs w) (fs w1).
Proof.
  intros Hrun.
  destruct (createSkeleton_fs ord w err w1 Hrun) as (Hfs & Hcwd & Hvip).
  destruct (runOps_frame (cwd w) (skeletonOps ord w) (fs w)) as (Hd & Hf & _).
  rewrite Hfs. repeat split; assumption.
Qed.

Lemma createSkeleton_frame_witness :
  exists err w1,
    @createSkeleton sampleExternals listOrder worldModelsFile = Ret err w1 /\
    (exists y, fs w1 !! (home ++ ["models"]) = Some (File y)) /\
    dirsKept (fs worldModelsFile) (fs w1).
Proof.
  destruct (@createSkeleton_ops sampleExternals listOrder worldModelsFile)
    as [err [Hc _]].
  exists err. eexists. split; [exact Hc |].
  destruct (@createSkeleton_frame sampleExternals listOrder worldModelsFile _ _ Hc)
    as (_ & _ & Hd & Hf).
  split; [| exact Hd].
  apply (Hf (home ++ ["models"]) "notes"). reflexivity.
Defined.

(** A regular file in the place of a directory of the catalog makes
    createSkeleton fail in every order of its ranges: it returns an error,
    the path still holds a regular file, and the durable store is as it
    was. *)
Theorem createSkeleton_blocked `{Externals} (ord : rangeOrder) (w : World)
    (dir : string) (keep : bool) (x : string) :
  In (dir, keep) directoriesList ->
  fs w !! resolve (cwd w) dir = Some (File x) ->
  exists e w1,
    createSkeleton ord w = Ret (Some e) w1 /\
    store w1 = store w /\
    exists y, fs w1 !! resolve (cwd w) dir = Some (File y).
Proof.
  intros Hin Hfile.
  destruct (createSkeleton_ops ord w) as [err [Hr He]].
  destruct (runOps_frame (cwd w) (skeletonOps ord w) (fs w)) as (_ & Hf & _).
  destruct (Hf _ _ Hfile) as [y Hy].
  destruct (runOps (cwd w) (skeletonOps ord w) (fs w)) as [F [x0 |]] eqn:Hops;
    cbn [snd fst] in *.
  - destruct err as [e |]; [| contradiction He; reflexivity].
    exists e. eexists. split; [exact Hr |].
    destruct (after_fields (skeletonOps ord w) w) as (Hfs & _ & _ & Hst & _).
    split; [exact Hst |]. exists y. rewrite Hfs, Hops. exact Hy.
  - exfalso.
    pose proof (ops_dir_made ord w F dir keep Hops Hin) as Hd.
    rewrite Hy in Hd. discriminate Hd.
Qed.

Lemma createSkeleton_blocked_witness :
  exists e w1,
    @createSkeleton sampleExternals reverseOrder worldModelsFile = Ret (Some e) w1 /\
    store w1 = store worldModelsFile /\
    exists y, fs w1 !! resolve (cwd worldModelsFile) "models" = Some (File y).
Proof.
  apply (@createSkeleton_blocked sampleExternals reverseOrder worldModelsFile
           "models" true "notes").
  - unfold directoriesList. cbn [In]. tauto.
  - vm_compute. reflexivity.
Defined.

(** ** What a run that returns has done *)

Lemma orFatal_ret (m : M (option error)) (w w' : World) :
  orFatal m w = Ret tt w' -> m w = Ret None w'.
Proof.
  unfold orFatal. intros Hr. apply bind_Ret_inv in Hr as (err & w1 & Hm & Hr).
  destruct err as [e |].
  - unfold log_Fatal, bind, log_Println, modify, os_Exit in Hr. discriminate.
  - injection Hr as <-. exact Hm.
Qed.

Lemma writeLicense_ret `{Externals} (a l : string) (w w' : World) :
  writeLicense a l w = Ret None w' ->
  cwd w' = cwd w /\ viper w' = viper w /\ store w' = store w /\
  license w' = license w /\ language w' = language w /\ author w' = author w /\
  dirsKept (fs w) (fs w') /\
  (exists evs, trace w' = trace w ++ evs /\ forallb (fun e => negb (isExec e)) evs = true) /\
  (l <> "None" -> exists content, fs w' !! (cwd w ++ ["LICENSE"]) = Some (File content)).
Proof.
  unfold writeLicense. destruct (String.eqb_spec l "None") as [-> | Hne].
  - intros Hr. injection Hr as <-. repeat split.
    + intros q Hq. exact Hq.
    + exists []. split; [symmetry; apply app_nil_r | reflexivity].
    + intros Hn. contradiction.
  - unfold bind at 1. unfold gets at 1. unfold templates.Write.
    destruct (render _ _) as [content |]; [| discriminate].
    destruct (writeFile _ _ _ _) as [f' err] eqn:Hw.
    intros Hr. injection Hr as -> <-. cbn [cwd viper store license language author fs
                                            trace emit set_fs].
    repeat split.
    + eapply writeFile_dirsKept. exact Hw.
    + eexists. split; reflexivity.
    + intros _. exists content. apply writeFile_inv in Hw as (-> & _).
      rewrite resolve_LICENSE. apply am_lookup_insert_eq.
Qed.

Lemma quiet_not_exec (evs : list Event) :
  forallb quiet evs = true -> forallb (fun e => negb (isExec e)) evs = true.
Proof.
  rewrite !forallb_forall. intros Hq e He. specialize (Hq e He).
  destruct e; try reflexivity. discriminate Hq.
Qed.

Lemma opEvent_not_exec (ops : list fsop) :
  forallb (fun e => negb (isExec e)) (map opEvent ops) = true.
Proof.
  rewrite forallb_forall. intros e He. apply in_map_iff in He as [o [<- _]].
  destruct o; reflexivity.
Qed.

Lemma after_flags `{Externals} (ops : list fsop) (w : World) :
  author (after ops w) = author w /\ license (after ops w) = license w /\
  language (after ops w) = language w.
Proof.
  unfold after.
  destruct (emits_flags (map opEvent (attempted (cwd w) ops (fs w)))
              (set_fs (fst (runOps (cwd w) ops (fs w))) w)) as (-> & -> & -> & _).
  repeat split.
Qed.

(** When [init] returns, whatever the flags, the answers and the order of
    the ranges were: the durable store holds the settings, with the working
    directory as project root and a license and a language of the known
    ones; every directory of the catalog is a directory on disk; unless the
    license is None a LICENSE file is there; and the only commands run are
    [git init] followed by the whole commit plan, after the write of the
    store and as the last things done. *)
Theorem Run_returns `{Externals} (fuel : nat) (ord : rangeOrder) (w w' : World) :
  Run fuel ord w = Ret tt w' ->
  (store w' = viper w' /\
   store w' !! "ProjectRoot" = Some (pathString (cwd w)) /\
   store w' !! "Author" = Some (author w') /\
   store w' !! "License" = Some (license w') /\
   store w' !! "PrimaryLanguage" = Some (language w') /\
   In (license w') licenses /\ In (language w') Supported)
  /\ (forall dir keep, In (dir, keep) directoriesList ->
        fs w' !! resolve (cwd w) dir = Some Dir)
  /\ (license w' <> "None" ->
      exists content, fs w' !! (cwd w ++ ["LICENSE"]) = Some (File content))
  /\ exists pre,
       trace w' = trace w ++ pre ++ gitInit :: planEvents /\
       forallb (fun e => negb (isExec e)) pre = true /\
       In EvWriteConfig pre.
Proof.
  unfold Run. intros Hr.
  apply bind_Ret_inv in Hr as ([] & w1 & Hc & Hr).
  apply bind_Ret_inv in Hr as ([] & w2 & Hlog & Hr).
  unfold log_Println, modify in Hlog. injection Hlog as <-.
  apply bind_Ret_inv in Hr as ([] & w3 & Hsk & Hr).
  apply orFatal_ret in Hsk.
  apply bind_Ret_inv in Hr as (a & w3a & Ha & Hr).
  unfold gets in Ha. injection Ha as <- <-.
  apply bind_Ret_inv in Hr as (l & w3b & Hl & Hr).
  unfold gets in Hl. injection Hl as <- <-.
  apply bind_Ret_inv in Hr as ([] & w4 & Hwl & Hr).
  apply orFatal_ret in Hwl.
  apply bind_Ret_inv in Hr as ([] & w5 & Hlog & Hr).
  unfold log_Println, modify in Hlog. injection Hlog as <-.
  apply orFatal_ret in Hr.
  set (ws := emit (EvLog "Creating project skeleton...") w1) in *.
  set (wg := emit (EvLog "Initializing git repository...") w4) in *.
  (* the resolution *)
  destruct (configure_sets fuel w w1 Hc) as (Hroot & Hau & Hli & Hla & Hcw1).
  pose proof (talk_configure fuel w) as Ht. rewrite Hc in Ht.
  destruct Ht as (_ & _ & _ & _ & _ & evs1 & Htr1 & Hq1). cbn [final] in Htr1.
  assert (Hvalid : In (license w1) licenses /\ In (language w1) Supported).
  { unfold configure in Hc.
    apply bind_Ret_inv in Hc as ([] & wa & _ & Hc).
    apply bind_Ret_inv in Hc as ([] & wl & Hl & Hc).
    apply bind_Ret_inv in Hc as ([] & wla & Hg & Hc).
    apply resolveLicense_sets in Hl as [Hin _].
    apply resolveLanguage_sets in Hg as [Hing Hlic].
    apply setResolved_viper in Hc as (_ & _ & Hli' & Hla' & _).
    rewrite Hli', Hla', Hlic. split; assumption. }
  (* the skeleton *)
  destruct (createSkeleton_None ord ws w3 Hsk) as (He3 & _ & Hw3).
  destruct (after_fields (skeletonOps ord ws) ws) as (_ & Hcw3 & Hvip3 & _ & Htr3).
  destruct (after_flags (skeletonOps ord ws) ws) as (Hau3 & Hli3 & Hla3).
  rewrite (attempted_all _ _ _ He3) in Htr3.
  assert (Hdirs3 : forall dir keep, In (dir, keep) directoriesList ->
                     fs w3 !! resolve (cwd w) dir = Some Dir).
  { intros dir keep Hin. rewrite <- Hcw1.
    exact (skeleton_dir_made ord ws w3 dir keep Hsk Hin). }
  (* the license *)
  destruct (writeLicense_ret _ _ _ _ Hwl)
    as (Hcw4 & Hvip4 & Hst4 & Hli4 & Hla4 & Hau4 & Hk4 & (evs4 & Htr4 & Hq4) & Hfile4).
  (* the repository *)
  assert (Hw' : w' = emits (gitInit :: planEvents) wg).
  { destruct (initRepo_cases wg) as [[e [Hx _]] | (_ & _ & [[e Hx] | Hx])];
      rewrite Hx in Hr; [discriminate | discriminate |].
    injection Hr as <-. reflexivity. }
  destruct (emits_fields (gitInit :: planEvents) wg) as (Hfs' & _ & Hvip' & Hst').
  destruct (emits_flags (gitInit :: planEvents) wg) as (Hau' & Hli' & Hla' & _).
  assert (Est : store w' = viper w1).
  { rewrite Hw', Hst'. change (store wg) with (store w4). rewrite Hst4, Hw3. reflexivity. }
  assert (Evi : viper w' = viper w1).
  { rewrite Hw', Hvip'. change (viper wg) with (viper w4). rewrite Hvip4, Hw3.
    cbn [viper emit set_store]. exact Hvip3. }
  assert (Eli : license w' = license w1).
  { rewrite Hw', Hli'. change (license wg) with (license w4). rewrite Hli4, Hw3.
    cbn [license emit set_store]. exact Hli3. }
  assert (Ela : language w' = language w1).
  { rewrite Hw', Hla'. change (language wg) with (language w4). rewrite Hla4, Hw3.
    cbn [language emit set_store]. exact Hla3. }
  assert (Eau : author w' = author w1).
  { rewrite Hw', Hau'. change (author wg) with (author w4). rewrite Hau4, Hw3.
    cbn [author emit set_store]. exact Hau3. }
  assert (Efs : fs w' = fs w4) by (rewrite Hw', Hfs'; reflexivity).
  split; [| split; [| split]].
  - rewrite Est, Evi, Eli, Ela, Eau. destruct Hvalid. repeat split; assumption.
  - intros dir keep Hin. rewrite Efs. apply Hk4. exact (Hdirs3 dir keep Hin).
  - intros Hn. rewrite Efs. rewrite Eli in Hn.
    destruct Hfile4 as [content Hcontent].
    { rewrite Hw3. cbn [license emit set_store]. rewrite Hli3. exact Hn. }
    exists content. rewrite Hw3 in Hcontent. cbn [cwd emit set_store] in Hcontent.
    rewrite Hcw3 in Hcontent. change (cwd ws) with (cwd w1) in Hcontent.
    rewrite Hcw1 in Hcontent. exact Hcontent.
  - exists (evs1 ++ [EvLog "Creating project skeleton..."] ++
            map opEvent (skeletonOps ord ws) ++ [EvWriteConfig] ++ evs4 ++
            [EvLog "Initializing git repository..."]).
    split; [| split].
    + rewrite Hw', trace_emits. change (trace wg) with
        (trace w4 ++ [EvLog "Initializing git repository..."]).
      rewrite Htr4, Hw3. cbn [trace emit set_store]. rewrite Htr3.
      change (trace ws) with (trace w1 ++ [EvLog "Creating project skeleton..."]).
      rewrite Htr1. rewrite <- !app_assoc. reflexivity.
    + rewrite !forallb_app. rewrite (quiet_not_exec _ Hq1), opEvent_not_exec, Hq4.
      reflexivity.
    + apply in_or_app. right. apply in_or_app. right. apply in_or_app. right.
      left. reflexivity.
Qed.

Lemma Run_returns_witness :
  let w' := final (@Run sampleExternals 3 reverseOrder worldInteractiveTwo) in
  store w' !! "License" = Some "BSD-3-Clause" /\
  fs w' !! (home ++ ["LICENSE"]) <> None.
Proof.
  cbv zeta.
  assert (Hr : @Run sampleExternals 3 reverseOrder worldInteractiveTwo =
               Ret tt (final (@Run sampleExternals 3 reverseOrder worldInteractiveTwo)))
    by (apply returned_final; vm_compute; reflexivity).
  destruct (@Run_returns sampleExternals 3 reverseOrder worldInteractiveTwo _ Hr)
    as ((_ & _ & _ & Hli & _) & _ & Hfile & _).
  assert (Hl : license (final (@Run sampleExternals 3 reverseOrder worldInteractiveTwo))
               = "BSD-3-Clause") by (vm_compute; reflexivity).
  split.
  - rewrite Hli, Hl. reflexivity.
  - destruct Hfile as [content Hc]; [rewrite Hl; discriminate |].
    change (cwd worldInteractiveTwo) with home in Hc. rewrite Hc. discriminate.
Defined.

(** ** No panic, and no exit status but 0 and 1 *)

Lemma tidy_bind {A B} (m : M A) (k : A -> M B) :
  tidy m -> (forall a, tidy (k a)) -> tidy (bind m k).
Proof.
  intros Hm Hk w. unfold bind. specialize (Hm w).
  destruct (m w) as [a w1 | c w1 | w1 | w1]; try exact Hm. apply Hk.
Qed.

Lemma tidy_ret {A} (a : A) : tidy (ret a).
Proof. intros w. exact I. Qed.

Lemma tidy_gets {A} (f : World -> A) : tidy (gets f).
Proof. intros w. exact I. Qed.

Lemma tidy_modify (f : World -> World) : tidy (modify f).
Proof. intros w. exact I. Qed.

Lemma tidy_log_Fatal {A} (s : string) : tidy (@log_Fatal A s).
Proof. intros w. right. reflexivity. Qed.

Lemma tidy_returns {A} (m : M A) : (forall w, exists a w', m w = Ret a w') -> tidy m.
Proof. intros Hm w. destruct (Hm w) as (a & w' & ->). exact I. Qed.

Lemma tidy_viper_Set (k v : string) : tidy (viper_Set k v).
Proof. intros w. exact I. Qed.

Create HintDb tidy.

#[local] Hint Resolve tidy_ret tidy_gets tidy_modify tidy_log_Fatal tidy_viper_Set : tidy.

Lemma tidy_getInput `{Externals} : tidy getInput.
Proof.
  unfold getInput. apply tidy_bind; [apply tidy_gets |]. intros ni.
  apply tidy_bind; [destruct ni; auto with tidy |]. intros _.
  apply tidy_bind; [| intros; apply tidy_ret].
  intros w. exact I.
Qed.

Lemma tidy_printMenu (i : nat) (l : list string) : tidy (printMenu i l).
Proof.
  revert i. induction l as [| v l IH]; intros i; [apply tidy_ret |].
  simpl. apply tidy_bind; [apply tidy_modify | intros _; apply IH].
Qed.

Lemma tidy_confirmLoop `{Externals} (fuel : nat) : tidy (confirmLoop fuel).
Proof.
  induction fuel as [| fuel IH]; [intros w; exact I |].
  simpl. apply tidy_bind; [apply tidy_getInput |]. intros input.
  destruct (String.eqb input "y"); [apply tidy_ret |].
  destruct (_ || _).
  - intros w. left. reflexivity.
  - apply tidy_bind; [apply tidy_modify | intros _; exact IH].
Qed.

Lemma tidy_licenseLoop `{Externals} (c : string) (fuel : nat) : tidy (licenseLoop c fuel).
Proof.
  induction fuel as [| fuel IH]; [intros w; exact I |].
  cbn [licenseLoop]. apply tidy_bind; [apply tidy_modify |]. intros _.
  apply tidy_bind; [apply tidy_getInput |]. intros input.
  destruct (strconv.Atoi input) as [k |]; [| exact IH].
  destruct ((0 <? k)%Z && (k <=? Z.of_nat (length licenses))%Z) eqn:Hk; [| exact IH].
  destruct (licenses_lookup k) as [l ->]; [| apply tidy_modify].
  apply andb_true_iff in Hk as [H1 H2].
  apply Z.ltb_lt in H1. apply Z.leb_le in H2. lia.
Qed.

Lemma tidy_languageLoop `{Externals} (c : string) (fuel : nat) :
  Supported <> [] -> tidy (languageLoop c fuel).
Proof.
  intros Hne. induction fuel as [| fuel IH]; [intros w; exact I |].
  cbn [languageLoop]. apply tidy_bind; [apply tidy_modify |]. intros _.
  apply tidy_bind; [apply tidy_getInput |]. intros input.
  destruct (String.eqb input "").
  { destruct Supported as [| l0 ls]; [contradiction | apply tidy_modify]. }
  destruct (strconv.Atoi input) as [k |]; [| exact IH].
  destruct ((0 <? k)%Z && (k <=? Z.of_nat (length Supported))%Z) eqn:Hk; [| exact IH].
  apply andb_true_iff in Hk as [H1 H2].
  apply Z.ltb_lt in H1. apply Z.leb_le in H2.
  destruct (lookup_lt_is_Some_2 Supported (Z.to_nat (k - 1))) as [l ->];
    [lia | apply tidy_modify].
Qed.

Lemma string_length_append (a b : string) :
  String.length (a +:+ b) = (String.length a + String.length b)%nat.
Proof. induction a as [| x a IH]; [reflexivity |]. simpl. rewrite IH. reflexivity. Qed.

Lemma concat_length_head (x : string) (xs : list string) :
  (String.length x <= String.length (String.concat "" (x :: xs)))%nat.
Proof.
  destruct xs as [| y ys]; simpl; [lia |].
  rewrite string_length_append. lia.
Qed.

(** The list of choices of a non-empty menu is long enough to be trimmed. *)
Lemma choicesOf_length {A} (l : list A) (f : list A -> list string) :
  f l <> [] -> (2 <= String.length (choicesOf (f l)))%nat.
Proof.
  intros Hne. unfold choicesOf. destruct (f l) as [| x xs]; [contradiction |].
  cbn [length seq map].
  etransitivity; [| apply concat_length_head].
  rewrite string_length_append. simpl. lia.
Qed.

Lemma tidy_trimChoices (l : list string) : l <> [] -> tidy (trimChoices (choicesOf l)).
Proof.
  intros Hne w. unfold trimChoices.
  pose proof (choicesOf_length l (fun x => x) Hne) as Hlen.
  destruct (Nat.ltb_spec (String.length (choicesOf l)) 2); [lia | exact I].
Qed.

Lemma tidy_resolveLicense `{Externals} (fuel : nat) : tidy (resolveLicense fuel).
Proof.
  unfold resolveLicense. apply tidy_bind; [apply tidy_gets |]. intros l.
  destruct (String.eqb l "").
  - apply tidy_bind; [apply tidy_trimChoices; discriminate |]. intros c.
    apply tidy_bind; [apply tidy_modify |]. intros _.
    apply tidy_bind; [apply tidy_printMenu |]. intros _.
    apply tidy_licenseLoop.
  - destruct (negb _); auto with tidy.
Qed.

Lemma tidy_resolveLanguage `{Externals} (fuel : nat) :
  Supported <> [] -> tidy (resolveLanguage fuel).
Proof.
  intros Hne. unfold resolveLanguage. apply tidy_bind; [apply tidy_gets |]. intros l.
  destruct (String.eqb l "").
  - apply tidy_bind; [apply tidy_trimChoices; exact Hne |]. intros c.
    apply tidy_bind; [apply tidy_modify |]. intros _.
    apply tidy_bind; [apply tidy_printMenu |]. intros _.
    apply tidy_languageLoop. exact Hne.
  - destruct (negb _); auto with tidy.
Qed.

Lemma tidy_untilLicense `{Externals} (fuel : nat) : tidy (untilLicense fuel).
Proof.
  unfold untilLicense.
  apply tidy_bind.
  { unfold checkInitialized. apply tidy_bind; [apply tidy_gets |]. intros root.
    destruct (negb _); auto with tidy. }
  intros _. apply tidy_bind.
  { unfold confirmDirectory. apply tidy_bind; [apply tidy_gets |]. intros root.
    apply tidy_bind; [apply tidy_gets |]. intros [ls | err]; [| apply tidy_log_Fatal].
    apply tidy_bind; [apply tidy_gets |]. intros f.
    apply tidy_bind; [| intros; apply tidy_ret].
    destruct (_ && _); [| apply tidy_ret].
    apply tidy_bind; [apply tidy_modify | intros _; apply tidy_confirmLoop]. }
  intros root. apply tidy_bind; [apply tidy_viper_Set |]. intros _.
  unfold resolveAuthor. apply tidy_bind; [apply tidy_gets |]. intros a.
  destruct (String.eqb a ""); [| apply tidy_ret].
  apply tidy_bind; [apply tidy_modify |]. intros _.
  apply tidy_bind; [apply tidy_getInput | intros; apply tidy_modify].
Qed.

Lemma tidy_orFatal (m : M (option error)) :
  (forall w, exists err w', m w = Ret err w') -> tidy (orFatal m).
Proof.
  intros Hm. unfold orFatal. apply tidy_bind; [apply tidy_returns; exact Hm |].
  intros [e |]; auto with tidy.
Qed.

Lemma writeLicense_returns `{Externals} (a l : string) (w : World) :
  exists err w', writeLicense a l w = Ret err w'.
Proof.
  unfold writeLicense. destruct (String.eqb l "None"); [eexists _, _; reflexivity |].
  unfold bind, gets, templates.Write.
  destruct (render _ _); [| eexists _, _; reflexivity].
  destruct (writeFile _ _ _ _). eexists _, _; reflexivity.
Qed.

Lemma initRepo_returns (w : World) : exists err w', initRepo w = Ret err w'.
Proof.
  destruct (initRepo_cases w) as [[e [Hr _]] | (_ & _ & [[e Hr] | Hr])];
    rewrite Hr; eexists _, _; reflexivity.
Qed.

(** Where at least one language is supported, [init] does not panic, in
    whatever world it runs and whatever is typed: no slice or index
    expression goes out of range.  It returns, or it ends the process with
    status 0 or 1 (or is still prompting when its input budget is over). *)
Theorem Run_orderly `{Externals} (fuel : nat) (ord : rangeOrder) (w : World) :
  Supported <> [] ->
  orderly (Run fuel ord w).
Proof.
  intros Hne. revert w. change (tidy (Run fuel ord)). unfold Run.
  apply tidy_bind.
  { unfold configure. apply tidy_bind; [apply tidy_untilLicense |]. intros _.
    apply tidy_bind; [apply tidy_resolveLicense |]. intros _.
    apply tidy_bind; [apply tidy_resolveLanguage; exact Hne |]. intros _.
    unfold setResolved. repeat (apply tidy_bind; [auto with tidy | intros ?]).
    apply tidy_viper_Set. }
  intros _. apply tidy_bind; [apply tidy_modify |]. intros _.
  apply tidy_bind.
  { apply tidy_orFatal. intros w.
    destruct (createSkeleton_ops ord w) as [err [Hr _]]. rewrite Hr.
    eexists _, _. reflexivity. }
  intros _. apply tidy_bind; [apply tidy_gets |]. intros a.
  apply tidy_bind; [apply tidy_gets |]. intros l.
  apply tidy_bind; [apply tidy_orFatal; intros w; apply writeLicense_returns |].
  intros _. apply tidy_bind; [apply tidy_modify |]. intros _.
  apply tidy_orFatal. exact initRepo_returns.
Qed.

Lemma Run_orderly_witness :
  orderly (@Run sampleExternals 2 listOrder worldHesitant).
Proof.
  apply (@Run_orderly sampleExternals 2 listOrder worldHesitant).
  discriminate.
Defined.

(** ** strconv: what Itoa prints, Atoi reads *)

Ltac digit_value :=
  match goal with
  | |- context [strconv.digit ?c] =>
      let v := eval vm_compute in (strconv.digit c) in
      change (strconv.digit c) with v; cbv beta iota
  end.

Lemma digits_of_uint_acc (d : Decimal.uint) (acc : positive) :
  strconv.digits (Z.pos acc) (NilEmpty.string_of_uint d) =
    Some (Z.pos (Pos.of_uint_acc d acc)).
Proof.
  revert acc. induction d; intros acc; cbn [NilEmpty.string_of_uint Pos.of_uint_acc];
    [reflexivity | ..];
    cbn [strconv.digits]; digit_value; rewrite <- IHd; f_equal; lia.
Qed.

Lemma digits_of_uint (d : Decimal.uint) :
  strconv.digits 0 (NilEmpty.string_of_uint d) = Some (Z.of_N (Pos.of_uint d)).
Proof.
  induction d; cbn [NilEmpty.string_of_uint Pos.of_uint]; [reflexivity | ..];
    cbn [strconv.digits]; digit_value; [exact IHd | ..];
    cbn [Z.of_N]; rewrite <- digits_of_uint_acc; reflexivity.
Qed.

Lemma digits_to_uint (p : positive) :
  strconv.digits 0 (NilEmpty.string_of_uint (Pos.to_uint p)) = Some (Z.pos p).
Proof. rewrite digits_of_uint, DecimalPos.Unsigned.of_to. reflexivity. Qed.

(** The rendering of a positive number starts with a digit: it is not
    empty and has no sign. *)
Lemma string_of_uint_head (d : Decimal.uint) :
  d <> Decimal.Nil ->
  exists c s, NilEmpty.string_of_uint d = String c s /\
              Ascii.eqb c "-" = false /\ Ascii.eqb c "+" = false.
Proof.
  intros Hne. destruct d; [contradiction | ..]; eexists _, _; repeat split.
Qed.

Lemma NilZero_to_uint (p : positive) :
  NilZero.string_of_uint (Pos.to_uint p) = NilEmpty.string_of_uint (Pos.to_uint p).
Proof.
  pose proof (DecimalPos.Unsigned.to_uint_nonnil p) as Hne.
  unfold NilZero.string_of_uint. destruct (Pos.to_uint p); [contradiction | ..]; reflexivity.
Qed.

Lemma Atoi_Itoa (z : Z) :
  (strconv.minInt <= z <= strconv.maxInt)%Z -> strconv.Atoi (strconv.Itoa z) = Some z.
Proof.
  intros Hz. unfold strconv.Itoa. destruct z as [| p | p].
  - reflexivity.
  - cbn [Z.to_int NilZero.string_of_int]. rewrite NilZero_to_uint.
    destruct (string_of_uint_head (Pos.to_uint p)
                (DecimalPos.Unsigned.to_uint_nonnil p)) as (c & s & Hs & Hm & Hp).
    pose proof (digits_to_uint p) as Hd. rewrite Hs in Hd |- *.
    unfold strconv.Atoi. rewrite Hm, Hp. cbn [orb]. rewrite Hd.
    destruct (Z.leb_spec strconv.minInt (Z.pos p)); [| lia].
    destruct (Z.leb_spec (Z.pos p) strconv.maxInt); [| lia]. reflexivity.
  - cbn [Z.to_int NilZero.string_of_int]. rewrite NilZero_to_uint.
    destruct (string_of_uint_head (Pos.to_uint p)
                (DecimalPos.Unsigned.to_uint_nonnil p)) as (c & s & Hs & _).
    pose proof (digits_to_uint p) as Hd. rewrite Hs in Hd |- *.
    unfold strconv.Atoi. cbn [Ascii.eqb Bool.eqb andb orb]. rewrite Hd.
    change (- Z.pos p)%Z with (Z.neg p).
    destruct (Z.leb_spec strconv.minInt (Z.neg p)); [| lia].
    destruct (Z.leb_spec (Z.neg p) strconv.maxInt); [| lia]. reflexivity.
Qed.

Lemma Itoa_not_empty (z : Z) : strconv.Itoa z <> "".
Proof.
  unfold strconv.Itoa. destruct z as [| p | p]; [discriminate | | discriminate].
  cbn [Z.to_int NilZero.string_of_int]. rewrite NilZero_to_uint.
  destruct (string_of_uint_head (Pos.to_uint p)
              (DecimalPos.Unsigned.to_uint_nonnil p)) as (c & s & -> & _).
  discriminate.
Qed.

Lemma printMenu_lines (i : nat) (l : list string) (w : World) :
  printMenu i l w =
    Ret tt (emits (imap (fun j v => EvPrint (strconv.Itoa (Z.of_nat (i + j + 1))
                                             +:+ " - " +:+ v +:+ nl)) l) w).
Proof.
  revert i w. induction l as [| v l IH]; intros i w; [reflexivity |].
  cbn [printMenu imap]. unfold bind at 1. unfold fmt_Print, modify.
  rewrite IH. cbn [emits fold_left]. rewrite Nat.add_0_r.
  unfold emits. f_equal. f_equal. apply imap_ext. intros j x _. cbn.
  replace (i + S j + 1)%nat with (S i + j + 1)%nat by lia. reflexivity.
Qed.

(** The menus and the prompts agree on the numbers: the menu prints
    [Itoa(i+1)] beside the entry of index [i], what [Itoa] prints [Atoi]
    reads back as the same number over the whole range of [int], and so an
    answer that is the number printed beside an entry selects that very
    entry, at the license prompt and at the language prompt. *)
Theorem menu_number_selects `{Externals} (c : string) (fuel i : nat) (w : World) :
  nonInteractive w = false ->
  answer w 0 = strconv.Itoa (Z.of_nat (i + 1)) ->
  (Z.of_nat (i + 1) <= strconv.maxInt)%Z ->
  (forall l, licenses !! i = Some l ->
     In (EvPrint (strconv.Itoa (Z.of_nat (i + 1)) +:+ " - " +:+ l +:+ nl))
        (trace (final (printMenu 0 licenses w))) /\
     licenseLoop c (S fuel) w =
       Ret tt (set_license l (prompted ("Choose " +:+ c +:+ ": ") w)))
  /\ (forall l, Supported !! i = Some l ->
     In (EvPrint (strconv.Itoa (Z.of_nat (i + 1)) +:+ " - " +:+ l +:+ nl))
        (trace (final (printMenu 0 Supported w))) /\
     languageLoop c (S fuel) w =
       Ret tt (set_language l (prompted ("Choose " +:+ c +:+ " [1]: ") w))).
Proof.
  intros Hni Hans Hmax.
  unfold answer in Hans. rewrite Nat.add_0_r in Hans.
  assert (Hatoi : strconv.Atoi (Chomp (stdin w (reads w))) = Some (Z.of_nat (i + 1))).
  { rewrite Hans. apply Atoi_Itoa. unfold strconv.minInt. lia. }
  assert (Hidx : Z.to_nat (Z.of_nat (i + 1) - 1) = i) by lia.
  assert (Hprinted : forall (m : list string) l, m !! i = Some l ->
            In (EvPrint (strconv.Itoa (Z.of_nat (i + 1)) +:+ " - " +:+ l +:+ nl))
               (trace (final (printMenu 0 m w)))).
  { intros m l Hl. rewrite printMenu_lines. cbn [final]. rewrite trace_emits.
    apply in_or_app. right. apply list_elem_of_In.
    apply list_elem_of_lookup. exists i.
    rewrite list_lookup_imap, Hl. reflexivity. }
  split; intros l Hl; (split; [exact (Hprinted _ l Hl) |]).
  - rewrite licenseLoop_step by exact Hni. cbv zeta. rewrite Hatoi, Hidx, Hl.
    pose proof (lookup_lt_Some _ _ _ Hl) as Hlt.
    destruct (Z.ltb_spec 0 (Z.of_nat (i + 1))); [| lia].
    destruct (Z.leb_spec (Z.of_nat (i + 1)) (Z.of_nat (length licenses))); [| lia].
    reflexivity.
  - cbn [languageLoop]. unfold bind at 1. unfold fmt_Print, modify.
    unfold bind at 1. rewrite getInput_interactive by exact Hni.
    cbn [stdin reads emit]. rewrite Hatoi, Hans.
    destruct (String.eqb_spec (strconv.Itoa (Z.of_nat (i + 1))) "") as [E | _].
    { exfalso. exact (Itoa_not_empty _ E). }
    rewrite Hidx, Hl.
    pose proof (lookup_lt_Some _ _ _ Hl) as Hlt.
    destruct (Z.ltb_spec 0 (Z.of_nat (i + 1))); [| lia].
    destruct (Z.leb_spec (Z.of_nat (i + 1)) (Z.of_nat (length Supported))); [| lia].
    reflexivity.
Qed.

Lemma menu_number_selects_witness :
  @licenseLoop sampleExternals "1, 2, 3" 1 (set_reads 1 worldInteractiveTwo) =
    Ret tt (set_license "BSD-3-Clause"
              (prompted "Choose 1, 2, 3: " (set_reads 1 worldInteractiveTwo))).
Proof.
  apply (proj1 (@menu_number_selects sampleExternals "1, 2, 3" 0 1
                  (set_reads 1 worldInteractiveTwo) eq_refl eq_refl
                  ltac:(vm_compute; discriminate)) "BSD-3-Clause").
  reflexivity.
Defined.

(** ** path/filepath: Clean computes the path that is resolved *)

Lemma append_nil_r (s : string) : s +:+ "" = s.
Proof.
  induction s as [| c s IH]; [reflexivity |].
  change (String c (s +:+ "") = String c s). rewrite IH. reflexivity.
Qed.

Lemma chars_app (a b : string) :
  list_ascii_of_string (a +:+ b) = list_ascii_of_string a ++ list_ascii_of_string b.
Proof.
  induction a as [| c a IH]; [reflexivity |].
  change (c :: list_ascii_of_string (a +:+ b) =
          c :: list_ascii_of_string a ++ list_ascii_of_string b).
  rewrite IH. reflexivity.
Qed.

Lemma concat_cons (x : string) (xs : list string) :
  String.concat "" (x :: xs) = x +:+ String.concat "" xs.
Proof.
  destruct xs as [| y ys]; cbn [String.concat]; [symmetry; apply append_nil_r |].
  reflexivity.
Qed.

Lemma pathString_chars (p : path) :
  list_ascii_of_string (pathString p) =
    match p with [] => ["/"%char] | _ => render0 p end.
Proof.
  destruct p as [| n p]; [reflexivity |].
  unfold pathString. generalize (n :: p). clear. intros l.
  induction l as [| x l IH]; [reflexivity |].
  cbn [map]. rewrite concat_cons, !chars_app, IH. reflexivity.
Qed.

Lemma render0_app (a b : path) : render0 (a ++ b) = render0 a ++ render0 b.
Proof. unfold render0. apply flat_map_app. Qed.

Lemma sep_is_slash (c : ascii) : filepath.IsPathSeparator c = true -> c = "/"%char.
Proof. unfold filepath.IsPathSeparator. apply Ascii.eqb_eq. Qed.

Lemma components_sep (cur s : string) :
  components cur (String "/" s) = cur :: components "" s.
Proof. reflexivity. Qed.

Lemma components_cur (cur s : string) :
  components cur s =
    match components "" s with
    | [] => []
    | e :: tl => (cur +:+ e) :: tl
    end.
Proof.
  revert cur. induction s as [| c s IH]; intros cur.
  - cbn. rewrite append_nil_r. reflexivity.
  - cbn [components]. destruct (filepath.IsPathSeparator c).
    + rewrite append_nil_r. reflexivity.
    + rewrite (IH (cur +:+ String c "")), (IH ("" +:+ String c "")).
      destruct (components "" s) as [| e tl]; [reflexivity |].
      rewrite append_assoc. reflexivity.
Qed.

(** An element of a path: bytes without a separator, up to the end or to
    a separator. *)
Lemma split_elem (p : list ascii) :
  exists n r, p = n ++ r /\ plain n /\ (r = [] \/ exists r', r = "/"%char :: r').
Proof.
  induction p as [| c p (n & r & Hp & Hn & Hr)].
  - exists [], []. split; [reflexivity |]. split; [constructor | left; reflexivity].
  - destruct (filepath.IsPathSeparator c) eqn:Hc.
    + exists [], (c :: p). split; [reflexivity |]. split; [constructor |].
      right. exists p. rewrite (sep_is_slash c Hc). reflexivity.
    + exists (c :: n), r. split; [rewrite Hp; reflexivity |].
      split; [constructor; assumption | exact Hr].
Qed.

Lemma components_elem (n r : list ascii) :
  plain n -> (r = [] \/ exists r', r = "/"%char :: r') ->
  components "" (string_of_list_ascii (n ++ r)) =
    string_of_list_ascii n ::
    match r with
    | [] => []
    | _ :: r' => components "" (string_of_list_ascii r')
    end.
Proof.
  intros Hn Hr. induction Hn as [| c n Hc Hn IH].
  - destruct Hr as [-> | [r' ->]]; reflexivity.
  - cbn [app string_of_list_ascii components]. rewrite Hc.
    rewrite components_cur, IH. reflexivity.
Qed.

Lemma copyElement_elem (n r o : list ascii) :
  plain n -> (r = [] \/ exists r', r = "/"%char :: r') ->
  filepath.copyElement (n ++ r) o = (r, rev n ++ o).
Proof.
  intros Hn Hr. revert o. induction Hn as [| c n Hc Hn IH]; intros o.
  - destruct Hr as [-> | [r' ->]]; reflexivity.
  - cbn [app filepath.copyElement]. rewrite Hc, IH.
    cbn [rev]. rewrite <- app_assoc. reflexivity.
Qed.

Lemma walk_app (b : path) (x y : list string) : walk b (x ++ y) = walk (walk b x) y.
Proof.
  revert b. induction x as [| n x IH]; intros b; [reflexivity |].
  cbn [app walk]. destruct (_ || _); [apply IH |].
  destruct (String.eqb n ".."); apply IH.
Qed.

Lemma walk_sane (b : path) (n : string) (x : list string) :
  saneName n -> walk b (n :: x) = walk (b ++ [n]) x.
Proof.
  intros (H0 & H1 & H2 & _). cbn [walk].
  destruct (String.eqb_spec n ""); [contradiction |].
  destruct (String.eqb_spec n "."); [contradiction |].
  destruct (String.eqb_spec n ".."); [contradiction |]. reflexivity.
Qed.

Lemma walk_all_sane (b : path) (x : list string) :
  Forall saneName x -> walk b x = b ++ x.
Proof.
  intros Hx. revert b. induction Hx as [| n x Hn Hx IH]; intros b.
  - symmetry. apply app_nil_r.
  - rewrite (walk_sane b n x Hn), IH, <- app_assoc. reflexivity.
Qed.

(** After a separator, or at the end, the rest leads where its elements
    lead. *)
Lemma leads_tail (stack : path) (r : list ascii) :
  (r = [] \/ exists r', r = "/"%char :: r') ->
  leads stack r =
    walk stack match r with
               | [] => []
               | _ :: r' => components "" (string_of_list_ascii r')
               end.
Proof. intros [-> | [r' ->]]; reflexivity. Qed.

Lemma backtrack_elem (d : ascii) (m R : list ascii) :
  filepath.IsPathSeparator d = false -> plain m ->
  filepath.backtrack 1 d (m ++ "/"%char :: R) =
    match R with [] => ["/"%char] | _ => R end.
Proof.
  intros Hd Hm. revert d Hd. induction Hm as [| c m Hc Hm IH]; intros d Hd.
  - cbn [app filepath.backtrack length]. rewrite Hd. cbn [negb].
    destruct R as [| x R']; [reflexivity |].
    cbn [length Nat.ltb Nat.leb andb filepath.backtrack].
    change (filepath.IsPathSeparator "/") with true. cbn [negb].
    rewrite andb_false_r. reflexivity.
  - cbn [app filepath.backtrack]. rewrite Hd. cbn [negb].
    assert (Hlen : (1 <? length (c :: m ++ "/"%char :: R))%nat = true).
    { apply Nat.ltb_lt. cbn [length]. rewrite length_app. cbn [length]. lia. }
    rewrite Hlen. cbn [andb]. apply IH. exact Hc.
Qed.

Lemma render0_nil (p : path) : render0 p = [] -> p = [].
Proof. destruct p; [reflexivity | discriminate]. Qed.

Lemma plain_rev (n : list ascii) : plain n -> plain (rev n).
Proof. unfold plain. rewrite !List.Forall_forall. intros Hn c Hc. apply Hn, in_rev, Hc. Qed.

Lemma chars_nil (s : string) : list_ascii_of_string s = [] -> s = "".
Proof. destruct s; [reflexivity | discriminate]. Qed.

Lemma buffered_length (stack : path) (st : filepath.cleanState) :
  buffered stack st ->
  (length (filepath.out st) =? 1)%nat = match stack with [] => true | _ => false end.
Proof.
  intros (Hout & _ & Hs). rewrite Hout, length_rev, pathString_chars.
  destruct stack as [| n p]; [reflexivity |].
  apply Forall_inv in Hs. destruct Hs as (Hne & _).
  cbn [render0 flat_map length]. rewrite length_app.
  destruct (list_ascii_of_string n) eqn:Hn; [apply chars_nil in Hn; contradiction |].
  reflexivity.
Qed.

(** One iteration of the loop of [Clean] on a rooted path keeps the buffer
    the string of a directory, and the place the whole input leads to. *)
Lemma cleanStep_leads (stack : path) (st : filepath.cleanState) :
  buffered stack st ->
  exists stack',
    buffered stack' (filepath.cleanStep true st) /\
    leads stack' (filepath.rest (filepath.cleanStep true st)) =
      leads stack (filepath.rest st).
Proof.
  intros Hb. pose proof Hb as (Hout & Hdd & Hs).
  unfold filepath.cleanStep.
  destruct (filepath.rest st) as [| c p1] eqn:Hrest.
  { exists stack. rewrite Hrest. split; [exact Hb | reflexivity]. }
  destruct (filepath.IsPathSeparator c) eqn:Hc.
  { (* empty path element *)
    exists stack. cbn [filepath.rest]. split; [exact Hb |].
    rewrite (sep_is_slash c Hc). reflexivity. }
  destruct (Ascii.eqb c "." &&
            match p1 with [] => true | c1 :: _ => filepath.IsPathSeparator c1 end) eqn:Hdot.
  { (* . element *)
    exists stack. cbn [filepath.rest]. split; [exact Hb |].
    apply andb_true_iff in Hdot as [Hc1 Hp1]. apply Ascii.eqb_eq in Hc1. subst c.
    destruct p1 as [| c1 p2]; [reflexivity |].
    rewrite (sep_is_slash c1 Hp1). reflexivity. }
  destruct (Ascii.eqb c "." &&
            match p1 with
            | c1 :: p2 =>
                Ascii.eqb c1 "." &&
                match p2 with [] => true | c2 :: _ => filepath.IsPathSeparator c2 end
            | [] => false
            end) eqn:Hdd2.
  { (* .. element *)
    apply andb_true_iff in Hdd2 as [Hc1 Hp1]. apply Ascii.eqb_eq in Hc1. subst c.
    destruct p1 as [| c1 p2]; [discriminate |].
    apply andb_true_iff in Hp1 as [Hc1 Hp2]. apply Ascii.eqb_eq in Hc1. subst c1.
    cbn [tl]. exists (removelast stack).
    assert (Hleads : leads (removelast stack) p2 = leads stack ("."%char :: "."%char :: p2)).
    { destruct p2 as [| c2 p3]; [reflexivity |].
      rewrite (sep_is_slash c2 Hp2). reflexivity. }
    assert (Hsane : Forall saneName (removelast stack)).
    { apply List.Forall_forall. intros n Hn. rewrite List.Forall_forall in Hs. apply Hs.
      destruct stack as [| a stack']; [contradiction |].
      pose proof (@app_removelast_last _ (a :: stack') "" ltac:(discriminate)) as E.
      rewrite E. apply in_or_app. left. exact Hn. }
    destruct stack as [| a stack'] using rev_ind.
    - (* at the root *)
      rewrite Hdd, Hout. cbn. split; [| exact Hleads].
      split; [reflexivity |]. split; [reflexivity | constructor].
    - clear IHstack'. rewrite removelast_last in *.
      apply List.Forall_app in Hs as [_ Ha]. apply Forall_inv in Ha.
      destruct Ha as (Hne & _ & _ & Hpl).
      assert (Hchars : filepath.out st =
                rev (list_ascii_of_string a) ++ "/"%char :: rev (render0 stack')).
      { rewrite Hout, pathString_chars.
        destruct (stack' ++ [a]) eqn:E; [destruct stack'; discriminate |].
        rewrite <- E, render0_app. cbn [render0 flat_map]. rewrite app_nil_r.
        rewrite rev_app_distr. cbn [rev]. rewrite <- app_assoc. reflexivity. }
      destruct (rev (list_ascii_of_string a)) as [| d m] eqn:Hrev.
      { apply (f_equal (@rev ascii)) in Hrev. rewrite rev_involutive in Hrev.
        apply chars_nil in Hrev. contradiction. }
      assert (Hplr : plain (d :: m)) by (rewrite <- Hrev; apply plain_rev, Hpl).
      rewrite Hdd, Hchars.
      assert (Hlen : (1 <? length ((d :: m) ++ "/"%char :: rev (render0 stack')))%nat = true).
      { apply Nat.ltb_lt. cbn [app length]. rewrite length_app. cbn [length]. lia. }
      rewrite Hlen. cbn [app].
      rewrite (backtrack_elem d m _ (Forall_inv Hplr) (Forall_inv_tail Hplr)).
      split; [| exact Hleads]. split; [| split; [reflexivity | exact Hsane]].
      cbn [filepath.out]. rewrite pathString_chars.
      destruct stack' as [| b stack'']; [reflexivity |].
      destruct (rev (render0 (b :: stack''))) eqn:E; [| reflexivity].
      apply (f_equal (@rev ascii)) in E. rewrite rev_involutive in E. discriminate E. }
  (* real path element *)
  cbv zeta. cbn [andb negb orb].
  rewrite orb_false_r.
  destruct (split_elem p1) as (n' & r & Hp1 & Hn' & Hr).
  assert (Hn : plain (c :: n')) by (constructor; assumption).
  assert (Hsplit : c :: p1 = (c :: n') ++ r) by (rewrite Hp1; reflexivity).
  rewrite Hsplit, (copyElement_elem (c :: n') r _ Hn Hr).
  set (e := string_of_list_ascii (c :: n')).
  assert (He : saneName e).
  { unfold e. split; [discriminate |]. split; [| split].
    - intros E. injection E as -> E. destruct n'; [| discriminate].
      cbn [app] in Hp1. subst p1.
      destruct Hr as [-> | [r' ->]]; discriminate Hdot.
    - intros E. injection E as -> E.
      destruct n' as [| c1 [| ? ?]]; try discriminate. injection E as ->.
      cbn [app] in Hp1. subst p1.
      destruct Hr as [-> | [r' ->]]; discriminate Hdd2.
    - rewrite list_ascii_of_string_of_list_ascii. exact Hn. }
  exists (stack ++ [e]). cbn [filepath.rest filepath.out filepath.dotdot]. split.
  - split; [| split; [exact Hdd | apply List.Forall_app; split; [exact Hs | constructor; [exact He | constructor]]]].
    rewrite (buffered_length stack st Hb), Hout, !pathString_chars.
    destruct (stack ++ [e]) eqn:E; [destruct stack; discriminate |]. rewrite <- E.
    rewrite render0_app. cbn [render0 flat_map]. rewrite app_nil_r.
    unfold e. rewrite list_ascii_of_string_of_list_ascii.
    rewrite rev_app_distr. cbn [rev].
    destruct stack as [| a stack']; cbn [negb];
      rewrite <- !app_assoc; reflexivity.
  - unfold leads at 2. rewrite (components_elem (c :: n') r Hn Hr).
    fold e. rewrite (walk_sane stack e _ He). apply leads_tail. exact Hr.
Qed.

Lemma cleanLoop_leads (fuel : nat) (stack : path) (st : filepath.cleanState) :
  buffered stack st ->
  exists stack',
    buffered stack' (filepath.cleanLoop fuel true st) /\
    leads stack' (filepath.rest (filepath.cleanLoop fuel true st)) =
      leads stack (filepath.rest st).
Proof.
  revert stack st. induction fuel as [| fuel IH]; intros stack st Hb.
  - exists stack. split; [exact Hb | reflexivity].
  - cbn [filepath.cleanLoop]. destruct (filepath.rest st) as [| c p] eqn:Hrest.
    + exists stack. rewrite Hrest. split; [exact Hb | reflexivity].
    + destruct (cleanStep_leads stack st Hb) as (s1 & Hb1 & Hl1).
      destruct (IH s1 _ Hb1) as (s2 & Hb2 & Hl2).
      exists s2. split; [exact Hb2 |]. rewrite Hl2, Hl1, Hrest. reflexivity.
Qed.

(** Every name of a resolved path is a plain one. *)
Lemma walk_keeps_sane (b : path) (x : list string) :
  Forall saneName b ->
  Forall (fun n => plain (list_ascii_of_string n)) x ->
  Forall saneName (walk b x).
Proof.
  intros Hb Hx. revert b Hb. induction Hx as [| n x Hn Hx IH]; intros b Hb; [exact Hb |].
  cbn [walk].
  destruct (String.eqb_spec n ""); [apply IH, Hb |].
  destruct (String.eqb_spec n "."); [apply IH, Hb |]. cbn [orb].
  destruct (String.eqb_spec n "..").
  - apply IH. apply List.Forall_forall. intros m Hm. rewrite List.Forall_forall in Hb. apply Hb.
    destruct b as [| a b']; [contradiction |].
    pose proof (@app_removelast_last _ (a :: b') "" ltac:(discriminate)) as E.
    rewrite E. apply in_or_app. left. exact Hm.
  - apply IH. apply List.Forall_app. split; [exact Hb |].
    constructor; [| constructor]. repeat split; assumption.
Qed.

(** [filepath.Clean] of an absolute path is the canonical string of the
    place the path resolves to: no empty, [.] or [..] element is left, and
    [..] never climbs above the root. *)
Lemma Clean_canonical (c : path) (s : string) :
  filepath.IsAbs s = true -> filepath.Clean s = pathString (resolve c s).
Proof.
  intros Habs. unfold resolve. rewrite Habs.
  destruct s as [| a s1]; [discriminate |]. cbn [filepath.IsAbs] in Habs.
  rewrite (sep_is_slash a Habs). rewrite components_sep.
  change (walk [] ("" :: components "" s1)) with (walk [] (components "" s1)).
  unfold filepath.Clean. cbn [list_ascii_of_string].
  change (filepath.IsPathSeparator "/") with true. cbv iota.
  set (st0 := filepath.CleanState (list_ascii_of_string s1) [filepath.Separator] 1).
  assert (Hb0 : buffered [] st0) by (repeat split; constructor).
  destruct (cleanLoop_leads (length ("/"%char :: list_ascii_of_string s1)) [] st0 Hb0)
    as (stack & (Hout & _ & _) & Hl).
  rewrite (cleanLoop_done _ true st0) in Hl by (cbn; lia).
  cbn [filepath.rest st0] in Hl. unfold leads in Hl.
  rewrite string_of_list_ascii_of_string in Hl.
  change (walk stack (components "" (string_of_list_ascii []))) with stack in Hl.
  rewrite <- Hl, Hout.
  destruct (rev (list_ascii_of_string (pathString stack))) as [| x o] eqn:E.
  { apply (f_equal (@rev ascii)) in E. rewrite rev_involutive in E.
    apply chars_nil in E. destruct stack as [| ? [| ? ?]]; discriminate E. }
  rewrite <- E, rev_involutive. apply string_of_list_ascii_of_string.
Qed.

Lemma components_plain (cur s : string) :
  plain (list_ascii_of_string cur) ->
  Forall (fun n => plain (list_ascii_of_string n)) (components cur s).
Proof.
  revert cur. induction s as [| c s IH]; intros cur Hcur.
  - constructor; [exact Hcur | constructor].
  - cbn [components]. destruct (filepath.IsPathSeparator c) eqn:Hc.
    + constructor; [exact Hcur |]. apply IH. constructor.
    + apply IH. rewrite chars_app. apply List.Forall_app. split; [exact Hcur |].
      constructor; [exact Hc | constructor].
Qed.

Lemma resolve_sane (c : path) (s : string) :
  Forall saneName c -> Forall saneName (resolve c s).
Proof.
  intros Hc. unfold resolve. apply walk_keeps_sane.
  - destruct (filepath.IsAbs s); [constructor | exact Hc].
  - apply components_plain. constructor.
Qed.

Lemma components_render0 (p : path) :
  Forall saneName p ->
  match render0 p with
  | [] => p = []
  | _ :: r => components "" (string_of_list_ascii r) = p
  end.
Proof.
  intros Hp. induction Hp as [| n p Hn Hp IH]; [reflexivity |].
  cbn [render0 flat_map]. fold (render0 p).
  destruct Hn as (_ & _ & _ & Hpl). cbn [app].
  rewrite components_elem; [| exact Hpl |].
  - rewrite string_of_list_ascii_of_string. f_equal.
    destruct (render0 p) as [| x r]; [symmetry; exact IH | exact IH].
  - destruct p as [| m p']; [left; reflexivity |].
    right. eexists. reflexivity.
Qed.

(** The string [os.Getwd] gives for a directory leads back to it. *)
Lemma resolve_pathString (c p : path) :
  Forall saneName p -> resolve c (pathString p) = p.
Proof.
  intros Hp. unfold resolve. rewrite pathString_abs.
  destruct p as [| n p']; [reflexivity |].
  rewrite <- (string_of_list_ascii_of_string (pathString (n :: p'))).
  rewrite pathString_chars.
  pose proof (components_render0 (n :: p') Hp) as Hc.
  cbn [render0 flat_map] in Hc |- *. fold (render0 p') in Hc |- *.
  cbn [app] in Hc |- *. cbn [string_of_list_ascii]. rewrite components_sep, Hc.
  change (walk [] ("" :: n :: p')) with (walk [] (n :: p')).
  apply (walk_all_sane [] (n :: p') Hp).
Qed.

Lemma components_join (cur a b : string) :
  components cur (a +:+ String "/" b) = components cur a ++ components "" b.
Proof.
  revert cur. induction a as [| x a IH]; intros cur; [reflexivity |].
  change (String x a +:+ String "/" b) with (String x (a +:+ String "/" b)).
  cbn [components]. destruct (filepath.IsPathSeparator x); rewrite IH; reflexivity.
Qed.

Lemma IsAbs_append (a b : string) :
  filepath.IsAbs a = true -> filepath.IsAbs (a +:+ b) = true.
Proof. destruct a; [discriminate | intros Ha; exact Ha]. Qed.

(** Joining a name to an absolute root gives the canonical string of the
    place the name leads to from the root. *)
Lemma Join_canonical (c : path) (root name : string) :
  filepath.IsAbs root = true ->
  filepath.Join [root; name] =
    pathString (walk (resolve c root) (components "" name)).
Proof.
  intros Habs. destruct root as [| x r]; [discriminate |].
  cbn [filepath.Join String.eqb String.concat].
  change (String x r +:+ "/" +:+ name) with (String x r +:+ String "/" name).
  rewrite (Clean_canonical c) by (apply IsAbs_append; exact Habs).
  unfold resolve. rewrite (IsAbs_append _ _ Habs), Habs.
  rewrite components_join, walk_app. reflexivity.
Qed.

(** ** package paths: the destinations under the project root *)

(** X14.  For an absolute root string, the three functions of package
    paths return the cleaned root followed by [docker-compose.yml],
    [Dockerfile] and [src/scripts].  The cleaning is the one of
    filepath.Clean, on the string alone: doubled and trailing separators and
    [.] elements are dropped, and a [..] element is cancelled against the
    element before it, which is not the parent directory when that element
    is a symbolic link; so for a root with [..] elements the theorem says
    what the strings are, not where they lead.  When the root is the name
    [os.Getwd] reports for a directory (absolute, with no empty, [.] or [..]
    element), the cleaned root is that name, and from any working directory
    the three results name the entries directly under that directory. *)
Theorem paths_under_root (c : path) (rootPath : string) :
  filepath.IsAbs rootPath = true ->
  let root := resolve c rootPath in
  filepath.Clean rootPath = pathString root
  /\ (paths.DockerCompose rootPath = pathString (root ++ ["docker-compose.yml"]) /\
      paths.Dockerfile rootPath = pathString (root ++ ["Dockerfile"]) /\
      paths.Scripts rootPath = pathString (root ++ ["src"; "scripts"]))
  /\ (forall p : path, Forall saneName p -> rootPath = pathString p ->
        root = p /\
        forall c' : path,
          resolve c' (paths.DockerCompose rootPath) = p ++ ["docker-compose.yml"] /\
          resolve c' (paths.Dockerfile rootPath) = p ++ ["Dockerfile"] /\
          resolve c' (paths.Scripts rootPath) = p ++ ["src"; "scripts"]).
Proof.
  intros Habs root.
  assert (Hnames : paths.DockerCompose rootPath = pathString (root ++ ["docker-compose.yml"]) /\
                   paths.Dockerfile rootPath = pathString (root ++ ["Dockerfile"]) /\
                   paths.Scripts rootPath = pathString (root ++ ["src"; "scripts"])).
  { unfold paths.DockerCompose, paths.Dockerfile, paths.Scripts.
    rewrite !(Join_canonical c) by exact Habs. fold root.
    repeat split; cbn; rewrite <- ?app_assoc; reflexivity. }
  split; [exact (Clean_canonical c rootPath Habs) |].
  split; [exact Hnames |].
  intros p Hp Hroot.
  assert (E : root = p) by (unfold root; rewrite Hroot; apply resolve_pathString; exact Hp).
  split; [exact E |].
  intros c'. destruct Hnames as (-> & -> & ->). rewrite E.
  assert (Hsane : forall names, Forall saneName names -> Forall saneName (p ++ names))
    by (intros names Hn; apply List.Forall_app; split; assumption).
  assert (Hname : forall n, n <> "" -> n <> "." -> n <> ".." ->
            forallb (fun x => negb (filepath.IsPathSeparator x)) (list_ascii_of_string n) = true ->
            saneName n).
  { intros n H0 H1 H2 Hq. repeat split; try assumption.
    apply List.Forall_forall. intros x Hx.
    rewrite forallb_forall in Hq. specialize (Hq x Hx).
    destruct (filepath.IsPathSeparator x); [discriminate | reflexivity]. }
  repeat split; apply resolve_pathString, Hsane;
    repeat (constructor; [apply Hname; [discriminate .. | reflexivity] |]); constructor.
Qed.

Lemma paths_under_root_witness :
  paths.Dockerfile "/home//ada/./proj/../proj/" = "/home/ada/proj/Dockerfile" /\
  resolve [] (paths.Scripts "/home/ada/proj") = home ++ ["src"; "scripts"].
Proof.
  split.
  - destruct (paths_under_root [] "/home//ada/./proj/../proj/" eq_refl)
      as (_ & (_ & Hd & _) & _).
    rewrite Hd. reflexivity.
  - destruct (paths_under_root [] "/home/ada/proj" eq_refl) as (_ & _ & Hp).
    assert (Hsane : Forall saneName home).
    { repeat constructor; try discriminate. }
    destruct (Hp home Hsane eq_refl) as (_ & Hr).
    destruct (Hr []) as (_ & _ & Hs). exact Hs.
Defined.

(** ** Where the universal files land *)

Lemma skeleton_posts `{Externals} (ord : rangeOrder) (w w1 : World) (o : fsop) :
  collisionFree w ->
  createSkeleton ord w = Ret None w1 ->
  In o (manifest w) -> post (cwd w) o (fs w1).
Proof.
  intros Hcf Hrun Ho.
  destruct (createSkeleton_ran ord w w1 Hrun) as (Hr & _).
  apply (runOps_post (cwd w) (skeletonOps ord w) (fs w) (fs w1) Hr).
  - intros o1 o2 H1 H2.
    apply (collisionFree_compatible w o1 o2 Hcf).
    + exact (proj1 (skeletonOps_manifest ord w o1) H1).
    + exact (proj1 (skeletonOps_manifest ord w o2) H2).
  - exact (proj2 (skeletonOps_manifest ord w o) Ho).
Qed.

Lemma paths_dest (p : path) :
  Forall saneName p ->
  resolve p (filepath.Join [pathString p; paths.Dockerfile0]) = p ++ ["Dockerfile"] /\
  resolve p (filepath.Join [pathString p; paths.DockerCompose0]) = p ++ ["docker-compose.yml"].
Proof.
  intros Hp.
  assert (Hname : forall n, n <> "" -> n <> "." -> n <> ".." ->
            forallb (fun x => negb (filepath.IsPathSeparator x)) (list_ascii_of_string n) = true ->
            saneName n).
  { intros n H0 H1 H2 Hpl. repeat split; try assumption.
    apply List.Forall_forall. intros x Hx.
    rewrite forallb_forall in Hpl. specialize (Hpl x Hx).
    destruct (filepath.IsPathSeparator x); [discriminate | reflexivity]. }
  unfold paths.Dockerfile0, paths.DockerCompose0.
  rewrite !(Join_canonical p) by apply pathString_abs.
  rewrite (resolve_pathString p p Hp).
  split; cbn [components walk String.eqb Ascii.eqb Bool.eqb orb];
    apply resolve_pathString, List.Forall_app; (split; [exact Hp |]);
    (constructor; [apply Hname; [discriminate .. | reflexivity] | constructor]).
Qed.

(** With the project root set to the working directory, as [Run] sets it,
    and a language whose init files do not rebind the three universal
    templates, a successful createSkeleton leaves the renderings of the
    ignore rules, of the Dockerfile and of the compose file in the working
    directory itself, as [.gitignore], [Dockerfile] and
    [docker-compose.yml]: the first by its relative name, the other two by
    their absolute names under the project root. *)
Theorem createSkeleton_universal_files `{Externals} (ord : rangeOrder) (w w1 : World) :
  collisionFree w ->
  Forall saneName (cwd w) ->
  viper w !! "ProjectRoot" = Some (pathString (cwd w)) ->
  (forall k : string,
     k = "gitignore/" +:+ default "" (viper w !! "PrimaryLanguage") \/
     k = "docker/Dockerfile" \/ k = "docker/docker-compose.yml" ->
     default [] (InitFiles !! default "" (viper w !! "PrimaryLanguage")) !! k = None) ->
  createSkeleton ord w = Ret None w1 ->
  forall src name,
    (src, name) = ("gitignore/" +:+ default "" (viper w !! "PrimaryLanguage"), ".gitignore") \/
    (src, name) = ("docker/Dockerfile", "Dockerfile") \/
    (src, name) = ("docker/docker-compose.yml", "docker-compose.yml") ->
    exists content,
      render src NoData = Some content /\
      fs w1 !! (cwd w ++ [name]) = Some (File content).
Proof.
  intros Hcf Hsane Hroot Hfree Hrun src name Hsrc.
  set (lang := default "" (viper w !! "PrimaryLanguage")) in *.
  assert (Hdest : exists dest,
            files (pathString (cwd w)) lang !! src = Some dest /\
            resolve (cwd w) dest = cwd w ++ [name]).
  { destruct (paths_dest (cwd w) Hsane) as (Hd & Hc).
    destruct Hsrc as [E | [E | E]]; injection E as -> ->.
    - exists ".gitignore". split; [| reflexivity].
      rewrite files_lookup, Hfree by auto. unfold universalFiles.
      rewrite !am_lookup_insert_ne by (apply not_eq_sym, gitignore_key; auto).
      apply am_lookup_insert_eq.
    - eexists. split; [| exact Hd].
      rewrite files_lookup, Hfree by auto. unfold universalFiles.
      rewrite am_lookup_insert_ne by discriminate. apply am_lookup_insert_eq.
    - eexists. split; [| exact Hc].
      rewrite files_lookup, Hfree by auto. unfold universalFiles.
      apply am_lookup_insert_eq. }
  destruct Hdest as (dest & Hl & Hres).
  assert (Hm : In (OpTemplate src dest) (manifest w)).
  { unfold manifest. apply in_or_app. right. unfold templateOps.
    apply in_map_iff. exists (src, dest). split; [reflexivity |].
    rewrite Hroot. cbn [default]. apply am_lookup_In. exact Hl. }
  destruct (skeleton_posts ord w w1 _ Hcf Hrun Hm) as (content & Hren & _ & _ & Hf).
  exists content. split; [exact Hren |]. rewrite <- Hres. exact Hf.
Qed.

Lemma createSkeleton_universal_files_witness :
  exists content,
    @render sampleExternals "docker/Dockerfile" NoData = Some content /\
    fs (final (@createSkeleton sampleExternals reverseOrder worldConfigured))
      !! (home ++ ["Dockerfile"]) = Some (File content).
Proof.
  assert (Hcf : @collisionFree sampleExternals worldConfigured)
    by (unfold collisionFree; vm_compute; reflexivity).
  assert (Hc : @createSkeleton sampleExternals reverseOrder worldConfigured =
               Ret None (final (@createSkeleton sampleExternals reverseOrder worldConfigured)))
    by (apply succeeded_final; vm_compute; reflexivity).
  assert (Hname : forall n, n <> "" -> n <> "." -> n <> ".." ->
            forallb (fun x => negb (filepath.IsPathSeparator x)) (list_ascii_of_string n) = true ->
            saneName n).
  { intros n H0 H1 H2 Hpl. repeat split; try assumption.
    apply List.Forall_forall. intros x Hx.
    rewrite forallb_forall in Hpl. specialize (Hpl x Hx).
    destruct (filepath.IsPathSeparator x); [discriminate | reflexivity]. }
  assert (Hsane : Forall saneName (cwd worldConfigured)).
  { change (cwd worldConfigured) with home. unfold home.
    repeat (constructor; [apply Hname; [discriminate .. | reflexivity] |]).
    constructor. }
  assert (Hroot : viper worldConfigured !! "ProjectRoot" =
                  Some (pathString (cwd worldConfigured))) by reflexivity.
  assert (Hfree : forall k : string,
            k = "gitignore/" +:+ default "" (viper worldConfigured !! "PrimaryLanguage") \/
            k = "docker/Dockerfile" \/ k = "docker/docker-compose.yml" ->
            default [] (@InitFiles sampleExternals
                          !! default "" (viper worldConfigured !! "PrimaryLanguage")) !! k
              = None)
    by (intros k [-> | [-> | ->]]; reflexivity).
  exact (@createSkeleton_universal_files sampleExternals reverseOrder worldConfigured
           (final (@createSkeleton sampleExternals reverseOrder worldConfigured))
           Hcf Hsane Hroot Hfree Hc "docker/Dockerfile" "Dockerfile"
           (or_intror (or_introl eq_refl))).
Defined.

(** ** Non-interactive mode never waits for input *)

Lemma calm_bind {A B} (m : M A) (k : A -> M B) :
  calm m -> (forall a, calm (k a)) -> calm (bind m k).
Proof.
  intros Hm Hk w Hni. unfold bind. specialize (Hm w Hni).
  destruct (m w) as [a w1 | c w1 | w1 | w1]; try exact Hm.
  destruct Hm as [Hr Hn]. specialize (Hk a w1 Hn).
  destruct (k a w1) as [b w2 | c w2 | w2 | w2]; try exact Hk;
    destruct Hk as [Hr2 Hn2]; split; congruence.
Qed.

Lemma calm_bind_fatal {A B} (m : M A) (k : A -> M B) : fatal m -> calm (bind m k).
Proof.
  intros Hm w Hni. unfold bind. specialize (Hm w Hni).
  destruct (m w) as [a w1 | c w1 | w1 | w1]; try contradiction. exact Hm.
Qed.

Lemma calm_ret {A} (a : A) : calm (ret a).
Proof. intros w Hni. split; [reflexivity | exact Hni]. Qed.

Lemma calm_gets {A} (f : World -> A) : calm (gets f).
Proof. intros w Hni. split; [reflexivity | exact Hni]. Qed.

Lemma calm_modify (f : World -> World) :
  (forall w, reads (f w) = reads w /\ nonInteractive (f w) = nonInteractive w) ->
  calm (modify f).
Proof.
  intros Hf w Hni. destruct (Hf w) as [Hr Hn]. unfold modify.
  split; [exact Hr | rewrite Hn; exact Hni].
Qed.

Lemma calm_print (s : string) : calm (fmt_Print s).
Proof. apply calm_modify. intros w. split; reflexivity. Qed.

Lemma calm_log (s : string) : calm (log_Println s).
Proof. apply calm_modify. intros w. split; reflexivity. Qed.

Lemma calm_viper_Set (k v : string) : calm (viper_Set k v).
Proof. apply calm_modify. intros w. split; reflexivity. Qed.

Lemma calm_log_Fatal {A} (s : string) : calm (@log_Fatal A s).
Proof. intros w Hni. split; [reflexivity | exact Hni]. Qed.

Lemma fatal_getInput `{Externals} : fatal getInput.
Proof.
  intros w Hni. rewrite (getInput_nonInteractive w Hni).
  split; [reflexivity | exact Hni].
Qed.

Lemma calm_returns (m : M (option error)) :
  (forall w, exists err w', m w = Ret err w' /\
     reads w' = reads w /\ nonInteractive w' = nonInteractive w) ->
  calm (orFatal m).
Proof.
  intros Hm. unfold orFatal. apply calm_bind.
  - intros w Hni. destruct (Hm w) as (err & w' & -> & Hr & Hn).
    split; [exact Hr | rewrite Hn; exact Hni].
  - intros [e |]; [apply calm_log_Fatal | apply calm_ret].
Qed.

Lemma calm_printMenu (i : nat) (l : list string) : calm (printMenu i l).
Proof.
  revert i. induction l as [| v l IH]; intros i; [apply calm_ret |].
  cbn [printMenu]. apply calm_bind; [apply calm_print | intros _; apply IH].
Qed.

Lemma calm_trimChoices (c : string) : calm (trimChoices c).
Proof.
  unfold trimChoices. destruct (_ <? _)%nat; [| apply calm_ret].
  intros w Hni. split; [reflexivity | exact Hni].
Qed.

Lemma calm_configure `{Externals} (fuel : nat) : calm (configure (S fuel)).
Proof.
  unfold configure, untilLicense.
  apply calm_bind.
  { apply calm_bind.
    { unfold checkInitialized. apply calm_bind; [apply calm_gets |]. intros root.
      destruct (negb _); [apply calm_log_Fatal | apply calm_ret]. }
    intros _. apply calm_bind.
    { unfold confirmDirectory. apply calm_bind; [apply calm_gets |]. intros root.
      apply calm_bind; [apply calm_gets |]. intros [ls | err]; [| apply calm_log_Fatal].
      apply calm_bind; [apply calm_gets |]. intros f.
      apply calm_bind; [| intros; apply calm_ret].
      destruct (_ && _); [| apply calm_ret].
      apply calm_bind; [apply calm_print |]. intros _.
      cbn [confirmLoop]. apply calm_bind_fatal, fatal_getInput. }
    intros root. apply calm_bind; [apply calm_viper_Set |]. intros _.
    unfold resolveAuthor. apply calm_bind; [apply calm_gets |]. intros a.
    destruct (String.eqb a ""); [| apply calm_ret].
    apply calm_bind; [apply calm_print |]. intros _.
    apply calm_bind_fatal, fatal_getInput. }
  intros _. apply calm_bind.
  { unfold resolveLicense. apply calm_bind; [apply calm_gets |]. intros l.
    destruct (String.eqb l "").
    - apply calm_bind; [apply calm_trimChoices |]. intros c.
      apply calm_bind; [apply calm_print |]. intros _.
      apply calm_bind; [apply calm_printMenu |]. intros _.
      cbn [licenseLoop]. apply calm_bind; [apply calm_print |]. intros _.
      apply calm_bind_fatal, fatal_getInput.
    - destruct (negb _); [apply calm_log_Fatal | apply calm_ret]. }
  intros _. apply calm_bind.
  { unfold resolveLanguage. apply calm_bind; [apply calm_gets |]. intros l.
    destruct (String.eqb l "").
    - apply calm_bind; [apply calm_trimChoices |]. intros c.
      apply calm_bind; [apply calm_print |]. intros _.
      apply calm_bind; [apply calm_printMenu |]. intros _.
      cbn [languageLoop]. apply calm_bind; [apply calm_print |]. intros _.
      apply calm_bind_fatal, fatal_getInput.
    - destruct (negb _); [apply calm_log_Fatal | apply calm_ret]. }
  intros _. unfold setResolved.
  repeat (apply calm_bind; [first [apply calm_gets | apply calm_viper_Set] | intros ?]).
  apply calm_viper_Set.
Qed.

(** With [--non-interactive], [init] never waits at a prompt and never
    reads a line, whatever the flags and the state of the directory: it runs
    to its end, or ends the process, with standard input where it was. *)
Theorem Run_nonInteractive_never_reads `{Externals} (fuel : nat) (ord : rangeOrder)
    (w : World) :
  nonInteractive w = true ->
  (forall w', Run (S fuel) ord w <> Running w') /\
  reads (final (Run (S fuel) ord w)) = reads w.
Proof.
  intros Hni.
  assert (Hcalm : calm (Run (S fuel) ord)).
  { unfold Run. apply calm_bind; [apply calm_configure |]. intros _.
    apply calm_bind; [apply calm_log |]. intros _.
    apply calm_bind.
    { apply calm_returns. intros w0.
      destruct (createSkeleton_any ord w0)
        as (err & w1 & evs & Hr & _ & _ & _ & _ & _ & _ & Hn & Hrd & _).
      exists err, w1. split; [exact Hr |]. split; assumption. }
    intros _. apply calm_bind; [apply calm_gets |]. intros a.
    apply calm_bind; [apply calm_gets |]. intros l.
    apply calm_bind.
    { apply calm_returns. intros w0. unfold writeLicense.
      destruct (String.eqb l "None"); [eexists _, _; repeat split |].
      unfold bind, gets, templates.Write.
      destruct (render _ _); [| eexists _, _; repeat split].
      destruct (writeFile _ _ _ _). eexists _, _; repeat split. }
    intros _. apply calm_bind; [apply calm_log |]. intros _.
    apply calm_returns. intros w0.
    destruct (initRepo_cases w0) as [[e [Hr _]] | (_ & _ & [[e Hr] | Hr])];
      rewrite Hr; eexists _, _; (split; [reflexivity |]).
    - split; reflexivity.
    - destruct (emits_flags [gitInit] w0) as (_ & _ & _ & Hn & Hrd & _).
      split; assumption.
    - destruct (emits_flags (gitInit :: planEvents) w0) as (_ & _ & _ & Hn & Hrd & _).
      split; assumption. }
  specialize (Hcalm w Hni).
  destruct (Run (S fuel) ord w) as [a w1 | c w1 | w1 | w1]; try contradiction;
    (split; [intros w'; discriminate | exact (proj1 Hcalm)]).
Qed.

Lemma Run_nonInteractive_never_reads_witness :
  (forall w', @Run sampleExternals 1 listOrder worldNoLicenseNonInteractive <> Running w') /\
  reads (final (@Run sampleExternals 1 listOrder worldNoLicenseNonInteractive)) =
    reads worldNoLicenseNonInteractive.
Proof.
  apply (@Run_nonInteractive_never_reads sampleExternals 0 listOrder
           worldNoLicenseNonInteractive).
  reflexivity.
Defined.

(** ** The prompts in their order *)

Lemma trimChoices_ok (l : list string) (w : World) :
  l <> [] ->
  trimChoices (choicesOf l) w =
    Ret (substring 0 (String.length (choicesOf l) - 2) (choicesOf l)) w.
Proof.
  intros Hne. unfold trimChoices.
  pose proof (choicesOf_length l (fun x => x) Hne) as Hlen.
  destruct (Nat.ltb_spec (String.length (choicesOf l)) 2); [lia | reflexivity].
Qed.

(** X17.  In interactive mode, without the author, license and language
    flags, in a project that is not yet initialized and whose working
    directory can be listed and is empty or entered with [--force] (so that
    no confirmation is asked first), the answers are taken in the order
    author, license, language: the first line read becomes the author as it
    is, without any check (an empty line gives an empty author); the second,
    a number from 1 up that is the position of a license in the list, picks
    that license; the third picks the language by its number in the same way
    or, when empty, the first language.  Exactly three lines are read, the
    four settings are set in memory, and the disk and the durable store are
    not touched. *)
Theorem configure_interactive `{Externals} (fuel : nat) (w : World) (k j : Z)
    (l g : string) :
  nonInteractive w = false ->
  default "" (viper w !! "ProjectRoot") = "" ->
  listable w ->
  force w = true \/ entries (fs w) (resolve (cwd w) (pathString (cwd w))) = [] ->
  author w = "" -> license w = "" -> language w = "" ->
  strconv.Atoi (answer w 1) = Some k -> (1 <= k)%Z ->
  licenses !! Z.to_nat (k - 1) = Some l ->
  (answer w 2 = "" /\ j = 1%Z) \/
  (answer w 2 <> "" /\ strconv.Atoi (answer w 2) = Some j /\ (1 <= j)%Z) ->
  Supported !! Z.to_nat (j - 1) = Some g ->
  exists w',
    configure (S fuel) w = Ret tt w' /\
    author w' = answer w 0 /\ license w' = l /\ language w' = g /\
    reads w' = (reads w + 3)%nat /\
    viper w' =
      <["PrimaryLanguage" := g]>
        (<["License" := l]>
           (<["Author" := answer w 0]>
              (<["ProjectRoot" := pathString (cwd w)]> (viper w)))) /\
    fs w' = fs w /\ store w' = store w.
Proof.
  intros Hni Hroot Hls Hempty Hau Hli Hla Hk Hk1 Hl Hj Hg.
  unfold answer in *. rewrite Nat.add_0_r.
  (* up to the author *)
  assert (Hcd : confirmDirectory (S fuel) w = Ret (pathString (cwd w)) w).
  { unfold confirmDirectory, os_Getwd, ioutil_ReadDir.
    unfold bind at 1. unfold gets at 1.
    unfold bind at 1. unfold gets at 1.
    unfold listable in Hls. rewrite Hls.
    unfold bind at 1. unfold gets at 1.
    assert (Hskip : (0 <? length (entries (fs w) (resolve (cwd w) (pathString (cwd w)))))%nat
                    && negb (force w) = false).
    { destruct Hempty as [-> | ->]; [apply andb_false_r | reflexivity]. }
    rewrite Hskip. reflexivity. }
  set (w1 := emit (EvViperSet "ProjectRoot" (pathString (cwd w)))
               (set_viper (<["ProjectRoot" := pathString (cwd w)]> (viper w)) w)).
  set (wA := set_author (Chomp (stdin w (reads w)))
               (prompted "Author (Your name or organization/company/team): " w1)).
  assert (HA : untilLicense (S fuel) w = Ret tt wA).
  { unfold untilLicense.
    rewrite (bind_Ret _ _ _ _ _ (checkInitialized_fresh w Hroot)).
    rewrite (bind_Ret _ _ _ _ _ Hcd).
    unfold bind at 1. unfold viper_Set at 1, modify. fold w1.
    unfold resolveAuthor. unfold bind at 1. unfold gets at 1.
    change (author w1) with (author w). rewrite Hau. cbn [String.eqb].
    unfold bind at 1. unfold fmt_Print, modify.
    unfold bind at 1. rewrite getInput_interactive by exact Hni. reflexivity. }
  (* the license *)
  set (wB := set_license l (prompted "Choose 1, 2, 3: " (emits licenseMenu wA))).
  assert (HB : resolveLicense (S fuel) wA = Ret tt wB).
  { rewrite resolveLicense_prompt by exact Hli.
    rewrite licenseLoop_step by exact Hni. cbv zeta.
    change (stdin (emits licenseMenu wA) (reads (emits licenseMenu wA)))
      with (stdin w (S (reads w))).
    replace (S (reads w)) with (reads w + 1)%nat by lia. rewrite Hk.
    pose proof (lookup_lt_Some _ _ _ Hl) as Hlt.
    destruct (Z.ltb_spec 0 k); [| lia].
    destruct (Z.leb_spec k (Z.of_nat (length licenses))); [| lia].
    cbn [andb]. rewrite Hl. reflexivity. }
  (* the language *)
  assert (Hsup : Supported <> []) by (intros E; rewrite E in Hg; discriminate Hg).
  set (c := substring 0 (String.length (choicesOf Supported) - 2) (choicesOf Supported)).
  destruct (printMenu_frame 0 Supported
              (emit (EvPrint ("Select your primary language: " +:+ nl)) wB)) as [evs Hmenu].
  set (wm := emits evs (emit (EvPrint ("Select your primary language: " +:+ nl)) wB)) in *.
  set (wC := set_language g (prompted ("Choose " +:+ c +:+ " [1]: ") wm)).
  assert (Hwm : stdin wm = stdin w /\ reads wm = S (S (reads w)) /\
                nonInteractive wm = false).
  { unfold wm.
    destruct (emits_flags evs (emit (EvPrint ("Select your primary language: " +:+ nl)) wB))
      as (_ & _ & _ & -> & -> & ->). repeat split. exact Hni. }
  destruct Hwm as (Hstdin & Hreads & Hnim).
  assert (HC : resolveLanguage (S fuel) wB = Ret tt wC).
  { unfold resolveLanguage. unfold bind at 1. unfold gets at 1.
    change (language wB) with (language w). rewrite Hla. cbn [String.eqb].
    rewrite (bind_Ret _ _ _ _ _ (trimChoices_ok Supported wB Hsup)). fold c.
    unfold bind at 1. unfold fmt_Print at 1, modify.
    rewrite (bind_Ret _ _ _ _ _ Hmenu).
    cbn [languageLoop]. unfold bind at 1. unfold fmt_Print, modify.
    unfold bind at 1. rewrite getInput_interactive by exact Hnim.
    cbn [stdin reads emit]. rewrite Hstdin, Hreads.
    replace (S (S (reads w))) with (reads w + 2)%nat by lia.
    pose proof (lookup_lt_Some _ _ _ Hg) as Hlt.
    destruct Hj as [[He ->] | (Hne & Hj & Hj1)].
    - rewrite He. cbn [String.eqb]. change (Z.to_nat (1 - 1)) with 0%nat in Hg.
      rewrite Hg. unfold wC, prompted. rewrite Hreads.
      replace (S (S (S (reads w)))) with (S (reads w + 2)) by lia. reflexivity.
    - destruct (String.eqb_spec (Chomp (stdin w (reads w + 2))) ""); [contradiction |].
      rewrite Hj.
      destruct (Z.ltb_spec 0 j); [| lia].
      destruct (Z.leb_spec j (Z.of_nat (length Supported))); [| lia].
      cbn [andb]. rewrite Hg. unfold wC, prompted. rewrite Hreads.
      replace (S (S (S (reads w)))) with (S (reads w + 2)) by lia. reflexivity. }
  eexists. split.
  { unfold configure.
    rewrite (bind_Ret _ _ _ _ _ HA), (bind_Ret _ _ _ _ _ HB), (bind_Ret _ _ _ _ _ HC).
    unfold setResolved. msimpl. reflexivity. }
  destruct (emits_fields evs (emit (EvPrint ("Select your primary language: " +:+ nl)) wB))
    as (Hfs & _ & Hvip & Hst).
  destruct (emits_flags evs (emit (EvPrint ("Select your primary language: " +:+ nl)) wB))
    as (Hau' & Hli' & _).
  fold wm in Hfs, Hvip, Hst, Hau', Hli'.
  unfold wC, prompted.
  cbn [author license language reads viper fs store emit set_viper set_language set_reads].
  rewrite Hau', Hli', Hreads, Hvip, Hfs, Hst.
  repeat split. lia.
Qed.

Lemma configure_interactive_witness :
  exists w',
    @configure sampleExternals 1 worldNoFlags = Ret tt w' /\
    author w' = "" /\ license w' = "None" /\ language w' = "python" /\
    reads w' = 3.
Proof.
  destruct (@configure_interactive sampleExternals 0 worldNoFlags 3 1 "None" "python")
    as (w' & Hc & Ha & Hl & Hg & Hr & _);
    try reflexivity; try lia.
  - right. reflexivity.
  - right. split; [vm_compute; discriminate |]. split; [reflexivity | lia].
  - exists w'. repeat split; assumption.
Defined.

(** ** The errors of createSkeleton *)

Lemma ancestors_head (fuel : nat) (s : string) : In s (ancestors fuel s).
Proof. destruct fuel; left; reflexivity. Qed.

Lemma last_In {A} (l : list A) (d : A) : l <> [] -> In (List.last l d) l.
Proof.
  induction l as [| a l IH]; [intros Hn; contradiction Hn; reflexivity |]. intros _.
  destruct l as [| b l]; [left; reflexivity |].
  right. apply IH. discriminate.
Qed.

Lemma mkdirAll_error (c : path) (s : string) (f f' : FS) (e : error) :
  mkdirAll c s f = (f', Some e) ->
  exists p errno, In p (ancestors (String.length s) s) /\ e = PathError "mkdir" p errno.
Proof.
  unfold mkdirAll. destruct (_ && _).
  - intros Hm. injection Hm as _ <-. eexists _, _. split; [| reflexivity].
    apply last_In. destruct (String.length s); discriminate.
  - destruct (mkdirChain [] (resolve c s) f) as [f1 [q |]]; [| discriminate].
    intros Hm. injection Hm as _ <-. eexists _, _. split; [| reflexivity].
    unfold refusedAt.
    set (l := List.filter _ _).
    assert (Hl : forall x, In x l -> In x (ancestors (String.length s) s)).
    { intros x Hx. unfold l in Hx. apply List.filter_In in Hx as [Hx _]. exact Hx. }
    destruct l as [| a l]; [apply ancestors_head |].
    apply Hl, last_In. discriminate.
Qed.

Lemma writeFile_error (c : path) (s content : string) (f f' : FS) (e : error) :
  writeFile c s content f = (f', Some e) -> exists errno, e = PathError "open" s errno.
Proof.
  unfold writeFile. destruct (resolve c s) as [| n q].
  - intros Hw. injection Hw as _ <-. eexists. reflexivity.
  - destruct (negb _).
    + intros Hw. injection Hw as _ <-. eexists. reflexivity.
    + destruct (f !! (n :: q)) as [[| x] |]; try discriminate.
      intros Hw. injection Hw as _ <-. eexists. reflexivity.
Qed.

Lemma directoryError_cons (d : string * bool) (l : list (string * bool)) (e : error) :
  directoryError l e -> directoryError (d :: l) e.
Proof.
  intros [(dir & k & p & errno & Hin & Hp & He) | (dir & errno & Hin & He)].
  - left. exists dir, k, p, errno. split; [right; exact Hin | split; assumption].
  - right. exists dir, errno. split; [right; exact Hin | exact He].
Qed.

Lemma makeDirectories_error (l : list (string * bool)) (w w' : World) (e : error) :
  makeDirectories l w = Ret (Some e) w' -> directoryError l e.
Proof.
  revert w. induction l as [| [dir keep] l IH]; intros w; [discriminate |].
  cbn [makeDirectories]. unfold bind at 1. unfold os_MkdirAll.
  assert (Hrec : forall w0, makeDirectories l w0 = Ret (Some e) w' ->
                   directoryError ((dir, keep) :: l) e).
  { intros w0 Hr. apply directoryError_cons. exact (IH w0 Hr). }
  destruct (mkdirAll (cwd w) dir (fs w)) as [f1 [e1 |]] eqn:Hm.
  - intros Hr. injection Hr as <- _.
    destruct (mkdirAll_error _ _ _ _ _ Hm) as (p & errno & Hp & ->).
    left. exists dir, keep, p, errno.
    split; [left; reflexivity | split; [exact Hp | reflexivity]].
  - destruct keep; [| apply Hrec].
    unfold bind at 1. unfold os_Create. cbn [cwd fs emit set_fs].
    destruct (writeFile (cwd w) (filepath.Join [dir; ".gitkeep"]) "" f1)
      as [f2 [e2 |]] eqn:Hc; [| apply Hrec].
    intros Hr. injection Hr as <- _.
    destruct (writeFile_error _ _ _ _ _ _ Hc) as [errno ->].
    right. exists dir, errno. split; [left; reflexivity | reflexivity].
Qed.

Lemma writeTemplates_error `{Externals} (l : list (string * string)) (w w' : World)
    (e : error) :
  writeTemplates l w = Ret (Some e) w' ->
  exists src dest,
    In (src, dest) l /\
    (e = RenderError src \/ exists errno, e = PathError "open" dest errno).
Proof.
  revert w. induction l as [| [src dest] l IH]; intros w; [discriminate |].
  cbn [writeTemplates]. unfold bind at 1. unfold templates.Write.
  assert (Hrec : forall w0, writeTemplates l w0 = Ret (Some e) w' ->
            exists src0 dest0,
              In (src0, dest0) ((src, dest) :: l) /\
              (e = RenderError src0 \/ exists errno, e = PathError "open" dest0 errno)).
  { intros w0 Hr. destruct (IH w0 Hr) as (s0 & d0 & Hin & He).
    exists s0, d0. split; [right; exact Hin | exact He]. }
  destruct (render src NoData) as [content |].
  - destruct (writeFile (cwd w) dest content (fs w)) as [f1 [e1 |]] eqn:Hw; [| apply Hrec].
    intros Hr. injection Hr as <- _.
    destruct (writeFile_error _ _ _ _ _ _ Hw) as [errno ->].
    exists src, dest. split; [left; reflexivity |]. right. exists errno. reflexivity.
  - intros Hr. injection Hr as <- _.
    exists src, dest. split; [left; reflexivity |]. left. reflexivity.
Qed.

(** X18.  The errors of createSkeleton are of four kinds.  Three come from an
    operation on the tree, and the store is then as it was: a directory of
    the catalog that could not be made, wrapped as "failed to create
    directory <dir>" around the [mkdir] error of os.MkdirAll, which is on
    <dir> or on the leading part of <dir> that is in the way; the
    placeholder of a directory marked for one, wrapped as "failed to create
    file <dir>/.gitkeep" around the [open] error on that path; the error of a
    template of the manifest that did not render or could not be written to
    its destination, not wrapped.  The fourth is the error of
    utils.WriteConfig, not wrapped: it comes when every operation on the
    tree has succeeded, and the store is then what the failed write left. *)
Theorem createSkeleton_error `{Externals} (ord : rangeOrder) (w w1 : World) (e : error) :
  createSkeleton ord w = Ret (Some e) w1 ->
  (store w1 = store w /\
   ((exists dir keep p errno,
       In (dir, keep) directoriesList /\ In p (ancestors (String.length dir) dir) /\
       e = Wrapped ("failed to create directory " +:+ dir) (PathError "mkdir" p errno))
    \/ (exists dir errno,
       In (dir, true) directoriesList /\
       e = Wrapped ("failed to create file " +:+ filepath.Join [dir; ".gitkeep"])
             (PathError "open" (filepath.Join [dir; ".gitkeep"]) errno))
    \/ (exists src dest,
       In (src, dest) (files (default "" (viper w !! "ProjectRoot"))
                             (default "" (viper w !! "PrimaryLanguage"))) /\
       (e = RenderError src \/ exists errno, e = PathError "open" dest errno))))
  \/ (snd (runOps (cwd w) (skeletonOps ord w) (fs w)) = None /\
      WriteConfigError (viper w) = Some e /\
      store w1 = failedStore (viper w) (store w)).
Proof.
  intros Hrun. unfold createSkeleton in Hrun.
  apply bind_Ret_inv in Hrun as (root & w0 & Hroot & Hrun).
  unfold viper_GetString, gets in Hroot. injection Hroot as <- <-.
  apply bind_Ret_inv in Hrun as (lang & w0 & Hlang & Hrun).
  unfold viper_GetString, gets in Hlang. injection Hlang as <- <-.
  apply bind_Ret_inv in Hrun as (err & wd & Hd & Hrun).
  destruct (makeDirectories_ops (order ord directories) w) as [err' [Hd' Hiff]].
  rewrite Hd in Hd'. injection Hd' as <- ->.
  destruct (after_fields (dirOps (order ord directories)) w)
    as (Hfs1 & Hcwd1 & Hvip1 & Hst1 & _).
  destruct err as [ed |].
  - injection Hrun as <- <-. left. split; [exact Hst1 |].
    destruct (makeDirectories_error _ _ _ _ Hd)
      as [(dir & keep & p & errno & Hin & Hp & He) | (dir & errno & Hin & He)].
    + left. exists dir, keep, p, errno. split; [| split; assumption].
      eapply Permutation_in; [apply (order_perm ord) | exact Hin].
    + right. left. exists dir, errno. split; [| exact He].
      eapply Permutation_in; [apply (order_perm ord) | exact Hin].
  - apply bind_Ret_inv in Hrun as (err & wt & Ht & Hrun).
    set (tl := order ord (files _ _)) in *.
    destruct (writeTemplates_ops tl (after (dirOps (order ord directories)) w))
      as [err' [Ht' Hiff2]].
    rewrite Ht in Ht'. injection Ht' as <- ->.
    destruct (after_fields (templateOps tl) (after (dirOps (order ord directories)) w))
      as (_ & _ & Hvip2 & Hst2 & _).
    destruct err as [et |].
    + injection Hrun as <- <-. left. split; [rewrite Hst2; exact Hst1 |].
      destruct (writeTemplates_error _ _ _ _ Ht) as (src & dest & Hin & He).
      right. right. exists src, dest. split; [| exact He].
      eapply Permutation_in; [apply (order_perm ord) | exact Hin].
    + right. unfold utils.WriteConfig in Hrun. rewrite Hvip2, Hvip1, Hst2, Hst1 in Hrun.
      destruct (WriteConfigError (viper w)) as [e' |]; [| discriminate Hrun].
      injection Hrun as <- <-.
      split; [| split; reflexivity].
      unfold skeletonOps. fold tl. rewrite runOps_app.
      pose proof (proj1 Hiff eq_refl) as H1.
      pose proof (proj1 Hiff2 eq_refl) as H2.
      rewrite Hfs1, Hcwd1 in H2.
      destruct (runOps (cwd w) (dirOps (order ord directories)) (fs w)) as [f1 [x |]];
        [discriminate H1 | exact H2].
Qed.

Lemma createSkeleton_error_witness :
  exists e w1,
    @createSkeleton sampleExternals listOrder worldModelsFile = Ret (Some e) w1 /\
    store w1 = store worldModelsFile.
Proof.
  destruct (@createSkeleton_ops sampleExternals listOrder worldModelsFile)
    as [[e |] [Hr He]].
  - exists e. eexists. split; [exact Hr |].
    destruct (@createSkeleton_error sampleExternals listOrder worldModelsFile _ e Hr)
      as [[Hst _] | [Hops _]]; [exact Hst |].
    vm_compute in Hops. discriminate Hops.
  - exfalso. vm_compute in He. apply He. reflexivity.
Defined.

(** ** Status 0 is the declined confirmation *)

Lemma bind_Exit_inv {A B} (m : M A) (k : A -> M B) w c w' :
  bind m k w = Exit c w' ->
  m w = Exit c w' \/ exists a w1, m w = Ret a w1 /\ k a w1 = Exit c w'.
Proof.
  unfold bind. destruct (m w) as [a w1 | c1 w1 | w1 | w1]; try discriminate.
  - intros Hk. right. exists a, w1. split; [reflexivity | exact Hk].
  - intros Hk. left. injection Hk as -> ->. reflexivity.
Qed.

Lemma exitsOne_bind {A B} (m : M A) (k : A -> M B) :
  exitsOne m -> (forall a, exitsOne (k a)) -> exitsOne (bind m k).
Proof.
  intros Hm Hk w c w' He. apply bind_Exit_inv in He as [He | (a & w1 & _ & He)].
  - exact (Hm _ _ _ He).
  - exact (Hk _ _ _ _ He).
Qed.

Lemma exitsOne_returns {A} (m : M A) :
  (forall w, exists a w', m w = Ret a w') -> exitsOne m.
Proof. intros Hm w c w' He. destruct (Hm w) as (a & w1 & Hr). congruence. Qed.

Lemma exitsOne_ret {A} (a : A) : exitsOne (ret a).
Proof. intros w c w' He. discriminate He. Qed.

Lemma exitsOne_gets {A} (f : World -> A) : exitsOne (gets f).
Proof. intros w c w' He. discriminate He. Qed.

Lemma exitsOne_modify (f : World -> World) : exitsOne (modify f).
Proof. intros w c w' He. discriminate He. Qed.

Lemma exitsOne_viper_Set (k v : string) : exitsOne (viper_Set k v).
Proof. intros w c w' He. discriminate He. Qed.

Lemma exitsOne_log_Fatal {A} (s : string) : exitsOne (@log_Fatal A s).
Proof. intros w c w' He. injection He as <- _. reflexivity. Qed.

Lemma exitsOne_panic {A} : exitsOne (@panic A).
Proof. intros w c w' He. discriminate He. Qed.

Lemma exitsOne_getInput `{Externals} : exitsOne getInput.
Proof.
  unfold getInput. apply exitsOne_bind; [apply exitsOne_gets |]. intros ni.
  apply exitsOne_bind; [destruct ni; [apply exitsOne_log_Fatal | apply exitsOne_ret] |].
  intros _. apply exitsOne_bind; [| intros; apply exitsOne_ret].
  intros w c w' He. discriminate He.
Qed.

Lemma exitsOne_printMenu (i : nat) (l : list string) : exitsOne (printMenu i l).
Proof.
  apply exitsOne_returns. intros w. destruct (printMenu_frame i l w) as [evs Hr].
  rewrite Hr. eexists _, _. reflexivity.
Qed.

Lemma exitsOne_trimChoices (c : string) : exitsOne (trimChoices c).
Proof.
  unfold trimChoices. destruct (_ <? _)%nat; [apply exitsOne_panic | apply exitsOne_ret].
Qed.

Lemma exitsOne_licenseLoop `{Externals} (c : string) (fuel : nat) :
  exitsOne (licenseLoop c fuel).
Proof.
  induction fuel as [| fuel IH]; [intros w x w' He; discriminate He |].
  cbn [licenseLoop]. apply exitsOne_bind; [apply exitsOne_modify |]. intros _.
  apply exitsOne_bind; [apply exitsOne_getInput |]. intros input.
  destruct (strconv.Atoi input) as [k |]; [| exact IH].
  destruct (_ && _); [| exact IH].
  destruct (licenses !! _); [apply exitsOne_modify | apply exitsOne_panic].
Qed.

Lemma exitsOne_languageLoop `{Externals} (c : string) (fuel : nat) :
  exitsOne (languageLoop c fuel).
Proof.
  induction fuel as [| fuel IH]; [intros w x w' He; discriminate He |].
  cbn [languageLoop]. apply exitsOne_bind; [apply exitsOne_modify |]. intros _.
  apply exitsOne_bind; [apply exitsOne_getInput |]. intros input.
  destruct (String.eqb input "").
  { destruct (Supported !! 0); [apply exitsOne_modify | apply exitsOne_panic]. }
  destruct (strconv.Atoi input) as [k |]; [| exact IH].
  destruct (_ && _); [| exact IH].
  destruct (Supported !! _); [apply exitsOne_modify | apply exitsOne_panic].
Qed.

Lemma exitsOne_orFatal (m : M (option error)) :
  (forall w, exists err w', m w = Ret err w') -> exitsOne (orFatal m).
Proof.
  intros Hm. unfold orFatal. apply exitsOne_bind; [apply exitsOne_returns; exact Hm |].
  intros [e |]; [apply exitsOne_log_Fatal | apply exitsOne_ret].
Qed.

(** After the confirmation, every way out of [init] is a failure. *)
Lemma exitsOne_afterConfirm `{Externals} (fuel : nat) (ord : rangeOrder) (root : string) :
  exitsOne (viper_Set "ProjectRoot" root ;;; resolveAuthor) /\
  exitsOne (resolveLicense fuel ;;; resolveLanguage fuel ;;; setResolved) /\
  exitsOne (log_Println "Creating project skeleton..." ;;;
            orFatal (createSkeleton ord) ;;;
            a <- gets author ;;
            l <- gets license ;;
            orFatal (writeLicense a l) ;;;
            log_Println "Initializing git repository..." ;;;
            orFatal initRepo).
Proof.
  split; [| split].
  - apply exitsOne_bind; [apply exitsOne_viper_Set |]. intros _.
    unfold resolveAuthor. apply exitsOne_bind; [apply exitsOne_gets |]. intros a.
    destruct (String.eqb a ""); [| apply exitsOne_ret].
    apply exitsOne_bind; [apply exitsOne_modify |]. intros _.
    apply exitsOne_bind; [apply exitsOne_getInput | intros; apply exitsOne_modify].
  - apply exitsOne_bind.
    { unfold resolveLicense. apply exitsOne_bind; [apply exitsOne_gets |]. intros l.
      destruct (String.eqb l "").
      - apply exitsOne_bind; [apply exitsOne_trimChoices |]. intros c.
        apply exitsOne_bind; [apply exitsOne_modify |]. intros _.
        apply exitsOne_bind; [apply exitsOne_printMenu |]. intros _.
        apply exitsOne_licenseLoop.
      - destruct (negb _); [apply exitsOne_log_Fatal | apply exitsOne_ret]. }
    intros _. apply exitsOne_bind.
    { unfold resolveLanguage. apply exitsOne_bind; [apply exitsOne_gets |]. intros l.
      destruct (String.eqb l "").
      - apply exitsOne_bind; [apply exitsOne_trimChoices |]. intros c.
        apply exitsOne_bind; [apply exitsOne_modify |]. intros _.
        apply exitsOne_bind; [apply exitsOne_printMenu |]. intros _.
        apply exitsOne_languageLoop.
      - destruct (negb _); [apply exitsOne_log_Fatal | apply exitsOne_ret]. }
    intros _. unfold setResolved.
    repeat (apply exitsOne_bind;
            [first [apply exitsOne_gets | apply exitsOne_viper_Set] | intros ?]).
    apply exitsOne_viper_Set.
  - apply exitsOne_bind; [apply exitsOne_modify |]. intros _.
    apply exitsOne_bind.
    { apply exitsOne_orFatal. intros w.
      destruct (createSkeleton_ops ord w) as [err [Hr _]]. rewrite Hr.
      eexists _, _. reflexivity. }
    intros _. apply exitsOne_bind; [apply exitsOne_gets |]. intros a.
    apply exitsOne_bind; [apply exitsOne_gets |]. intros l.
    apply exitsOne_bind; [apply exitsOne_orFatal; intros w; apply writeLicense_returns |].
    intros _. apply exitsOne_bind; [apply exitsOne_modify |]. intros _.
    apply exitsOne_orFatal. exact initRepo_returns.
Qed.

Lemma talk_confirmLoop `{Externals} (fuel : nat) : respects talk (confirmLoop fuel).
Proof.
  apply respects_confirmLoop.
  - apply talk_refl.
  - apply talk_trans.
  - apply talk_emit.
  - intros n. apply talk_same. intros w. repeat split.
Qed.

Lemma confirmLoop_exit_zero `{Externals} (fuel : nat) (w w' : World) :
  confirmLoop fuel w = Exit 0%Z w' -> nonInteractive w = false.
Proof.
  destruct fuel as [| fuel]; [discriminate |].
  destruct (nonInteractive w) eqn:Hni; [| reflexivity].
  rewrite (confirmLoop_nonInteractive fuel w Hni). discriminate.
Qed.

Lemma confirmLoop_exit `{Externals} (fuel : nat) (w w' : World) (c : Z) :
  confirmLoop fuel w = Exit c w' ->
  c = 1%Z \/
  (c = 0%Z /\ nonInteractive w = false /\
   exists n, (n < fuel)%nat /\
     (forall i, (i < n)%nat ->
        answer w i <> "y" /\ answer w i <> "n" /\ answer w i <> "") /\
     (answer w n = "n" \/ answer w n = "")).
Proof.
  revert w. induction fuel as [| fuel IH]; intros w; [discriminate |].
  destruct (nonInteractive w) eqn:Hni.
  { rewrite (confirmLoop_nonInteractive fuel w Hni). intros He.
    injection He as <- _. left. reflexivity. }
  cbn [confirmLoop]. unfold bind at 1. rewrite (getInput_interactive w Hni).
  assert (H0 : answer w 0 = Chomp (stdin w (reads w))).
  { unfold answer. rewrite Nat.add_0_r. reflexivity. }
  destruct (String.eqb_spec (Chomp (stdin w (reads w))) "y") as [Ey | Ny]; [discriminate |].
  assert (Hstop : answer w 0 = "n" \/ answer w 0 = "" ->
            c = 1%Z \/
            (0%Z = 0%Z /\ false = false /\
             exists n, (n < S fuel)%nat /\
               (forall i, (i < n)%nat ->
                  answer w i <> "y" /\ answer w i <> "n" /\ answer w i <> "") /\
               (answer w n = "n" \/ answer w n = ""))).
  { intros Hans. right. split; [reflexivity |]. split; [reflexivity |].
    exists 0%nat. split; [lia |]. split; [intros i Hi; lia | exact Hans]. }
  destruct (String.eqb_spec (Chomp (stdin w (reads w))) "n") as [En | Nn].
  { cbn [orb]. intros He. injection He as <- _. apply Hstop. left. rewrite H0. exact En. }
  destruct (String.eqb_spec (Chomp (stdin w (reads w))) "") as [Ee | Ne].
  { cbn [orb]. intros He. injection He as <- _. apply Hstop. right. rewrite H0. exact Ee. }
  cbn [orb]. unfold bind at 1. unfold fmt_Print at 1, modify.
  set (w1 := emit (EvPrint "Please answer [y/N]: ")
               (emit EvRead (set_reads (S (reads w)) w))).
  assert (Hans : forall i, answer w1 i = answer w (S i)).
  { intros i. unfold answer, w1. cbn [stdin reads emit set_reads].
    replace (S (reads w) + i)%nat with (reads w + S i)%nat by lia. reflexivity. }
  intros He. destruct (IH w1 He) as [Hc | (Hc & _ & n & Hlt & Hjunk & Hn)];
    [left; exact Hc |].
  right. split; [exact Hc |]. split; [reflexivity |].
  exists (S n). split; [lia |]. split.
  - intros [| i] Hi.
    + rewrite H0. repeat split; assumption.
    + rewrite <- Hans. apply Hjunk. lia.
  - rewrite <- Hans. exact Hn.
Qed.

(** X19.  Of the ways [init] ends the process by a call of os.Exit or
    log.Fatal (a run that gets to the end of Run returns and is not one of
    them, though the process then ends with status 0 as well; nor is a
    panic), one has status 0 and every other has status 1.  Status 0 is the
    declined confirmation: the project was not yet initialized, the working
    directory could be listed and was not empty, [--force] was not given,
    the run was interactive, and after any number of answers other than "y",
    "n" and the empty line, the answer was "n" or the empty line.  Nothing
    was changed then: the disk, the durable store and the settings in memory
    are as they were. *)
Theorem Run_exit_zero `{Externals} (fuel : nat) (ord : rangeOrder) (w w' : World)
    (c : Z) :
  Run fuel ord w = Exit c w' ->
  c = 1%Z \/
  (c = 0%Z /\
   default "" (viper w !! "ProjectRoot") = "" /\
   listable w /\
   entries (fs w) (resolve (cwd w) (pathString (cwd w))) <> [] /\
   force w = false /\
   nonInteractive w = false /\
   (exists n, (n < fuel)%nat /\
      (forall i, (i < n)%nat ->
         answer w i <> "y" /\ answer w i <> "n" /\ answer w i <> "") /\
      (answer w n = "n" \/ answer w n = "")) /\
   fs w' = fs w /\ store w' = store w /\ viper w' = viper w).
Proof.
  intros He.
  destruct (exitsOne_afterConfirm fuel ord (pathString (cwd w))) as (_ & H2 & H3).
  unfold Run in He.
  apply bind_Exit_inv in He as [He | (a & w1 & _ & He)];
    [| left; exact (H3 _ _ _ He)].
  unfold configure in He.
  apply bind_Exit_inv in He as [He | (a & w1 & _ & He)];
    [| left; exact (H2 _ _ _ He)].
  unfold untilLicense in He.
  apply bind_Exit_inv in He as [He | ([] & w1 & Hci & He)].
  { unfold checkInitialized, bind, viper_GetString, gets in He.
    destruct (negb _); [| discriminate He]. injection He as <- _. left. reflexivity. }
  assert (Hfresh : default "" (viper w !! "ProjectRoot") = "" /\ w1 = w).
  { unfold checkInitialized, bind, viper_GetString, gets in Hci.
    destruct (String.eqb_spec (default "" (viper w !! "ProjectRoot")) "") as [E | N];
      cbn [negb] in Hci; [| discriminate Hci].
    injection Hci as <-. split; [exact E | reflexivity]. }
  destruct Hfresh as [Hroot ->].
  apply bind_Exit_inv in He as [He | (root & w1 & _ & He)].
  2:{ destruct (exitsOne_afterConfirm fuel ord root) as (H1 & _).
      left. exact (H1 _ _ _ He). }
  unfold confirmDirectory, os_Getwd, ioutil_ReadDir in He.
  unfold bind at 1 in He. unfold gets at 1 in He.
  unfold bind at 1 in He. unfold gets at 1 in He.
  destruct (isDir (fs w) (resolve (cwd w) (pathString (cwd w)))) eqn:Hls.
  2:{ injection He as <- _. left. reflexivity. }
  unfold bind at 1 in He. unfold gets at 1 in He.
  apply bind_Exit_inv in He as [He | (a & w1 & _ & He)]; [| discriminate He].
  destruct (force w) eqn:Hforce.
  { rewrite andb_false_r in He. discriminate He. }
  destruct (entries (fs w) (resolve (cwd w) (pathString (cwd w)))) as [| x xs] eqn:Hent;
    [discriminate He |].
  cbn [length Nat.ltb Nat.leb negb andb] in He.
  unfold bind at 1 in He. unfold fmt_Print at 1, modify in He.
  set (q := "This directory is not empty, initialize anyways? [y/N]: ") in He.
  destruct (confirmLoop_exit fuel _ _ _ He) as [Hc | (Hc & Hni & n & Hlt & Hjunk & Hn)];
    [left; exact Hc |].
  right.
  pose proof (sameViper_confirmLoop fuel (emit (EvPrint q) w)) as [Hv _].
  pose proof (talk_confirmLoop fuel (emit (EvPrint q) w)) as (Hfs & Hst & _).
  rewrite He in Hv, Hfs, Hst. cbn [final] in Hv, Hfs, Hst.
  split; [exact Hc |]. split; [exact Hroot |]. split; [exact Hls |].
  split; [discriminate |]. split; [reflexivity |]. split; [exact Hni |].
  split; [exists n; split; [exact Hlt | split; [exact Hjunk | exact Hn]] |].
  split; [exact Hfs |]. split; [exact Hst | exact Hv].
Qed.

Lemma Run_exit_zero_witness :
  force worldDecline = false /\
  fs (final (@Run sampleExternals 1 listOrder worldDecline)) = fs worldDecline.
Proof.
  assert (He : @Run sampleExternals 1 listOrder worldDecline =
               Exit 0%Z (final (@Run sampleExternals 1 listOrder worldDecline)))
    by (apply exited_final; vm_compute; reflexivity).
  destruct (@Run_exit_zero sampleExternals 1 listOrder worldDecline _ _ He)
    as [Hc | (_ & _ & _ & _ & Hf & _ & _ & Hfs & _)]; [discriminate Hc |].
  split; assumption.
Defined.

(** ** No rollback *)

Lemma writeLicense_any `{Externals} (a l : string) (w : World) :
  exists err w',
    writeLicense a l w = Ret err w' /\
    store w' = store w /\ viper w' = viper w /\ dirsKept (fs w) (fs w').
Proof.
  unfold writeLicense. destruct (String.eqb l "None").
  { exists None, w. repeat split. intros q Hq. exact Hq. }
  unfold bind, gets, templates.Write.
  destruct (render _ _) as [content |].
  - destruct (writeFile _ _ _ _) as [f' err] eqn:Hw.
    exists err. eexists. split; [reflexivity |]. repeat split.
    cbn [fs emit set_fs]. eapply writeFile_dirsKept. exact Hw.
  - eexists _, _. split; [reflexivity |]. repeat split. intros q Hq. exact Hq.
Qed.

Lemma orFatal_Some (m : M (option error)) (w w' : World) (e : error) :
  m w = Ret (Some e) w' -> orFatal m w = Exit 1%Z (emit (EvLog (Error e)) w').
Proof. intros Hm. unfold orFatal, bind. rewrite Hm. reflexivity. Qed.

Lemma orFatal_None (m : M (option error)) (w w' : World) :
  m w = Ret None w' -> orFatal m w = Ret tt w'.
Proof. intros Hm. unfold orFatal, bind. rewrite Hm. reflexivity. Qed.

Lemma initRepo_any (w : World) :
  exists err evs, initRepo w = Ret err (emits evs w).
Proof.
  destruct (initRepo_cases w) as [[e [Hr _]] | (_ & _ & [[e Hr] | Hr])].
  - exists (Some e), []. exact Hr.
  - exists (Some e), [gitInit]. exact Hr.
  - exists None, (gitInit :: planEvents). exact Hr.
Qed.

(** [init] does not roll back.  Once createSkeleton has succeeded, whatever
    happens to the license and to the repository, the run returns or ends
    with status 1, and either way the durable store holds the resolved
    settings and every directory of the catalog is on disk: a failed [init]
    leaves an initialized project behind. *)
Theorem Run_no_rollback `{Externals} (fuel : nat) (ord : rangeOrder) (w w1 w2 : World) :
  configure fuel w = Ret tt w1 ->
  createSkeleton ord (emit (EvLog "Creating project skeleton...") w1) = Ret None w2 ->
  let r := Run fuel ord w in
  (r = Ret tt (final r) \/ r = Exit 1%Z (final r)) /\
  store (final r) = viper w1 /\
  store (final r) !! "ProjectRoot" = Some (pathString (cwd w)) /\
  forall dir keep, In (dir, keep) directoriesList ->
    fs (final r) !! resolve (cwd w) dir = Some Dir.
Proof.
  intros Hc Hsk r.
  set (ws := emit (EvLog "Creating project skeleton...") w1) in *.
  destruct (configure_sets fuel w w1 Hc) as (Hroot & _ & _ & _ & Hcw1).
  destruct (createSkeleton_ran ord ws w2 Hsk) as (_ & Hst2 & _ & _).
  change (viper ws) with (viper w1) in Hst2.
  assert (Hdirs2 : forall dir keep, In (dir, keep) directoriesList ->
                     fs w2 !! resolve (cwd w) dir = Some Dir).
  { intros dir keep Hin. rewrite <- Hcw1.
    exact (skeleton_dir_made ord ws w2 dir keep Hsk Hin). }
  destruct (writeLicense_any (author w2) (license w2) w2)
    as (e3 & w3 & Hwl & Hst3 & _ & Hk3).
  assert (Hrun : r = (orFatal (writeLicense (author w2) (license w2)) ;;;
                      log_Println "Initializing git repository..." ;;;
                      orFatal initRepo) w2).
  { unfold r, Run. rewrite (bind_Ret _ _ _ _ _ Hc).
    unfold bind at 1. unfold log_Println at 1, modify at 1. fold ws.
    assert (Hor : orFatal (createSkeleton ord) ws = Ret tt w2)
      by (unfold orFatal, bind; rewrite Hsk; reflexivity).
    rewrite (bind_Ret _ _ _ _ _ Hor). reflexivity. }
  assert (Hgoal : forall wf, store wf = store w3 -> fs wf = fs w3 ->
            store wf = viper w1 /\
            store wf !! "ProjectRoot" = Some (pathString (cwd w)) /\
            forall dir keep, In (dir, keep) directoriesList ->
              fs wf !! resolve (cwd w) dir = Some Dir).
  { intros wf Hs Hf. rewrite Hs, Hst3, Hst2, Hf. split; [reflexivity |].
    split; [exact Hroot |]. intros dir keep Hin. apply Hk3. exact (Hdirs2 dir keep Hin). }
  assert (Hout : exists wf, (r = Ret tt wf \/ r = Exit 1%Z wf) /\
                            store wf = store w3 /\ fs wf = fs w3).
  { rewrite Hrun. clear Hrun. destruct e3 as [e3 |].
    { rewrite (bind_Exit _ _ _ _ _ (orFatal_Some _ _ _ _ Hwl)).
      eexists. split; [right; reflexivity |]. split; reflexivity. }
    rewrite (bind_Ret _ _ _ _ _ (orFatal_None _ _ _ Hwl)).
    set (wg := emit (EvLog "Initializing git repository...") w3).
    assert (Hlog : log_Println "Initializing git repository..." w3 = Ret tt wg)
      by reflexivity.
    rewrite (bind_Ret _ _ _ _ _ Hlog).
    destruct (initRepo_any wg) as (e4 & evs & Hir).
    destruct (emits_fields evs wg) as (Hfs4 & _ & _ & Hst4).
    destruct e4 as [e4 |].
    - rewrite (orFatal_Some _ _ _ _ Hir).
      eexists. split; [right; reflexivity |].
      cbn [store fs emit]. split; assumption.
    - rewrite (orFatal_None _ _ _ Hir).
      eexists. split; [left; reflexivity |]. split; assumption. }
  destruct Hout as (wf & Hr & Hs & Hf).
  assert (Hfinal : final r = wf) by (destruct Hr as [-> | ->]; reflexivity).
  rewrite Hfinal. split; [exact Hr |]. apply Hgoal; assumption.
Qed.

Lemma Run_no_rollback_witness :
  let r := @Run sampleExternals 1 listOrder worldGitDirNoGit in
  (r = Ret tt (final r) \/ r = Exit 1%Z (final r)) /\
  store (final r) !! "ProjectRoot" = Some (pathString (cwd worldGitDirNoGit)).
Proof.
  assert (Hc : @configure sampleExternals 1 worldGitDirNoGit =
               Ret tt (final (@configure sampleExternals 1 worldGitDirNoGit)))
    by (apply returned_final; vm_compute; reflexivity).
  assert (Hs : @createSkeleton sampleExternals listOrder
                 (emit (EvLog "Creating project skeleton...")
                    (final (@configure sampleExternals 1 worldGitDirNoGit))) =
               Ret None (final (@createSkeleton sampleExternals listOrder
                 (emit (EvLog "Creating project skeleton...")
                    (final (@configure sampleExternals 1 worldGitDirNoGit))))))
    by (apply succeeded_final; vm_compute; reflexivity).
  destruct (@Run_no_rollback sampleExternals 1 listOrder worldGitDirNoGit _ _ Hc Hs)
    as (Hr & _ & Hp & _).
  split; assumption.
Defined.

(** ** The order of the ranges does not show in the result *)

Lemma mkdirChain_made (d : path) (t : list string) (f f' : FS) e (p : path) :
  mkdirChain d t f = (f', e) ->
  f' !! p = f !! p \/
  (f' !! p = Some Dir /\ exists t1 t2, t = t1 ++ t2 /\ t1 <> [] /\ p = d ++ t1).
Proof.
  revert d f. induction t as [| n t IH]; intros d f; simpl.
  - intros Heq. injection Heq as <- _. left. reflexivity.
  - assert (Hstep : forall f1, mkdirChain (d ++ [n]) t f1 = (f', e) ->
              f' !! p = f1 !! p \/
              (f' !! p = Some Dir /\
               exists t1 t2, n :: t = t1 ++ t2 /\ t1 <> [] /\ p = d ++ t1)).
    { intros f1 Hc. destruct (IH _ _ Hc) as [E | (E & t1 & t2 & -> & _ & ->)].
      - left. exact E.
      - right. split; [exact E |]. exists (n :: t1), t2.
        split; [reflexivity |]. split; [discriminate |].
        rewrite <- app_assoc. reflexivity. }
    destruct (f !! (d ++ [n])) as [[| x] |] eqn:Hl.
    + apply Hstep.
    + intros Heq. injection Heq as <- _. left. reflexivity.
    + intros Hc. pose proof (mkdirChain_subseteq _ _ _ _ _ Hc) as Hsub.
      destruct (Hstep _ Hc) as [E | R]; [| right; exact R].
      destruct (decide (d ++ [n] = p)) as [<- | Hne].
      * right. split; [rewrite E; apply am_lookup_insert_eq |].
        exists [n], t. split; [reflexivity |]. split; [discriminate | reflexivity].
      * left. rewrite E. apply am_lookup_insert_ne. exact Hne.
Qed.

Lemma applyOp_touched `{Externals} (c : path) (o : fsop) (f f' : FS) e (p : path) :
  applyOp c o f = (f', e) -> touched c [o] f f' p.
Proof.
  assert (Hwrite : forall s content y,
            written c o = Some (resolve c s, y) ->
            writeFile c s content f = (f', e) -> touched c [o] f f' p).
  { intros s content y Hw Ha. destruct e as [e |].
    - apply writeFile_failed in Ha as ->. right. left. reflexivity.
    - apply writeFile_inv in Ha as (-> & _).
      destruct (decide (resolve c s = p)) as [<- | Hne].
      + left. exists o, y. split; [left; reflexivity | exact Hw].
      + right. left. apply am_lookup_insert_ne. exact Hne. }
  destruct o as [s | s | src dest]; simpl; intros Ha.
  - unfold mkdirAll in Ha. destruct (_ && _).
    + injection Ha as <- _. right. left. reflexivity.
    + assert (Hc : exists e', mkdirChain [] (resolve c s) f = (f', e')).
      { destruct (mkdirChain [] (resolve c s) f) as [f1 [errno |]];
          injection Ha as <- _; eexists; reflexivity. }
      destruct Hc as [e' Hc].
      destruct (mkdirChain_made _ _ _ _ _ p Hc) as [E | (E & t1 & t2 & Ht & Hne & ->)].
      * right. left. exact E.
      * right. right. split; [exact E |]. exists s, t2.
        split; [left; reflexivity |]. split; [exact Hne | exact Ht].
  - eapply Hwrite; [reflexivity | exact Ha].
  - destruct (render src NoData) as [content |] eqn:Hr.
    + eapply (Hwrite dest content); [| exact Ha]. simpl. reflexivity.
    + injection Ha as <- _. right. left. reflexivity.
Qed.

Lemma touched_cons `{Externals} (c : path) (o : fsop) (ops : list fsop)
    (f f1 F : FS) (p : path) :
  touched c [o] f f1 p -> touched c ops f1 F p ->
  dirsKept f1 F ->
  touched c (o :: ops) f F p.
Proof.
  intros H1 H2 Hk.
  destruct H2 as [(o2 & y & Hin & Hw) | [E2 | (D2 & s & t & Hin & Hne & Hres)]].
  - left. exists o2, y. split; [right; exact Hin | exact Hw].
  - destruct H1 as [(o1 & y & Hin & Hw) | [E1 | (D1 & s & t & Hin & Hne & Hres)]].
    + left. exists o1, y. split; [| exact Hw].
      destruct Hin as [<- | []]. left. reflexivity.
    + right. left. congruence.
    + right. right. split; [congruence |]. exists s, t.
      split; [| split; assumption]. destruct Hin as [E | []]. left. exact E.
  - right. right. split; [exact D2 |]. exists s, t.
    split; [right; exact Hin | split; assumption].
Qed.

Lemma runOps_touched `{Externals} (c : path) (ops : list fsop) (f : FS) (p : path) :
  touched c ops f (fst (runOps c ops f)) p.
Proof.
  revert f. induction ops as [| o ops IH]; intros f.
  - right. left. reflexivity.
  - simpl. destruct (applyOp c o f) as [f1 [e |]] eqn:Ha; cbn [fst].
    + pose proof (applyOp_touched c o f f1 _ p Ha) as H1.
      apply (touched_cons c o ops f f1 f1 p H1).
      * right. left. reflexivity.
      * intros q Hq. exact Hq.
    + pose proof (applyOp_touched c o f f1 _ p Ha) as H1.
      apply (touched_cons c o ops f f1 _ p H1 (IH f1)).
      destruct (runOps_frame c ops f1) as (Hd & _). exact Hd.
Qed.

Lemma chainDirs_prefix (f : FS) (d : path) (t1 t2 : list string) :
  chainDirs f d (t1 ++ t2) -> t1 <> [] -> f !! (d ++ t1) = Some Dir.
Proof.
  revert d. induction t1 as [| n t1 IH]; intros d; [contradiction |].
  cbn [app chainDirs]. intros [Hl Ht] _. destruct t1 as [| m t1].
  - exact Hl.
  - change (d ++ n :: m :: t1) with (d ++ [n] ++ m :: t1). rewrite app_assoc.
    apply IH; [exact Ht | discriminate].
Qed.

(** What a successful createSkeleton leaves at a path the manifest
    concerns. *)
Lemma skeleton_settled `{Externals} (ord : rangeOrder) (w w1 : World) (p : path) :
  collisionFree w ->
  createSkeleton ord w = Ret None w1 ->
  (forall o y, In o (manifest w) -> written (cwd w) o = Some (p, y) ->
     exists content, y = Some content /\ fs w1 !! p = Some (File content))
  /\ (forall s t, In (OpMkdir s) (manifest w) -> p <> [] ->
        resolve (cwd w) s = p ++ t -> fs w1 !! p = Some Dir).
Proof.
  intros Hcf Hrun. split.
  - intros o y Ho Hw. pose proof (skeleton_posts ord w w1 o Hcf Hrun Ho) as Hp.
    destruct o as [s | s | src dest]; simpl in Hw, Hp; [discriminate | |].
    + injection Hw as <- <-. destruct Hp as (_ & _ & Hl).
      exists "". split; [reflexivity | exact Hl].
    + injection Hw as <- <-. destruct Hp as (content & Hr & _ & _ & Hl).
      exists content. split; [exact Hr | exact Hl].
  - intros s t Ho Hne Hres.
    pose proof (skeleton_posts ord w w1 _ Hcf Hrun Ho) as [_ Hchain].
    rewrite Hres in Hchain.
    exact (chainDirs_prefix (fs w1) [] p t Hchain Hne).
Qed.

(** On a manifest free of collisions the order in which Go walks the two
    maps does not show in the result: two runs of createSkeleton from the
    same state that both succeed leave the same entry at every path, the
    same durable store and the same settings. *)
Theorem createSkeleton_order_independent `{Externals} (ord1 ord2 : rangeOrder)
    (w w1 w2 : World) :
  collisionFree w ->
  createSkeleton ord1 w = Ret None w1 ->
  createSkeleton ord2 w = Ret None w2 ->
  (forall p : path, fs w1 !! p = fs w2 !! p) /\
  store w1 = store w2 /\ viper w1 = viper w2.
Proof.
  intros Hcf Hr1 Hr2.
  destruct (createSkeleton_ran ord1 w w1 Hr1) as (Hrun1 & Hst1 & _ & Hv1).
  destruct (createSkeleton_ran ord2 w w2 Hr2) as (Hrun2 & Hst2 & _ & Hv2).
  split; [| split; congruence].
  intros p.
  destruct (skeleton_settled ord1 w w1 p Hcf Hr1) as [Hw1 Hd1].
  destruct (skeleton_settled ord2 w w2 p Hcf Hr2) as [Hw2 Hd2].
  pose proof (runOps_touched (cwd w) (skeletonOps ord1 w) (fs w) p) as T1.
  pose proof (runOps_touched (cwd w) (skeletonOps ord2 w) (fs w) p) as T2.
  rewrite Hrun1 in T1. rewrite Hrun2 in T2. cbn [fst] in T1, T2.
  assert (Hwritten : forall ord o y, In o (skeletonOps ord w) ->
            written (cwd w) o = Some (p, y) -> fs w1 !! p = fs w2 !! p).
  { intros ord o y Ho Hw. apply (proj1 (skeletonOps_manifest ord w o)) in Ho.
    destruct (Hw1 o y Ho Hw) as (c1 & -> & ->).
    destruct (Hw2 o _ Ho Hw) as (c2 & E & ->). congruence. }
  assert (Hmade : forall ord s t, In (OpMkdir s) (skeletonOps ord w) -> p <> [] ->
            resolve (cwd w) s = p ++ t -> fs w1 !! p = fs w2 !! p).
  { intros ord s t Ho Hne Hres. apply (proj1 (skeletonOps_manifest ord w _)) in Ho.
    rewrite (Hd1 s t Ho Hne Hres), (Hd2 s t Ho Hne Hres). reflexivity. }
  destruct T1 as [(o & y & Ho & Hw) | [E1 | (_ & s & t & Ho & Hne & Hres)]];
    [exact (Hwritten ord1 o y Ho Hw) | | exact (Hmade ord1 s t Ho Hne Hres)].
  destruct T2 as [(o & y & Ho & Hw) | [E2 | (_ & s & t & Ho & Hne & Hres)]];
    [exact (Hwritten ord2 o y Ho Hw) | | exact (Hmade ord2 s t Ho Hne Hres)].
  congruence.
Qed.

Lemma createSkeleton_order_independent_witness :
  let w1 := final (@createSkeleton sampleExternals listOrder worldConfigured) in
  let w2 := final (@createSkeleton sampleExternals reverseOrder worldConfigured) in
  (forall p : path, fs w1 !! p = fs w2 !! p) /\ store w1 = store w2.
Proof.
  cbv zeta.
  assert (Hcf : @collisionFree sampleExternals worldConfigured)
    by (unfold collisionFree; vm_compute; reflexivity).
  assert (H1 : @createSkeleton sampleExternals listOrder worldConfigured =
               Ret None (final (@createSkeleton sampleExternals listOrder worldConfigured)))
    by (apply succeeded_final; vm_compute; reflexivity).
  assert (H2 : @createSkeleton sampleExternals reverseOrder worldConfigured =
               Ret None (final (@createSkeleton sampleExternals reverseOrder worldConfigured)))
    by (apply succeeded_final; vm_compute; reflexivity).
  destruct (@createSkeleton_order_independent sampleExternals listOrder reverseOrder
              worldConfigured _ _ Hcf H1 H2) as (Hfs & Hst & _).
  split; assumption.
Defined.

(** ** When createSkeleton succeeds *)

Lemma prefixes_spec (d : path) (t : list string) (p : path) :
  In p (prefixes d t) <-> exists t1 t2, t = t1 ++ t2 /\ t1 <> [] /\ p = d ++ t1.
Proof.
  revert d. induction t as [| n t IH]; intros d; cbn [prefixes In].
  - split; [contradiction |]. intros (t1 & t2 & Ht & Hne & _).
    destruct t1; [contradiction | discriminate].
  - rewrite IH. split.
    + intros [<- | (t1 & t2 & -> & Hne & ->)].
      * exists [n], t. repeat split. discriminate.
      * exists (n :: t1), t2. split; [reflexivity |]. split; [discriminate |].
        rewrite <- app_assoc. reflexivity.
    + intros (t1 & t2 & Ht & Hne & ->). destruct t1 as [| m t1]; [contradiction |].
      injection Ht as <- ->. destruct t1 as [| k t1].
      * left. reflexivity.
      * right. exists (k :: t1), t2. split; [reflexivity |]. split; [discriminate |].
        rewrite <- app_assoc. reflexivity.
Qed.

Lemma inPaths_In (p : path) (l : list path) : inPaths p l = true <-> In p l.
Proof.
  unfold inPaths. rewrite existsb_exists. split.
  - intros (q & Hq & Hb). apply bool_decide_eq_true in Hb. subst q. exact Hq.
  - intros Hp. exists p. split; [exact Hp | apply bool_decide_eq_true; reflexivity].
Qed.

Lemma In_chainPositions `{Externals} (c : path) (ops : list fsop) (s : string) (p : path) :
  In (OpMkdir s) ops -> In p (prefixes [] (resolve c s)) -> In p (chainPositions c ops).
Proof.
  intros Ho Hp. unfold chainPositions. apply in_flat_map.
  exists (OpMkdir s). split; [exact Ho | exact Hp].
Qed.

Lemma In_destinations `{Externals} (c : path) (ops : list fsop) (o : fsop) (p : path) y :
  In o ops -> written c o = Some (p, y) -> In p (destinations c ops).
Proof.
  intros Ho Hw. unfold destinations. apply in_flat_map.
  exists o. split; [exact Ho |]. rewrite Hw. left. reflexivity.
Qed.

Lemma mkdirChain_ok (d : path) (t : list string) (f : FS) :
  (forall p, In p (prefixes d t) -> isFileAt f p = false) ->
  exists f', mkdirChain d t f = (f', None).
Proof.
  revert d f. induction t as [| n t IH]; intros d f Hfree; cbn [mkdirChain].
  - eexists. reflexivity.
  - pose proof (Hfree (d ++ [n]) ltac:(left; reflexivity)) as H0.
    unfold isFileAt in H0.
    destruct (f !! (d ++ [n])) as [[| x] |] eqn:Hl; [| discriminate |].
    + apply IH. intros p Hp. apply Hfree. right. exact Hp.
    + apply IH. intros p Hp. unfold isFileAt.
      destruct (decide (d ++ [n] = p)) as [<- | Hne].
      * rewrite am_lookup_insert_eq. reflexivity.
      * rewrite am_lookup_insert_ne by exact Hne. apply Hfree. right. exact Hp.
Qed.

Section Ready.
Context `{Externals}.
Variable c : path.
Variable ops : list fsop.

Hypothesis apart :
  forall p, In p (destinations c ops) -> ~ In p (chainPositions c ops) /\ p <> [].
Hypothesis rootChain : c <> [] -> In c (chainPositions c ops).

Lemma inv_mkdir (s : string) (f : FS) :
  In (OpMkdir s) ops -> skeletonInv c ops f ->
  exists f', mkdirAll c s f = (f', None) /\ skeletonInv c ops f'.
Proof.
  intros Ho (Hc & Hch & Hd). unfold mkdirAll. rewrite Hc, andb_false_r.
  destruct (mkdirChain_ok [] (resolve c s) f) as [f' Hm].
  { intros p Hp. apply Hch. eapply In_chainPositions; eassumption. }
  rewrite Hm. exists f'. split; [reflexivity |].
  pose proof (mkdirChain_subseteq _ _ _ _ _ Hm) as Hsub.
  split; [| split].
  - eapply isDir_kept; [| exact Hc]. intros q Hq. apply Hsub. exact Hq.
  - intros p Hp. unfold isFileAt.
    destruct (mkdirChain_made _ _ _ _ _ p Hm) as [E | [E _]]; rewrite E; [| reflexivity].
    apply Hch. exact Hp.
  - intros p Hp. unfold isDirAt.
    destruct (mkdirChain_made _ _ _ _ _ p Hm) as [E | (_ & t1 & t2 & Ht & Hne & Hpe)].
    + rewrite E. apply Hd. exact Hp.
    + exfalso. apply (proj1 (apart p Hp)).
      eapply In_chainPositions; [exact Ho |].
      apply prefixes_spec. exists t1, t2. repeat split; assumption.
Qed.

Lemma inv_write (o : fsop) (s content : string) (f : FS) y :
  In o ops -> written c o = Some (resolve c s, y) ->
  skeletonInv c ops f -> isDir f (removelast (resolve c s)) = true ->
  writeFile c s content f = (<[resolve c s := File content]> f, None) /\
  skeletonInv c ops (<[resolve c s := File content]> f).
Proof.
  intros Ho Hw (Hc & Hch & Hd) Hparent.
  pose proof (In_destinations c ops o _ y Ho Hw) as Hdest.
  destruct (apart _ Hdest) as [Hnot Hne].
  split.
  - apply writeFile_ok; [exact Hne | exact Hparent |].
    specialize (Hd _ Hdest). unfold isDirAt in Hd. intros E. rewrite E in Hd. discriminate.
  - split; [| split].
    + unfold isDir in *. destruct c as [| n q] eqn:Ec; [reflexivity |].
      rewrite am_lookup_insert_ne; [exact Hc |].
      intros E. apply Hnot. rewrite E. apply rootChain. discriminate.
    + intros p Hp. unfold isFileAt. rewrite am_lookup_insert_ne; [apply Hch, Hp |].
      intros E. apply Hnot. rewrite E. exact Hp.
    + intros p Hp. unfold isDirAt.
      destruct (decide (resolve c s = p)) as [<- | Hnp].
      * rewrite am_lookup_insert_eq. reflexivity.
      * rewrite am_lookup_insert_ne by exact Hnp. apply Hd, Hp.
Qed.

Lemma ready_dirs (l : list (string * bool)) (f : FS) :
  (forall dir keep, In (dir, keep) l -> In (dir, keep) directoriesList) ->
  (forall o, In o (dirOps l) -> In o ops) ->
  skeletonInv c ops f ->
  exists F, runOps c (dirOps l) f = (F, None) /\ skeletonInv c ops F.
Proof.
  revert f. induction l as [| [dir keep] l IH]; intros f Hcat Hops Hinv.
  - exists f. split; [reflexivity | exact Hinv].
  - assert (Hcat' : forall d k, In (d, k) l -> In (d, k) directoriesList)
      by (intros d k Hin; apply Hcat; right; exact Hin).
    assert (Hops' : forall o, In o (dirOps l) -> In o ops).
    { intros o Ho. apply Hops. unfold dirOps. cbn [flat_map].
      apply in_or_app. right. exact Ho. }
    assert (Hmk : In (OpMkdir dir) ops).
    { apply Hops. unfold dirOps. cbn [flat_map]. left. reflexivity. }
    destruct (inv_mkdir dir f Hmk Hinv) as (f1 & Hm & Hinv1).
    unfold dirOps. cbn [flat_map]. fold (dirOps l). cbn [app runOps applyOp].
    rewrite Hm. destruct keep; cbn [app]; [| apply IH; assumption].
    cbn [runOps applyOp].
    assert (Hcr : In (OpCreate (filepath.Join [dir; ".gitkeep"])) ops).
    { apply Hops. unfold dirOps. cbn [flat_map]. right. left. reflexivity. }
    destruct (catalog_resolve c dir true (Hcat dir true ltac:(left; reflexivity)))
      as (q & Hres & Hkeep & Hq).
    assert (Hparent : isDir f1 (removelast (resolve c (filepath.Join [dir; ".gitkeep"]))) = true).
    { rewrite Hkeep, removelast_last, <- Hres.
      pose proof (applyOp_post c (OpMkdir dir) f f1 Hm) as [_ Hchain].
      assert (Hne : resolve c dir <> []).
      { rewrite Hres. destruct c; [exact Hq | discriminate]. }
      pose proof (chainDirs_last f1 [] (resolve c dir) Hchain Hne) as Hl.
      cbn [app] in Hl. unfold isDir. destruct (resolve c dir); [reflexivity |].
      rewrite Hl. reflexivity. }
    destruct (inv_write (OpCreate (filepath.Join [dir; ".gitkeep"]))
                (filepath.Join [dir; ".gitkeep"]) "" f1 (Some "") Hcr eq_refl Hinv1 Hparent)
      as [Hw Hinv2].
    rewrite Hw. apply IH; assumption.
Qed.

Lemma ready_templates (l : list (string * string)) (f : FS) :
  (forall o, In o (templateOps l) -> In o ops /\ templateReady c (chainPositions c ops) o = true) ->
  (forall p, In p (chainPositions c ops) -> f !! p = Some Dir) ->
  skeletonInv c ops f ->
  exists F, runOps c (templateOps l) f = (F, None).
Proof.
  revert f. induction l as [| [src dest] l IH]; intros f Hops Hdirs Hinv.
  - exists f. reflexivity.
  - destruct (Hops (OpTemplate src dest) ltac:(left; reflexivity)) as [Ho Hready].
    cbn [templateReady] in Hready. apply andb_true_iff in Hready as [Hr Hpar].
    cbn [templateOps map runOps applyOp]. fold (templateOps l).
    destruct (render src NoData) as [content |] eqn:Hren; [| discriminate].
    assert (Hparent : isDir f (removelast (resolve c dest)) = true).
    { destruct (removelast (resolve c dest)) as [| n q] eqn:E; [reflexivity |].
      apply inPaths_In in Hpar. unfold isDir. rewrite (Hdirs _ Hpar). reflexivity. }
    destruct (inv_write (OpTemplate src dest) dest content f (Some content) Ho)
      as [Hw Hinv1]; [simpl; rewrite Hren; reflexivity | exact Hinv | exact Hparent |].
    rewrite Hw. apply IH.
    + intros o Hin. apply Hops. right. exact Hin.
    + intros p Hp. rewrite am_lookup_insert_ne; [apply Hdirs, Hp |].
      intros E.
      assert (Hdest : In (resolve c dest) (destinations c ops)).
      { eapply In_destinations; [exact Ho |]. simpl. reflexivity. }
      apply (proj1 (apart _ Hdest)). rewrite E. exact Hp.
    + exact Hinv1.
Qed.

End Ready.

Lemma skeleton_runs `{Externals} (ord : rangeOrder) (w : World) :
  ready w = true ->
  snd (runOps (cwd w) (skeletonOps ord w) (fs w)) = None.
Proof.
  unfold ready. cbv zeta. intros Hready.
  apply andb_true_iff in Hready as [Hready Htpl].
  apply andb_true_iff in Hready as [Hready Hdest].
  apply andb_true_iff in Hready as [Hcwd Hchain].
  rewrite forallb_forall in Htpl, Hdest, Hchain.
  set (c := cwd w) in *. set (ops := manifest w) in *.
  assert (Hapart : forall p, In p (destinations c ops) ->
            ~ In p (chainPositions c ops) /\ p <> []).
  { intros p Hp. specialize (Hdest p Hp).
    apply andb_true_iff in Hdest as [Hdest Hne].
    apply andb_true_iff in Hdest as [_ Hnot]. split.
    - intros Hin. apply inPaths_In in Hin. rewrite Hin in Hnot. discriminate.
    - intros ->. discriminate. }
  assert (Hroot : c <> [] -> In c (chainPositions c ops)).
  { intros Hne. apply (In_chainPositions c ops ".ccds").
    - unfold ops, manifest. apply in_or_app. left.
      apply (In_dirOps_mkdir directoriesList ".ccds" false). left. reflexivity.
    - destruct (catalog_resolve c ".ccds" false ltac:(left; reflexivity))
        as (q & Hres & _ & Hq).
      apply prefixes_spec. exists c, q. split; [exact Hres |].
      split; [exact Hne | reflexivity]. }
  assert (Hinv : skeletonInv c ops (fs w)).
  { split; [exact Hcwd |]. split.
    - intros p Hp. specialize (Hchain p Hp). apply negb_true_iff in Hchain. exact Hchain.
    - intros p Hp. specialize (Hdest p Hp).
      apply andb_true_iff in Hdest as [Hdest _].
      apply andb_true_iff in Hdest as [Hd _]. apply negb_true_iff in Hd. exact Hd. }
  { unfold skeletonOps. rewrite runOps_app.
    destruct (ready_dirs c ops Hapart Hroot (order ord directories) (fs w))
      as (F & HrunD & HinvF).
    - intros dir keep Hin.
      eapply Permutation_in; [apply (order_perm ord) | exact Hin].
    - intros o Ho. unfold ops, manifest. apply in_or_app. left.
      eapply dirOps_perm; [apply (order_perm ord) | exact Ho].
    - exact Hinv.
    - rewrite HrunD.
      destruct (ready_templates c ops Hapart Hroot
                  (order ord (files (default "" (viper w !! "ProjectRoot"))
                                    (default "" (viper w !! "PrimaryLanguage")))) F)
        as (F2 & HrunT).
      + intros o Ho.
        assert (Hm : In o ops).
        { unfold ops, manifest. apply in_or_app. right.
          eapply templateOps_perm; [apply (order_perm ord) | exact Ho]. }
        split; [exact Hm | apply Htpl, Hm].
      + intros p Hp. unfold chainPositions in Hp. apply in_flat_map in Hp as (o & Ho & Hp).
        destruct o as [s | s | src dest]; try contradiction.
        apply prefixes_spec in Hp as (t1 & t2 & Ht & Hne & ->).
        assert (Hpost : post c (OpMkdir s) F).
        { apply (runOps_post_one c (dirOps (order ord directories)) (fs w) F _ HrunD).
          - unfold ops, manifest in Ho. apply in_app_or in Ho as [Ho | Ho].
            + eapply dirOps_perm; [symmetry; apply (order_perm ord) | exact Ho].
            + unfold templateOps in Ho. apply in_map_iff in Ho as ([a b] & E & _).
              discriminate E.
          - intros o' _. apply compatible_mkdir. }
        destruct Hpost as [_ Hch]. rewrite Ht in Hch.
        exact (chainDirs_prefix F [] t1 t2 Hch Hne).
      + exact HinvF.
      + rewrite HrunT. reflexivity. }
Qed.

(** X22.  In a state that is ready for it (the working directory is a
    directory, no file is where a directory of the catalog or one of its
    parents goes, no directory is where a file goes, every template of the
    manifest renders), every operation of createSkeleton on the tree
    succeeds, in whatever order Go walks its two maps, and createSkeleton
    returns what utils.WriteConfig returns: no error, with the settings in
    the store, when the store can be written, and the error of the store
    otherwise.  Readiness is about the shape of the tree: access rights are
    not part of it (see [mkdirAll]). *)
Theorem createSkeleton_succeeds `{Externals} (ord : rangeOrder) (w : World) :
  ready w = true ->
  snd (runOps (cwd w) (skeletonOps ord w) (fs w)) = None /\
  match WriteConfigError (viper w) with
  | None =>
      createSkeleton ord w =
        Ret None (emit EvWriteConfig (set_store (viper w) (after (skeletonOps ord w) w)))
  | Some e =>
      createSkeleton ord w =
        Ret (Some e)
            (emit EvWriteConfig
               (set_store (failedStore (viper w) (store w)) (after (skeletonOps ord w) w)))
  end.
Proof.
  intros Hready. pose proof (skeleton_runs ord w Hready) as Hnone.
  split; [exact Hnone |].
  destruct (WriteConfigError (viper w)) as [e |] eqn:Hw.
  - destruct (createSkeleton_ops ord w) as [err [Hr He]].
    rewrite Hnone in Hr, He. rewrite Hw in He. subst err. rewrite Hr.
    unfold utils.WriteConfig.
    destruct (after_fields (skeletonOps ord w) w) as (_ & _ & Hvip & Hst & _).
    rewrite Hvip, Hst, Hw. reflexivity.
  - exact (createSkeleton_Ret ord w Hnone Hw).
Qed.

Lemma createSkeleton_succeeds_witness :
  (exists w1, @createSkeleton sampleExternals reverseOrder worldConfigured = Ret None w1)
  /\ (exists e w1, @createSkeleton brokenStore reverseOrder worldConfigured
                     = Ret (Some e) w1).
Proof.
  split.
  - eexists.
    exact (proj2 (@createSkeleton_succeeds sampleExternals reverseOrder worldConfigured
                    ltac:(vm_compute; reflexivity))).
  - eexists _, _.
    exact (proj2 (@createSkeleton_succeeds brokenStore reverseOrder worldConfigured
                    ltac:(vm_compute; reflexivity))).
Defined.

(** ** When [init] succeeds *)

Lemma sameMachine_configure `{Externals} (fuel : nat) : respects sameMachine (configure fuel).
Proof.
  apply respects_configure.
  - intros w. repeat split.
  - intros a b c (? & ? & ?) (? & ? & ?). repeat split; congruence.
  - intros e w _. repeat split.
  - intros n w. repeat split.
  - intros v w. repeat split.
  - intros v w. repeat split.
  - intros v w. repeat split.
  - intros v w. repeat split.
Qed.

Lemma emits_machine (evs : list Event) (w : World) : sameMachine w (emits evs w).
Proof.
  revert w. induction evs as [| e evs IH]; intros w; [repeat split |].
  cbn [emits fold_left]. destruct (IH (emit e w)) as (Hy & Hl & Hx).
  repeat split; assumption.
Qed.

Lemma applyOp_dirs_from `{Externals} (c : path) (o : fsop) (f f' : FS) e (p : path) :
  applyOp c o f = (f', e) -> f' !! p = Some Dir ->
  f !! p = Some Dir \/ In p (chainPositions c [o]).
Proof.
  intros Ha Hd. destruct (applyOp_touched c o f f' e p Ha)
    as [(o' & y & Hin & Hw) | [E | (_ & s & t & Hin & Hne & Hres)]].
  - destruct Hin as [<- | []]. left.
    destruct o as [s | s | src dest]; simpl in Hw, Ha; [discriminate | |].
    + injection Hw as <- _. destruct e as [e |].
      * apply writeFile_failed in Ha as ->. exact Hd.
      * apply writeFile_inv in Ha as (-> & _).
        rewrite am_lookup_insert_eq in Hd. discriminate Hd.
    + injection Hw as <- _. destruct (render src NoData) as [content |].
      * destruct e as [e |].
        -- apply writeFile_failed in Ha as ->. exact Hd.
        -- apply writeFile_inv in Ha as (-> & _).
           rewrite am_lookup_insert_eq in Hd. discriminate Hd.
      * injection Ha as <- _. exact Hd.
  - left. rewrite <- E. exact Hd.
  - right. destruct Hin as [-> | []]. unfold chainPositions. cbn [flat_map].
    rewrite app_nil_r. apply prefixes_spec. exists p, t. repeat split; assumption.
Qed.

(** Directories appear only where the operations make them. *)
Lemma runOps_dirs_from `{Externals} (c : path) (ops : list fsop) (f : FS) (p : path) :
  fst (runOps c ops f) !! p = Some Dir ->
  f !! p = Some Dir \/ In p (chainPositions c ops).
Proof.
  revert f. induction ops as [| o ops IH]; intros f; [left; assumption |].
  simpl. destruct (applyOp c o f) as [f1 [e |]] eqn:Ha; cbn [fst]; intros Hd.
  - destruct (applyOp_dirs_from c o f f1 _ p Ha Hd) as [E | Hin]; [left; exact E |].
    right. unfold chainPositions in *. cbn [flat_map] in *. rewrite app_nil_r in Hin.
    apply in_or_app. left. exact Hin.
  - destruct (IH f1 Hd) as [E | Hin].
    + destruct (applyOp_dirs_from c o f f1 _ p Ha E) as [E0 | Hin]; [left; exact E0 |].
      right. unfold chainPositions in *. cbn [flat_map] in *. rewrite app_nil_r in Hin.
      apply in_or_app. left. exact Hin.
    + right. unfold chainPositions in *. cbn [flat_map]. apply in_or_app. right. exact Hin.
Qed.

Lemma chainPositions_manifest `{Externals} (ord : rangeOrder) (w : World) (p : path) :
  In p (chainPositions (cwd w) (skeletonOps ord w)) ->
  In p (chainPositions (cwd w) (manifest w)).
Proof.
  unfold chainPositions. rewrite !in_flat_map. intros (o & Ho & Hp).
  exists o. split; [| exact Hp]. exact (proj1 (skeletonOps_manifest ord w o) Ho).
Qed.

(** X23.  When the configuration is resolved, the state is ready for the
    skeleton and for what follows it (the shape of the tree, with no account
    of access rights: see [mkdirAll]), the store accepts the write of the
    resolved settings, and [git init] works on the machine, [init] runs to
    its end, in whatever order Go walks the maps of createSkeleton and
    whatever the later git commands answer. *)
Theorem Run_succeeds `{Externals} (fuel : nat) (ord : rangeOrder) (w w1 : World) :
  configure fuel w = Ret tt w1 ->
  ready w1 = true ->
  WriteConfigError (viper w1) = None ->
  finishReady w1 = true ->
  (forall tr, execOk w tr "git" ["init"] = true) ->
  exists w', Run fuel ord w = Ret tt w'.
Proof.
  intros Hc Hready Hstore Hfin Hexec.
  pose proof (sameMachine_configure fuel w) as Hm. rewrite Hc in Hm.
  destruct Hm as (_ & _ & Hx1). cbn [final] in Hx1.
  set (ws := emit (EvLog "Creating project skeleton...") w1).
  pose proof (createSkeleton_Ret ord ws (skeleton_runs ord ws Hready) Hstore) as Hsk.
  (* what the skeleton left *)
  remember (emit EvWriteConfig (set_store (viper ws) (after (skeletonOps ord ws) ws)))
    as w2 eqn:Hw2.
  destruct (after_fields (skeletonOps ord ws) ws) as (Hfs2 & Hcw2 & _ & _ & _).
  destruct (after_flags (skeletonOps ord ws) ws) as (Hau2 & Hli2 & _).
  assert (Hmach2 : sameMachine w1 w2).
  { rewrite Hw2. unfold after.
    destruct (emits_machine (map opEvent (attempted (cwd ws) (skeletonOps ord ws) (fs ws)))
                (set_fs (fst (runOps (cwd ws) (skeletonOps ord ws) (fs ws))) ws))
      as (Hy & Hl & Hx).
    repeat split; assumption. }
  destruct Hmach2 as (Hy2 & Hl2 & Hx2).
  assert (Efs2 : fs w2 = fst (runOps (cwd w1) (skeletonOps ord w1) (fs w1)))
    by (rewrite Hw2; exact Hfs2).
  assert (Ecw2 : cwd w2 = cwd w1) by (rewrite Hw2; exact Hcw2).
  assert (Eau2 : author w2 = author w1) by (rewrite Hw2; exact Hau2).
  assert (Eli2 : license w2 = license w1) by (rewrite Hw2; exact Hli2).
  unfold ready in Hready. cbv zeta in Hready.
  apply andb_true_iff in Hready as [Hready _].
  apply andb_true_iff in Hready as [Hready _].
  apply andb_true_iff in Hready as [Hcwd _].
  change (isDir (fs w1) (cwd w1) = true) in Hcwd.
  destruct (runOps_frame (cwd w1) (skeletonOps ord w1) (fs w1)) as (Hkept & _).
  rewrite <- Efs2 in Hkept.
  assert (Hcwd2 : isDir (fs w2) (cwd w1) = true) by (eapply isDir_kept; eassumption).
  assert (Hnodir : forall p, isDirAt (fs w1) p = false ->
            inPaths p (chainPositions (cwd w1) (manifest w1)) = false ->
            fs w2 !! p <> Some Dir).
  { intros p Hd Hin Hp. rewrite Efs2 in Hp.
    destruct (runOps_dirs_from _ _ _ _ Hp) as [E | Hch].
    - unfold isDirAt in Hd. rewrite E in Hd. discriminate Hd.
    - apply chainPositions_manifest, inPaths_In in Hch. rewrite Hch in Hin. discriminate. }
  unfold finishReady in Hfin. cbv zeta in Hfin.
  apply andb_true_iff in Hfin as [Hfin Hgit].
  apply andb_true_iff in Hfin as [Hfin Hgit2].
  apply andb_true_iff in Hfin as [Hlic Hgit1].
  apply negb_true_iff in Hgit1, Hgit2.
  (* the license *)
  assert (Hwl : exists w3, writeLicense (author w2) (license w2) w2 = Ret None w3 /\
                  cwd w3 = cwd w1 /\ isDir (fs w3) (cwd w1) = true /\
                  fs w3 !! (cwd w1 ++ [".git"]) <> Some Dir /\
                  lookPath w3 = lookPath w1 /\ execOk w3 = execOk w1).
  { unfold writeLicense. rewrite Eli2, Eau2.
    apply orb_true_iff in Hlic as [Hnone | Hlic].
    { rewrite Hnone. exists w2. split; [reflexivity |].
      repeat split; try assumption. apply Hnodir; assumption. }
    destruct (String.eqb (license w1) "None").
    { exists w2. split; [reflexivity |].
      repeat split; try assumption. apply Hnodir; assumption. }
    apply andb_true_iff in Hlic as [Hlic HL2].
    apply andb_true_iff in Hlic as [Hren HL1].
    apply negb_true_iff in HL1, HL2.
    unfold bind, gets, templates.Write. rewrite Hy2.
    destruct (render _ _) as [content |]; [| discriminate Hren].
    rewrite writeFile_ok; rewrite ?Ecw2, ?resolve_LICENSE, ?removelast_last.
    - eexists. split; [reflexivity |].
      cbn [cwd fs lookPath execOk emit set_fs]. repeat split; try assumption.
      + eapply isDir_kept; [| exact Hcwd2]. intros q Hq.
        rewrite am_lookup_insert_ne; [exact Hq |].
        intros E. rewrite E in *. exact (Hnodir _ HL1 HL2 Hq).
      + rewrite am_lookup_insert_ne.
        * apply Hnodir; assumption.
        * intros E. apply app_inj_tail in E as [_ E]. discriminate E.
    - destruct (cwd w1); discriminate.
    - exact Hcwd2.
    - apply Hnodir; assumption. }
  destruct Hwl as (w3 & Hwl & Hcw3 & Hcwd3 & Hgit3 & Hl3 & Hx3).
  (* the repository *)
  set (wg := emit (EvLog "Initializing git repository...") w3).
  assert (Hir : initRepo wg = Ret None (emits (gitInit :: planEvents) wg)).
  { rewrite (initRepo_go wg).
    - change (execOk wg) with (execOk w3). rewrite Hx3, Hx1, Hexec. reflexivity.
    - change (isDir (fs w3) (cwd w3) = true). rewrite Hcw3. exact Hcwd3.
    - change (fs w3 !! (cwd w3 ++ [".git"]) <> Some Dir). rewrite Hcw3. exact Hgit3.
    - change (lookPath w3 "git" = true). rewrite Hl3. exact Hgit. }
  eexists. unfold Run. rewrite (bind_Ret _ _ _ _ _ Hc).
  assert (Hlog : log_Println "Creating project skeleton..." w1 = Ret tt ws) by reflexivity.
  rewrite (bind_Ret _ _ _ _ _ Hlog).
  rewrite (bind_Ret _ _ _ _ _ (orFatal_None _ _ _ Hsk)).
  unfold bind at 1. unfold gets at 1. unfold bind at 1. unfold gets at 1.
  rewrite (bind_Ret _ _ _ _ _ (orFatal_None _ _ _ Hwl)).
  assert (Hlog2 : log_Println "Initializing git repository..." w3 = Ret tt wg) by reflexivity.
  rewrite (bind_Ret _ _ _ _ _ Hlog2).
  rewrite (orFatal_None _ _ _ Hir). reflexivity.
Qed.

Lemma Run_succeeds_witness :
  exists w', @Run sampleExternals 3 reverseOrder worldInteractiveTwo = Ret tt w'.
Proof.
  assert (Hc : @configure sampleExternals 3 worldInteractiveTwo =
               Ret tt (final (@configure sampleExternals 3 worldInteractiveTwo)))
    by (apply returned_final; vm_compute; reflexivity).
  apply (@Run_succeeds sampleExternals 3 reverseOrder worldInteractiveTwo _ Hc).
  - vm_compute. reflexivity.
  - reflexivity.
  - vm_compute. reflexivity.
  - intros tr. reflexivity.
Defined.
